(** * fileStore: handler registry, caches and retrieval pipeline

    A shallow embedding of [filestore/fs.py], [filestore/retrieve.py] and
    [filestore/handlers.py].

    Python objects that the code shares by reference (the dicts that
    make up the layered registry) live in an explicit store and are
    named by locations; exceptions are values of [PyErr]; a method that
    mutates [self] is a function from the object's state to a result
    paired with the new state (the state survives a raised exception). *)

From stdpp Require Import gmap strings list pretty sorting.
From Stdlib Require Import ZArith Lia.

Open Scope Z_scope.

(** ** Python values and exceptions *)

Inductive PyVal :=
| VNone
| VInt (n : Z)
| VStr (s : string).

(** [**kwargs]: keyword name to value. *)
Abbreviation Kwargs := (gmap string PyVal).

(** A numpy array: its shape and its elements in row-major order. *)
Record ndarray := mk_ndarray { shape : list nat; data : list Z }.

(** [ndarray.squeeze()]: the axes of length one are dropped, the
    elements are kept. *)
Definition squeeze (a : ndarray) : ndarray :=
  mk_ndarray (filter (λ n : nat, n ≠ 1%nat) (shape a)) (data a).

Inductive PyErr :=
| KeyError
| TypeError
| IOError
| RuntimeError (msg : string)
| DuplicateHandler (msg : string)
| IntegrityError (msg : string)
| IndexError
| NotFoundError
| ValidationError
| ConflictError
| UserError (tag : nat).

Inductive Result (A : Type) :=
| Ok (a : A)
| Raise (e : PyErr).
Arguments Ok {A} a.
Arguments Raise {A} e.

Definition is_ok {A} (r : Result A) : bool :=
  match r with Ok _ => true | Raise _ => false end.

(** ** boltons.cacheutils.LRU

    The three caches of [FileStoreRO] are instances of the third-party
    class [boltons.cacheutils.LRU], a dict that keeps its keys in
    recency order and holds at most [max_size] of them.  The entries
    are kept here most recently used first. *)

Section LRU.
Context {K V : Type} `{EqDecision K}.

Record LRU := mkLRU { max_size : Z; items : list (K * V) }.

Fixpoint assoc (k : K) (l : list (K * V)) : option V :=
  match l with
  | [] => None
  | (k', v) :: r => if decide (k' = k) then Some v else assoc k r
  end.

Definition without (k : K) (l : list (K * V)) : list (K * V) :=
  filter (λ kv, kv.1 ≠ k) l.

(** [list(cache)] *)
Definition lru_keys (c : LRU) : list K := (items c).*1.

(** [k in cache] *)
Definition lru_contains (k : K) (c : LRU) : bool :=
  bool_decide (is_Some (assoc k (items c))).

(** [cache[k]] without an [on_miss] hook: a hit moves the entry to the
    front and returns its value, a miss is a [KeyError] ([None]). *)
Definition lru_getitem (k : K) (c : LRU) : option (V * LRU) :=
  match assoc k (items c) with
  | Some v => Some (v, mkLRU (max_size c) ((k, v) :: without k (items c)))
  | None => None
  end.

(** [cache[k] = v]: an existing key is updated and moved to the front;
    a new key is added at the front, after the least recently used
    entry has been dropped when the cache is full. *)
Definition lru_setitem (k : K) (v : V) (c : LRU) : LRU :=
  match assoc k (items c) with
  | Some _ => mkLRU (max_size c) ((k, v) :: without k (items c))
  | None =>
      if bool_decide (Z.of_nat (length (items c)) < max_size c)
      then mkLRU (max_size c) ((k, v) :: items c)
      else mkLRU (max_size c) ((k, v) :: removelast (items c))
  end.

(** [del cache[k]] *)
Definition lru_delitem (k : K) (c : LRU) : LRU :=
  mkLRU (max_size c) (without k (items c)).

(** A sequence of puts, oldest first. *)
Definition lru_puts (ps : list (K * V)) (c : LRU) : LRU :=
  foldl (λ c kv, lru_setitem kv.1 kv.2 c) c ps.

(** The cache invariant: no key twice, no more than [max_size] keys. *)
Definition lru_wf (c : LRU) : Prop :=
  NoDup (lru_keys c) ∧ Z.of_nat (length (items c)) ≤ max_size c.

(** What a client does to a cache: [cache[k]] (a miss without an
    [on_miss] hook raises and leaves the cache as it is), [cache[k] = v]
    and [del cache[k]]. *)
Inductive lru_op :=
| LGet (k : K)
| LPut (k : K) (v : V)
| LDel (k : K).

Definition lru_apply (c : LRU) (o : lru_op) : LRU :=
  match o with
  | LGet k => match lru_getitem k c with Some (_, c') => c' | None => c end
  | LPut k v => lru_setitem k v c
  | LDel k => lru_delitem k c
  end.

(** A history of operations, oldest first. *)
Definition lru_run (ops : list lru_op) (c : LRU) : LRU := foldl lru_apply c ops.

(** Whether an operation reads or writes the key. *)
Definition uses (k : K) (o : lru_op) : bool :=
  match o with
  | LGet k' | LPut k' _ => bool_decide (k' = k)
  | LDel _ => false
  end.

(** How many operations of the history, read from its latest one
    backwards, came after the last use of the key. *)
Fixpoint age_rev (k : K) (rops : list lru_op) : nat :=
  match rops with
  | [] => 0%nat
  | o :: r => if uses k o then 0%nat else S (age_rev k r)
  end.

Definition lru_age (k : K) (ops : list lru_op) : nat := age_rev k (rev ops).

(** Least-recently-used eviction, for the caches grown from [c0] by a
    history of operations: when a put of a new key finds the cache
    full, the entry at the back is the one whose last use lies furthest
    back in the history; the put evicts it and keeps every other
    entry. *)
Definition evicts_least_recently_used (c0 : LRU) : Prop :=
  ∀ (ops : list lru_op) (k : K) (v : V),
    let c := lru_run ops c0 in
    assoc k (items c) = None →
    ¬ Z.of_nat (length (items c)) < max_size c →
    ∃ old, last (items c) = Some old ∧
           assoc old.1 (items (lru_setitem k v c)) = None ∧
           ∀ kv, kv ∈ items c → kv ≠ old →
                 (lru_age kv.1 ops < lru_age old.1 ops)%nat ∧
                 assoc kv.1 (items (lru_setitem k v c)) = Some kv.2.
End LRU.
Arguments LRU : clear implicits.
Arguments lru_op : clear implicits.

(** [boltons.cacheutils.DEFAULT_MAX_SIZE], the [max_size] of an [LRU()]
    built without that argument. *)
Definition DEFAULT_MAX_SIZE : Z := 128.

(** ** Handler classes, handler instances and documents *)

(** A handler constructor is a reference to a class object; [is] on two
    constructors is equality of the references. *)
Abbreviation ctor := nat.

(** A handler instance: the object built by [handler(rpath, **kwargs)].
    [inst_id] is the identity of the object. *)
Record Instance := mkInstance {
  inst_id : nat;
  inst_cls : ctor;
  inst_path : string;
  inst_kwargs : Kwargs
}.

(** What the classes in memory do: [cls_name h] is [h.__name__],
    [cls_init h rpath kwargs] tells whether [h(rpath, **kwargs)] raises,
    [cls_call h rpath kwargs dkw] is what the instance so built returns
    when called with [**dkw].  [known_spec] holds the two validators of
    the specs in [FileStoreRO.KNOWN_SPEC] (the JSON schemas are data
    files, taken here as given). *)
Record Env := mkEnv {
  cls_name : ctor → string;
  cls_init : ctor → string → Kwargs → Result unit;
  cls_call : ctor → string → Kwargs → Kwargs → Result ndarray;
  known_spec : string → option ((Kwargs → bool) * (Kwargs → bool))
}.

(** The [ObjectId] of a document. *)
Abbreviation ObjectId := nat.

(** [str(resource['_id'])] *)
Definition str_oid (i : ObjectId) : string := pretty i.

(** A document of the [resource] collection. *)
Record Resource := mkResource {
  _id : ObjectId;
  spec : string;
  resource_path : string;
  resource_kwargs : Kwargs
}.

(** A document of the [datum] collection. *)
Record Datum := mkDatum {
  datum_id : string;
  resource : ObjectId;
  datum_kwargs : Kwargs
}.

(** The location of a dict object. *)
Abbreviation loc := nat.

(** ** filestore/fs.py *)

Module fs.

(** [_ChainMap]: a primary dict in front of a fallback mapping, which is
    a dict or another [_ChainMap].  Dicts are named by their location in
    the store of dict objects.  (Where [collections.ChainMap] exists the
    module uses it in place of this class; the two agree on the
    operations below.) *)
Inductive _ChainMap :=
| PlainDict (d : loc)
| Chain (primary : loc) (fallback : _ChainMap).

Abbreviation DictStore := (gmap loc (gmap string ctor)).

Definition dict_at (h : DictStore) (l : loc) : gmap string ctor :=
  default ∅ (h !! l).

(** [_ChainMap.__getitem__]: [primary[k]], and on [KeyError]
    [fallback[k]]. *)
Fixpoint getitem (h : DictStore) (m : _ChainMap) (k : string) : Result ctor :=
  match m with
  | PlainDict d =>
      match dict_at h d !! k with Some v => Ok v | None => Raise KeyError end
  | Chain p fb =>
      match dict_at h p !! k with Some v => Ok v | None => getitem h fb k end
  end.

(** [_ChainMap.__contains__] *)
Fixpoint contains (h : DictStore) (m : _ChainMap) (k : string) : bool :=
  match m with
  | PlainDict d => bool_decide (is_Some (dict_at h d !! k))
  | Chain p fb => bool_decide (is_Some (dict_at h p !! k)) || contains h fb k
  end.

(** [maps[0]] *)
Definition primary_of (m : _ChainMap) : loc :=
  match m with PlainDict d => d | Chain p _ => p end.

(** [_ChainMap.maps], flattened: every dict of the chain, innermost
    first. *)
Fixpoint layers (m : _ChainMap) : list loc :=
  match m with PlainDict d => [d] | Chain p fb => p :: layers fb end.

(** [_ChainMap.__setitem__] *)
Definition setitem (h : DictStore) (m : _ChainMap) (k : string) (v : ctor) : DictStore :=
  <[primary_of m := <[k := v]> (dict_at h (primary_of m))]> h.

(** [_ChainMap.pop(k, None)] *)
Definition pop (h : DictStore) (m : _ChainMap) (k : string) : option ctor * DictStore :=
  match dict_at h (primary_of m) !! k with
  | Some v => (Some v, <[primary_of m := delete k (dict_at h (primary_of m))]> h)
  | None => (None, h)
  end.

(** [_ChainMap.new_child] *)
Definition new_child (m : _ChainMap) (d : loc) : _ChainMap := Chain d m.

(** The state of a [FileStoreRO] object, with the document store it is
    connected to: the dict objects, the registry, the three caches, the
    two collections, and the counters from which fresh dict locations,
    object ids and instance identities are drawn. *)
Record FileStoreRO := mkFS {
  dicts : DictStore;
  next_loc : loc;
  handler_reg : _ChainMap;
  _datum_cache : LRU string Datum;
  _handler_cache : LRU (string * string) Instance;
  _resource_cache : LRU ObjectId (option Resource);
  resource_col : list Resource;
  datum_col : list Datum;
  next_oid : ObjectId;
  next_inst : nat
}.

Definition set_dicts (h : DictStore) (s : FileStoreRO) : FileStoreRO :=
  mkFS h (next_loc s) (handler_reg s) (_datum_cache s) (_handler_cache s)
       (_resource_cache s) (resource_col s) (datum_col s) (next_oid s) (next_inst s).
Definition set_next_loc (n : loc) (s : FileStoreRO) : FileStoreRO :=
  mkFS (dicts s) n (handler_reg s) (_datum_cache s) (_handler_cache s)
       (_resource_cache s) (resource_col s) (datum_col s) (next_oid s) (next_inst s).
Definition set_handler_reg (m : _ChainMap) (s : FileStoreRO) : FileStoreRO :=
  mkFS (dicts s) (next_loc s) m (_datum_cache s) (_handler_cache s)
       (_resource_cache s) (resource_col s) (datum_col s) (next_oid s) (next_inst s).
Definition set_datum_cache (c : LRU string Datum) (s : FileStoreRO) : FileStoreRO :=
  mkFS (dicts s) (next_loc s) (handler_reg s) c (_handler_cache s)
       (_resource_cache s) (resource_col s) (datum_col s) (next_oid s) (next_inst s).
Definition set_handler_cache (c : LRU (string * string) Instance) (s : FileStoreRO) : FileStoreRO :=
  mkFS (dicts s) (next_loc s) (handler_reg s) (_datum_cache s) c
       (_resource_cache s) (resource_col s) (datum_col s) (next_oid s) (next_inst s).
Definition set_resource_cache (c : LRU ObjectId (option Resource)) (s : FileStoreRO) : FileStoreRO :=
  mkFS (dicts s) (next_loc s) (handler_reg s) (_datum_cache s) (_handler_cache s)
       c (resource_col s) (datum_col s) (next_oid s) (next_inst s).
Definition set_resource_col (l : list Resource) (s : FileStoreRO) : FileStoreRO :=
  mkFS (dicts s) (next_loc s) (handler_reg s) (_datum_cache s) (_handler_cache s)
       (_resource_cache s) l (datum_col s) (next_oid s) (next_inst s).
Definition set_datum_col (l : list Datum) (s : FileStoreRO) : FileStoreRO :=
  mkFS (dicts s) (next_loc s) (handler_reg s) (_datum_cache s) (_handler_cache s)
       (_resource_cache s) (resource_col s) l (next_oid s) (next_inst s).
Definition set_next_oid (n : ObjectId) (s : FileStoreRO) : FileStoreRO :=
  mkFS (dicts s) (next_loc s) (handler_reg s) (_datum_cache s) (_handler_cache s)
       (_resource_cache s) (resource_col s) (datum_col s) n (next_inst s).
Definition set_next_inst (n : nat) (s : FileStoreRO) : FileStoreRO :=
  mkFS (dicts s) (next_loc s) (handler_reg s) (_datum_cache s) (_handler_cache s)
       (_resource_cache s) (resource_col s) (datum_col s) (next_oid s) n.

(** [FileStoreRO.__init__]: [handler_reg] is the dict passed in ([{}]
    when it is [None]); it becomes the primary of a [_ChainMap] whose
    fallback is a new empty dict.  The datum cache is an
    [LRU(max_size=1000000)], the other two are [LRU()]. *)
Definition __init__ (handler_reg : option (gmap string ctor)) : FileStoreRO :=
  mkFS {[ 0%nat := default ∅ handler_reg; 1%nat := ∅ ]} 2%nat
       (Chain 0%nat (PlainDict 1%nat))
       (mkLRU 1000000 []) (mkLRU DEFAULT_MAX_SIZE []) (mkLRU DEFAULT_MAX_SIZE [])
       [] [] 0%nat 0%nat.

(** The loop of [deregister_handler] and [handler_context]:
    [for k in list(self._handler_cache): if k[1] == name: del ...] *)
Definition evict_name (name : string) (c : LRU (string * string) Instance)
  : LRU (string * string) Instance :=
  foldl (λ c k, if decide (k.2 = name) then lru_delitem k c else c) c (lru_keys c).

Section with_env.
Context (Γ : Env).

(** [FileStoreRO.deregister_handler] *)
Definition deregister_handler (key : string) (s : FileStoreRO) : FileStoreRO :=
  let '(handler, h) := pop (dicts s) (handler_reg s) key in
  match handler with
  | Some h0 => set_handler_cache (evict_name (cls_name Γ h0) (_handler_cache s))
                                 (set_dicts h s)
  | None => set_dicts h s
  end.

(** [FileStoreRO.register_handler].  The message of the exception
    ends, in the source, with the [repr] of the store object, which is
    left out. *)
Definition register_handler (key : string) (handler : ctor) (overwrite : bool)
    (s : FileStoreRO) : Result unit * FileStoreRO :=
  if negb overwrite && contains (dicts s) (handler_reg s) key then
    match getitem (dicts s) (handler_reg s) key with
    | Ok h =>
        if decide (h = handler) then (Ok (), s)
        else (Raise (DuplicateHandler
                ("You are trying to register a second handler for spec " +:+ key)), s)
    | Raise e => (Raise e, s)
    end
  else
    let s1 := deregister_handler key s in
    (Ok (), set_dicts (setitem (dicts s1) (handler_reg s1) key handler) s1).

(** The store as the body of [with self.handler_context(temp_handlers)]
    finds it: the registry is a new child of the old one, with
    [temp_handlers] as its primary. *)
Definition at_yield (temp_handlers : loc) (s : FileStoreRO) : FileStoreRO :=
  set_handler_reg (new_child (handler_reg s) temp_handlers) s.

(** [FileStoreRO.handler_context], as the context manager runs it
    around a body: the code before [yield], the body, and the
    [finally] block whether the body returned or raised; the body's
    exception, if any, is raised again afterwards. *)
Definition handler_context {A} (temp_handlers : loc)
    (body : FileStoreRO → Result A * FileStoreRO)
    (s : FileStoreRO) : Result A * FileStoreRO :=
  let stash := handler_reg s in
  let s1 := at_yield temp_handlers s in
  let '(r, s2) := body s1 in
  let popped_reg := dict_at (dicts s2) (primary_of (handler_reg s2)) in
  let s3 := set_handler_reg stash s2 in
  let cache := foldl (λ c handler, evict_name (cls_name Γ handler) c)
                     (_handler_cache s3) (map_to_list popped_reg).*2 in
  (r, set_handler_cache cache s3).

(** [FileStoreRO._r_on_miss]: [col.find_one({'_id': k})] *)
Definition _r_on_miss (k : ObjectId) (s : FileStoreRO) : option Resource :=
  List.find (λ r, bool_decide (_id r = k)) (resource_col s).

(** [self._resource_cache[k]]: the cache was built with
    [on_miss=self._r_on_miss], so a miss stores and returns what the
    hook returns, [None] included. *)
Definition resource_cache_getitem (k : ObjectId) (s : FileStoreRO)
  : option Resource * FileStoreRO :=
  match lru_getitem k (_resource_cache s) with
  | Some (v, c) => (v, set_resource_cache c s)
  | None =>
      let ret := _r_on_miss k s in
      (ret, set_resource_cache (lru_setitem k ret (_resource_cache s)) s)
  end.

(** [FileStoreRO.get_spec_handler] *)
Definition get_spec_handler (rid : ObjectId) (s : FileStoreRO)
  : Result Instance * FileStoreRO :=
  let '(res, s1) := resource_cache_getitem rid s in
  match res with
  | None => (Raise TypeError, s1)
  | Some r =>
      match getitem (dicts s1) (handler_reg s1) (spec r) with
      | Raise e => (Raise e, s1)
      | Ok handler =>
          let key := (str_oid (_id r), cls_name Γ handler) in
          match lru_getitem key (_handler_cache s1) with
          | Some (inst, c) => (Ok inst, set_handler_cache c s1)
          | None =>
              match cls_init Γ handler (resource_path r) (resource_kwargs r) with
              | Raise e => (Raise e, s1)
              | Ok _ =>
                  let ret := mkInstance (next_inst s1) handler
                               (resource_path r) (resource_kwargs r) in
                  (Ok ret,
                   set_next_inst (S (next_inst s1))
                     (set_handler_cache (lru_setitem key ret (_handler_cache s1)) s1))
              end
          end
      end
  end.

(** Calling a handler instance with [**kwargs]. *)
Definition call_instance (i : Instance) (kwargs : Kwargs) : Result ndarray :=
  cls_call Γ (inst_cls i) (inst_path i) (inst_kwargs i) kwargs.

(** Modelled from the spec: [core.insert_resource], which
    [FileStore.insert_resource] calls and which is not among the
    sources.  The kwargs are validated against the resource schema of
    the spec when the spec has one ([ValidationError] on mismatch; no
    handler needs to be registered), a new Resource document is
    persisted under a fresh id, and the document is returned. *)
Definition _insert_resource (spec : string) (resource_path : string)
    (resource_kwargs : Kwargs) (s : FileStoreRO) : Result Resource * FileStoreRO :=
  let valid := match known_spec Γ spec with
               | Some (vres, _) => vres resource_kwargs
               | None => true
               end in
  if valid then
    let r := mkResource (next_oid s) spec resource_path resource_kwargs in
    (Ok r, set_next_oid (S (next_oid s)) (set_resource_col (resource_col s ++ [r]) s))
  else (Raise ValidationError, s).

(** [FileStore.insert_resource] *)
Definition insert_resource (spec : string) (resource_path : string)
    (resource_kwargs : Kwargs) (s : FileStoreRO) : Result Resource * FileStoreRO :=
  _insert_resource spec resource_path resource_kwargs s.

(** Modelled from the spec: [core.insert_datum], which
    [FileStore.insert_datum] calls and which is not among the sources.
    The kwargs are validated against the datum schema of the resource's
    spec when it has one, and a new Datum document is persisted; the
    unique index on [datum_id] refuses a second document with the same
    id ([ConflictError]). *)
Definition _insert_datum (resource : Resource) (did : string)
    (datum_kwargs : Kwargs) (s : FileStoreRO) : Result Datum * FileStoreRO :=
  let valid := match known_spec Γ (spec resource) with
               | Some (_, vdat) => vdat datum_kwargs
               | None => true
               end in
  if valid then
    if bool_decide (did ∈ datum_id <$> datum_col s)
    then (Raise ConflictError, s)
    else
      let d := mkDatum did (_id resource) datum_kwargs in
      (Ok d, set_datum_col (datum_col s ++ [d]) s)
  else (Raise ValidationError, s).

(** [FileStore.insert_datum]: [resource] is a Resource document or a
    bare id; for an id the document is read from the collection, and
    [resource['id'] = ...] on the [None] of a failed lookup is a
    [TypeError].  [datum_kwargs] may be [None]. *)
Definition insert_datum (resource : Resource + ObjectId) (did : string)
    (datum_kwargs : option Kwargs) (s : FileStoreRO) : Result Datum * FileStoreRO :=
  let found := match resource with
               | inl r => Some r
               | inr i => List.find (λ r, bool_decide (_id r = i)) (resource_col s)
               end in
  match found with
  | None => (Raise TypeError, s)
  | Some r => _insert_datum r did (default ∅ datum_kwargs) s
  end.

(** Modelled from the spec: [core.get_datum], which
    [FileStoreRO.get_datum] calls and which is not among the sources.
    Step 1 fetches the Datum through the datum cache, loading it from
    the collection on a miss ([NotFoundError] when there is none);
    steps 2 to 4 are [get_spec_handler], passed in by the caller;
    step 5 calls the instance with the datum's kwargs and returns the
    result, or the handler's exception, as it is. *)
Definition _get_datum (eid : string)
    (get_spec_handler : ObjectId → FileStoreRO → Result Instance * FileStoreRO)
    (s : FileStoreRO) : Result ndarray * FileStoreRO :=
  let fetched :=
    match lru_getitem eid (_datum_cache s) with
    | Some (d, c) => Some (d, set_datum_cache c s)
    | None =>
        match List.find (λ d, bool_decide (datum_id d = eid)) (datum_col s) with
        | Some d => Some (d, set_datum_cache (lru_setitem eid d (_datum_cache s)) s)
        | None => None
        end
    end in
  match fetched with
  | None => (Raise NotFoundError, s)
  | Some (d, s1) =>
      let '(r, s2) := get_spec_handler (resource d) s1 in
      match r with
      | Raise e => (Raise e, s2)
      | Ok inst => (call_instance inst (datum_kwargs d), s2)
      end
  end.

(** [FileStoreRO.get_datum] *)
Definition get_datum (eid : string) (s : FileStoreRO) : Result ndarray * FileStoreRO :=
  _get_datum eid get_spec_handler s.

(** *** Client code

    The statements a client runs against one store object, among them
    the body of a [with fs.handler_context(...)] block. *)
Inductive stmt :=
| Pass
| Seq (a b : stmt)
| RegisterHandler (key : string) (handler : ctor) (overwrite : bool)
| DeregisterHandler (key : string)
| GetSpecHandler (rid : ObjectId)
| GetDatum (eid : string)
| InsertResource (spec : string) (resource_path : string) (resource_kwargs : Kwargs)
| InsertDatum (resource : Resource + ObjectId) (datum_id : string)
              (datum_kwargs : option Kwargs)
| RaiseStmt (e : PyErr)
| TryExcept (body handler : stmt)
| With (temp_handlers : gmap string ctor) (body : stmt).

(** A dict display [{...}]: a new dict object, at the next free
    location. *)
Definition alloc_dict (d : gmap string ctor) (s : FileStoreRO) : FileStoreRO :=
  set_next_loc (S (next_loc s)) (set_dicts (<[next_loc s := d]> (dicts s)) s).

Definition discard {A} (r : Result A * FileStoreRO) : Result unit * FileStoreRO :=
  (match r.1 with Ok _ => Ok () | Raise e => Raise e end, r.2).

(** [With d body] is [with fs.handler_context({...}): body]: the dict
    display makes a new dict object.  [TryExcept a b] is
    [try: a / except Exception: b]. *)
Fixpoint exec (c : stmt) (s : FileStoreRO) : Result unit * FileStoreRO :=
  match c with
  | Pass => (Ok (), s)
  | Seq a b =>
      match exec a s with
      | (Ok _, s1) => exec b s1
      | (Raise e, s1) => (Raise e, s1)
      end
  | RegisterHandler key handler overwrite => register_handler key handler overwrite s
  | DeregisterHandler key => (Ok (), deregister_handler key s)
  | GetSpecHandler rid => discard (get_spec_handler rid s)
  | GetDatum eid => discard (get_datum eid s)
  | InsertResource sp rp rk => discard (insert_resource sp rp rk s)
  | InsertDatum r di dk => discard (insert_datum r di dk s)
  | RaiseStmt e => (Raise e, s)
  | TryExcept a b =>
      match exec a s with
      | (Ok _, s1) => (Ok (), s1)
      | (Raise _, s1) => exec b s1
      end
  | With temp_handlers body =>
      handler_context (next_loc s) (exec body) (alloc_dict temp_handlers s)
  end.

(** [resolve(spec)]: the lookup of a spec in the registry of a store. *)
Definition resolve (spec : string) (s : FileStoreRO) : Result ctor :=
  getitem (dicts s) (handler_reg s) spec.
End with_env.

(** Every dict of the registry is an allocated one. *)
Definition wf_locs (s : FileStoreRO) : Prop :=
  ∀ l, l ∈ layers (handler_reg s) → (l < next_loc s)%nat.

(** [frames s s']: from [s] to [s'] the registry is the same chain, no
    location was given back, and no dict that existed in [s] was written
    except the primary of the chain. *)
Definition frames (s s' : FileStoreRO) : Prop :=
  handler_reg s' = handler_reg s ∧
  (next_loc s ≤ next_loc s')%nat ∧
  ∀ l, (l < next_loc s)%nat → l ≠ primary_of (handler_reg s) →
       dicts s' !! l = dicts s !! l.

(** The [finally] block of [handler_context], for the registry
    [stash] that was saved on entry. *)
Definition leave_block (Γ : Env) (stash : _ChainMap) (s2 : FileStoreRO) : FileStoreRO :=
  let popped_reg := dict_at (dicts s2) (primary_of (handler_reg s2)) in
  let s3 := set_handler_reg stash s2 in
  let cache := foldl (λ c handler, evict_name (cls_name Γ handler) c)
                     (_handler_cache s3) (map_to_list popped_reg).*2 in
  set_handler_cache cache s3.

(** One thing a client does to the store: a call of one of its
    methods, the making of a dict, the entry into a
    [with fs.handler_context(d)] block on some dict, or the exit from
    one.  Ids and documents come from the store: a handler is asked
    for under an id that was given to a resource, and a resource
    document handed to [insert_datum] is one of the collection. *)
Inductive step (Γ : Env) (s : FileStoreRO) : FileStoreRO → Prop :=
| step_register key handler overwrite :
    step Γ s (register_handler Γ key handler overwrite s).2
| step_deregister key :
    step Γ s (deregister_handler Γ key s)
| step_get_spec_handler rid :
    (rid < next_oid s)%nat →
    step Γ s (get_spec_handler Γ rid s).2
| step_get_datum eid :
    step Γ s (get_datum Γ eid s).2
| step_insert_resource sp rp rk :
    step Γ s (insert_resource Γ sp rp rk s).2
| step_insert_datum ra did dk :
    (∀ r, ra = inl r → r ∈ resource_col s) →
    step Γ s (insert_datum Γ ra did dk s).2
| step_alloc d :
    step Γ s (alloc_dict d s)
| step_enter temp_handlers :
    step Γ s (at_yield temp_handlers s)
| step_leave stash :
    step Γ s (leave_block Γ stash s).

(** Any number of such steps. *)
Definition steps (Γ : Env) : relation FileStoreRO := rtc (step Γ).

(** The documents of the two collections: no datum id and no resource
    id twice, the resource ids are the ones given out so far, and every
    datum refers to one of them. *)
Definition docs_ok (rs : list Resource) (ds : list Datum) (n : ObjectId) : Prop :=
  NoDup (datum_id <$> ds) ∧ NoDup (_id <$> rs) ∧
  (∀ r, r ∈ rs → (_id r < n)%nat) ∧
  (∀ i, (i < n)%nat → ∃ r, r ∈ rs ∧ _id r = i) ∧
  (∀ d, d ∈ ds → (resource d < n)%nat).

(** A cached datum is the persisted one of that id. *)
Definition dcache_ok (c : LRU string Datum) (ds : list Datum) : Prop :=
  ∀ k d, (k, d) ∈ items c → d ∈ ds ∧ datum_id d = k.

(** A cached resource is the persisted one of that id. *)
Definition rcache_ok (c : LRU ObjectId (option Resource)) (rs : list Resource) : Prop :=
  ∀ k v, (k, v) ∈ items c → ∃ r, v = Some r ∧ r ∈ rs ∧ _id r = k.

(** A cached handler instance sits under the id of a persisted
    resource and the name of its class, and was built from that
    resource's path and kwargs. *)
Definition hcache_ok (Γ : Env) (c : LRU (string * string) Instance)
    (rs : list Resource) : Prop :=
  ∀ a n inst, ((a, n), inst) ∈ items c →
    ∃ r, r ∈ rs ∧ a = str_oid (_id r) ∧
         inst_path inst = resource_path r ∧ inst_kwargs inst = resource_kwargs r ∧
         n = cls_name Γ (inst_cls inst).

(** The caches agree with the collections. *)
Definition store_inv (Γ : Env) (s : FileStoreRO) : Prop :=
  docs_ok (resource_col s) (datum_col s) (next_oid s) ∧
  dcache_ok (_datum_cache s) (datum_col s) ∧
  rcache_ok (_resource_cache s) (resource_col s) ∧
  hcache_ok Γ (_handler_cache s) (resource_col s).

(** The lookup in the spec's words: the layers are searched
    from the innermost overlay to its parents, and the first one that
    defines the spec gives the constructor. *)
Definition first_defining (h : DictStore) (ls : list loc) (spec : string) : option ctor :=
  head (omap (λ l, dict_at h l !! spec) ls).

(** What the handler cache looks like at any time: no key twice and no
    more keys than its maximum, the default one; every instance sits
    under the name of the class that built it; the identities of the
    instances are distinct and were all drawn from the counter. *)
Definition cache_ok (Γ : Env) (c : LRU (string * string) Instance) (n : nat) : Prop :=
  lru_wf c ∧ max_size c = DEFAULT_MAX_SIZE ∧
  (∀ k i, (k, i) ∈ items c → k.2 = cls_name Γ (inst_cls i) ∧ (inst_id i < n)%nat) ∧
  NoDup (inst_id <$> (items c).*2).

Definition cache_inv (Γ : Env) (s : FileStoreRO) : Prop :=
  cache_ok Γ (_handler_cache s) (next_inst s).

(** Client code that works on the registry and the handlers only: no
    insertion and no [get_datum]. *)
Fixpoint registry_only (c : stmt) : bool :=
  match c with
  | Pass | RegisterHandler _ _ _ | DeregisterHandler _ | GetSpecHandler _
  | RaiseStmt _ => true
  | Seq a b | TryExcept a b => registry_only a && registry_only b
  | With _ body => registry_only body
  | GetDatum _ | InsertResource _ _ _ | InsertDatum _ _ _ => false
  end.

End fs.

(** ** filestore/retrieve.py *)

Module retrieve.

(** [HandlerRegistry], a subclass of [dict]. *)
Abbreviation HandlerRegistry := (gmap string ctor).

(** [HandlerRegistry.register_handler].  The message of the exception
    ends, in the source, with the [repr] of the registry, which is left
    out. *)
Definition register_handler (key : string) (handler : ctor) (overwrite : bool)
    (self : HandlerRegistry) : Result unit * HandlerRegistry :=
  if negb overwrite && bool_decide (is_Some (self !! key)) then
    match self !! key with
    | Some h =>
        if decide (h = handler) then (Ok (), self)
        else (Raise (RuntimeError
                ("You are trying to register a second handler for spec " +:+ key)), self)
    | None => (Raise KeyError, self)
    end
  else (Ok (), <[key := handler]> self).

(** [HandlerRegistry.deregister_handler] *)
Definition deregister_handler (key : string) (self : HandlerRegistry) : HandlerRegistry :=
  if bool_decide (is_Some (self !! key)) then delete key self else self.

(** The state of the module: the registry [_h_registry], and the counter
    from which the identities of new handler instances are drawn. *)
Record state := mkState {
  _h_registry : HandlerRegistry;
  next_inst : nat
}.

(** The loop of [handler_context] before its [yield], over the items of
    [temp_handlers] in the order the dict yields them. *)
Fixpoint enter (temp_handlers : list (string * ctor))
    (remove_list : list string) (replace_list : list (string * ctor))
    (g : HandlerRegistry)
  : Result (list string * list (string * ctor)) * HandlerRegistry :=
  match temp_handlers with
  | [] => (Ok (remove_list, replace_list), g)
  | (k, v) :: rest =>
      let '(remove_list, replace_list, g1) :=
        match g !! k with
        | None => (remove_list ++ [k], replace_list, g)
        | Some old_h => (remove_list, replace_list ++ [(k, old_h)], delete k g)
        end in
      match register_handler k v false g1 with
      | (Ok _, g2) => enter rest remove_list replace_list g2
      | (Raise e, g2) => (Raise e, g2)
      end
  end.

(** The two loops of [handler_context] after its [yield]. *)
Fixpoint restore (replace_list : list (string * ctor)) (g : HandlerRegistry)
  : Result unit * HandlerRegistry :=
  match replace_list with
  | [] => (Ok (), g)
  | (k, v) :: rest =>
      match register_handler k v true g with
      | (Ok _, g1) => restore rest g1
      | (Raise e, g1) => (Raise e, g1)
      end
  end.

Definition leave (remove_list : list string) (replace_list : list (string * ctor))
    (g : HandlerRegistry) : Result unit * HandlerRegistry :=
  restore replace_list (foldl (λ g k, deregister_handler k g) g remove_list).

(** [handler_context], as [contextlib.contextmanager] runs the generator
    around a body.  When the body raises, the exception is thrown into
    the generator at its [yield]; the function has no [try] around it,
    so the statements after the [yield] are not run and the exception
    leaves the [with] block. *)
Definition handler_context {A} (temp_handlers : list (string * ctor))
    (body : state → Result A * state) (w : state) : Result A * state :=
  match enter temp_handlers [] [] (_h_registry w) with
  | (Raise e, g) => (Raise e, mkState g (next_inst w))
  | (Ok (remove_list, replace_list), g) =>
      match body (mkState g (next_inst w)) with
      | (Raise e, w1) => (Raise e, w1)
      | (Ok a, w1) =>
          match leave remove_list replace_list (_h_registry w1) with
          | (Ok _, g2) => (Ok a, mkState g2 (next_inst w1))
          | (Raise e, g2) => (Raise e, mkState g2 (next_inst w1))
          end
      end
  end.

(** The module-level [register_handler] and [deregister_handler]. *)
Definition register_handler' (key : string) (handler : ctor) (overwrite : bool)
    (w : state) : Result unit * state :=
  let '(r, g) := register_handler key handler overwrite (_h_registry w) in
  (r, mkState g (next_inst w)).

Definition deregister_handler' (key : string) (w : state) : state :=
  mkState (deregister_handler key (_h_registry w)) (next_inst w).

(** [resolve(spec)] on the module-level registry. *)
Definition resolve (spec : string) (w : state) : Result ctor :=
  match _h_registry w !! spec with Some h => Ok h | None => Raise KeyError end.

(** A Datum document as [get_data] receives it: its [resource] field is
    the Resource document itself. *)
Record DatumDocument := mkDatumDocument {
  datum_id : string;
  resource : Resource;
  datum_kwargs : Kwargs
}.

Section with_env.
Context (Γ : Env).

(** [get_spec_handler]: every call builds a new instance. *)
Definition get_spec_handler (resource : Resource)
    (handle_registry : option HandlerRegistry) (w : state) : Result Instance * state :=
  let handle_registry := default (_h_registry w) handle_registry in
  match handle_registry !! spec resource with
  | None => (Raise KeyError, w)
  | Some h =>
      match cls_init Γ h (resource_path resource) (resource_kwargs resource) with
      | Raise e => (Raise e, w)
      | Ok _ =>
          (Ok (mkInstance (next_inst w) h (resource_path resource)
                 (resource_kwargs resource)),
           mkState (_h_registry w) (S (next_inst w)))
      end
  end.

(** [get_data] *)
Definition get_data (datum : DatumDocument)
    (handle_registry : option HandlerRegistry) (w : state) : Result ndarray * state :=
  let kwargs := datum_kwargs datum in
  match get_spec_handler (resource datum) handle_registry w with
  | (Raise e, w1) => (Raise e, w1)
  | (Ok handler, w1) =>
      (cls_call Γ (inst_cls handler) (inst_path handler) (inst_kwargs handler) kwargs, w1)
  end.
End with_env.

End retrieve.

(** ** filestore/handlers.py *)

Module handlers.

(** What the handlers call outside this repository: the [%] operator on
    strings, [str.replace], the SPE reader (opening the file and
    [getData()] on it), and [pims.ImageSequence] (the frames that match
    a file pattern at the time of the call). *)
Record Files := mkFiles {
  percent : string → list PyVal → string;
  replace : string → string → string → string;
  PrincetonSPEFile : string → Result ndarray;
  ImageSequence : string → Result (list ndarray)
}.

(** [fmt.format(a, b)] for the two messages below: [str] of an int is
    its decimal notation. *)
Definition expected_found (a b : Z) : string :=
  "expected " +:+ pretty a +:+ " frames, found " +:+ pretty b +:+ " frames".

Definition seeking_frame (a b : Z) : string :=
  "Seeking Frame " +:+ pretty a +:+ " out of " +:+ pretty b +:+ " frames.".

(** A Python index of a slice, brought into [0..len]. *)
Definition clamp_index (i len : Z) : Z :=
  if bool_decide (i < 0) then Z.max (i + len) 0 else Z.min i len.

(** [l[start:stop]] *)
Definition py_slice {A} (l : list A) (start stop : Z) : list A :=
  let len := Z.of_nat (length l) in
  let a := clamp_index start len in
  let b := clamp_index stop len in
  take (Z.to_nat (b - a)) (drop (Z.to_nat a) l).

(** [np.asarray] of a list of equally shaped frames. *)
Definition asarray (frames : list ndarray) : ndarray :=
  mk_ndarray (length frames :: match frames with [] => [] | f :: _ => shape f end)
             (concat (data <$> frames)).

Module AreaDetectorSPEHandler.
Record t := mk {
  _path : string;
  _fpp : Z;
  _template : string;
  _filename : string;
  _f_cache : gmap Z ndarray
}.

Definition __init__ (fpath template filename : string) (frame_per_point : Z) : t :=
  mk fpath frame_per_point template filename ∅.

(** The first half of [__call__]: the SPE file of the point, opened now
    and remembered in [_f_cache] unless it already is there, and the
    array that [getData()] reads from it. *)
Definition open_point (F : Files) (self : t) (point_number : Z) : Result (ndarray * t) :=
  match _f_cache self !! point_number with
  | Some spe => Ok (spe, self)
  | None =>
      let fname := percent F (_template self)
                     [VStr (_path self); VStr (_filename self); VInt point_number] in
      match PrincetonSPEFile F fname with
      | Ok spe_obj =>
          Ok (spe_obj, mk (_path self) (_fpp self) (_template self) (_filename self)
                          (<[point_number := spe_obj]> (_f_cache self)))
      | Raise e => Raise e
      end
  end.

Definition __call__ (F : Files) (self : t) (point_number : Z) : Result ndarray * t :=
  match open_point F self point_number with
  | Raise e => (Raise e, self)
  | Ok (data, self) =>
      match shape data with
      | [] => (Raise IndexError, self)
      | n :: _ =>
          if decide (Z.of_nat n ≠ _fpp self)
          then (Raise (IntegrityError (expected_found (_fpp self) (Z.of_nat n))), self)
          else (Ok (squeeze data), self)
      end
  end.
End AreaDetectorSPEHandler.

Module AreaDetectorTiffHandler.
Record t := mk {
  _path : string;
  _fpp : Z;
  _template : string;
  _filename : string;
  _image_sequence : list ndarray
}.

Definition __init__ (F : Files) (fpath template filename : string)
    (frame_per_point : Z) : Result t :=
  let template := replace F template "_%6.6d" "*" in
  let fname := percent F template [VStr fpath; VStr filename] in
  match ImageSequence F fname with
  | Ok seq => Ok (mk fpath frame_per_point template fname seq)
  | Raise e => Raise e
  end.

Definition with_sequence (seq : list ndarray) (self : t) : t :=
  mk (_path self) (_fpp self) (_template self) (_filename self) seq.

(** The first [if] of [__call__]: the list of files is read again when
    the point reaches past the end of the sequence at hand. *)
Definition refresh (F : Files) (self : t) (point_number : Z) : Result t :=
  let stop := (point_number + 1) * _fpp self in
  if bool_decide (stop > Z.of_nat (length (_image_sequence self)))
  then match ImageSequence F (_filename self) with
       | Ok seq => Ok (with_sequence seq self)
       | Raise e => Raise e
       end
  else Ok self.

Definition __call__ (F : Files) (self : t) (point_number : Z) : Result ndarray * t :=
  let start := point_number * _fpp self in
  let stop := (point_number + 1) * _fpp self in
  match refresh F self point_number with
  | Raise e => (Raise e, self)
  | Ok self =>
      let len := Z.of_nat (length (_image_sequence self)) in
      if bool_decide (stop > len)
      then (Raise (IntegrityError (seeking_frame stop len)), self)
      else (Ok (squeeze (asarray (py_slice (_image_sequence self) start stop))), self)
  end.
End AreaDetectorTiffHandler.

(** [needle in haystack] on strings. *)
Fixpoint occurs (needle haystack : string) : bool :=
  String.prefix needle haystack ||
  match haystack with
  | EmptyString => false
  | String _ rest => occurs needle rest
  end.

(** What the MAPS handlers get from [h5py]: [h5_File name] is
    [h5py.File(name, mode='r')], an open file, given by its datasets;
    [h5_read d ix] is [d[...]] with one entry of [ix] per axis, an index
    or [None] for [:]. *)
Record H5 := mkH5 {
  h5_File : string → Result (gmap string ndarray);
  h5_read : ndarray → list (option Z) → Result ndarray
}.

Module _HdfMapsHandlerBase.
Record t := mk {
  _filename : string;
  _dset_path : string;
  _file : option (gmap string ndarray);
  _dset : option ndarray
}.

(** [_HdfMapsHandlerBase.open].  The file is stored before the dataset
    is looked up, so a [KeyError] of the lookup leaves the handler with
    the file and without the dataset. *)
Definition open (H : H5) (self : t) : Result unit * t :=
  match _file self with
  | Some _ => (Ok (), self)
  | None =>
      match h5_File H (_filename self) with
      | Raise e => (Raise e, self)
      | Ok f =>
          let self := mk (_filename self) (_dset_path self) (Some f) (_dset self) in
          match f !! ("MAPS/" +:+ _dset_path self) with
          | None => (Raise KeyError, self)
          | Some d => (Ok (), mk (_filename self) (_dset_path self) (_file self) (Some d))
          end
      end
  end.

Definition __init__ (H : H5) (filename dset_path : string) : Result t :=
  match open H (mk filename dset_path None None) with
  | (Ok _, self) => Ok self
  | (Raise e, _) => Raise e
  end.

(** [_HDF5HandlerBase.close].  On a handler that is not open
    [self._file.close()] raises [AttributeError]: that is the [None]
    here. *)
Definition close (self : t) : option t :=
  match _file self with
  | Some _ => Some (mk (_filename self) (_dset_path self) None (_dset self))
  | None => None
  end.

(** [_HdfMapsHandlerBase.__call__] *)
Definition __call__ (self : t) : Result unit :=
  match _file self with
  | Some _ => Ok ()
  | None => Raise (RuntimeError "File is not open")
  end.

(** [HDFMapsSpectrumHandler.__call__]: [self._dset[:, x, y]] *)
Definition spectrum (H : H5) (self : t) (x y : Z) : Result ndarray :=
  match __call__ self with
  | Raise e => Raise e
  | Ok _ =>
      match _dset self with
      | None => Raise TypeError
      | Some d => h5_read H d [None; Some x; Some y]
      end
  end.

(** [HDFMapsEnergyHandler.__call__]: [self._dset[e_index, :, :]] *)
Definition energy (H : H5) (self : t) (e_index : Z) : Result ndarray :=
  match __call__ self with
  | Raise e => Raise e
  | Ok _ =>
      match _dset self with
      | None => Raise TypeError
      | Some d => h5_read H d [Some e_index; None; None]
      end
  end.
End _HdfMapsHandlerBase.

End handlers.

(** ** Concrete stores

    Two of the classes of [handlers.py] as they sit in memory, and the
    stores used by the examples below. *)

Definition NpyHandler : ctor := 1%nat.
Definition NpyFrameWise : ctor := 2%nat.

Definition Γ0 : Env :=
  mkEnv (λ c, match c with
              | 1%nat => "NpyHandler"
              | 2%nat => "NpyFrameWise"
              | _ => "object"
              end)
        (λ _ _ _, Ok ())
        (λ _ _ _ _, Ok (mk_ndarray [3%nat] [1; 2; 3]))
        (λ _, None).

(** A store built with [{'npy': NpyHandler}] as its registry. *)
Definition store0 : fs.FileStoreRO := fs.__init__ (Some {[ "npy" := NpyHandler ]}).

(** ... in which a resource of spec ['npy'] was inserted and its handler
    retrieved once, so that the handler cache holds the instance under
    [('0', 'NpyHandler')]. *)
Definition store1 : fs.FileStoreRO :=
  (fs.get_spec_handler Γ0 0%nat (fs.insert_resource Γ0 "npy" "/data/a.npy" ∅ store0).2).2.

(** [store1] as the body of [with fs.handler_context({}):] finds it. *)
Definition store1_in_overlay : fs.FileStoreRO :=
  fs.at_yield (fs.next_loc store1) (fs.alloc_dict ∅ store1).

(** [store1] as the body of
    [with fs.handler_context({'npy': NpyFrameWise}):] finds it. *)
Definition store1_shadowed : fs.FileStoreRO :=
  fs.at_yield (fs.next_loc store1) (fs.alloc_dict {[ "npy" := NpyFrameWise ]} store1).

(** The module-level registry of [retrieve.py] with one handler. *)
Definition registry0 : retrieve.HandlerRegistry := {[ "npy" := NpyHandler ]}.

(** The resource document of [store1]. *)
Definition resource0 : Resource := mkResource 0%nat "npy" "/data/a.npy" ∅.

(** [n] puts of distinct keys into the handler cache and into the
    resource cache. *)
Definition handler_puts (n : nat) : list (string * string * Instance) :=
  (λ i, ((str_oid i, "NpyHandler"), mkInstance i NpyHandler "/data/a.npy" ∅)) <$> seq 0 n.

Definition resource_puts (n : nat) : list (ObjectId * option Resource) :=
  (λ i, (i, Some (mkResource i "npy" "/data/a.npy" ∅))) <$> seq 0 n.

(** A directory with two TIFF frames, and a handler over it that was
    built for three frames per point. *)
Definition frame0 : ndarray := mk_ndarray [2%nat; 2%nat] [0; 0; 0; 0].

Definition files0 : handlers.Files :=
  handlers.mkFiles (λ fmt _, fmt) (λ s _ _, s)
                   (λ _, Ok (mk_ndarray [2%nat; 2%nat; 2%nat] [0; 0; 0; 0; 0; 0; 0; 0]))
                   (λ _, Ok [frame0; frame0]).

Definition tiff0 : handlers.AreaDetectorTiffHandler.t :=
  handlers.AreaDetectorTiffHandler.mk "/data" 3 "%s%s*.tiff" "/data/img*.tiff" [frame0; frame0].

(** An SPE handler built for three frames per point, over files that
    hold two frames. *)
Definition spe0 : handlers.AreaDetectorSPEHandler.t :=
  handlers.AreaDetectorSPEHandler.__init__ "/data" "%s%s_%d.spe" "img" 3.

(** The module of [retrieve.py] with an empty registry, and a body that
    raises at once. *)
Definition module0 : retrieve.state := retrieve.mkState ∅ 0%nat.

Definition raising_body (w : retrieve.state) : Result unit * retrieve.state :=
  (Raise (UserError 0), w).

(** [store0] after [insert_resource('npy', '/data/a.npy', {})] and
    [insert_datum(resource, 'd1', None)]. *)
Definition store0_resource : fs.FileStoreRO :=
  (fs.insert_resource Γ0 "npy" "/data/a.npy" ∅ store0).2.

Definition datum1 : Datum := mkDatum "d1" 0%nat ∅.

Definition store0_datum : fs.FileStoreRO :=
  (fs.insert_datum Γ0 (inl resource0) "d1" None store0_resource).2.

(** A store in which a dict [{'npy': NpyFrameWise}] has been made, to be
    handed to [handler_context]. *)
Definition store0_with_dict : fs.FileStoreRO :=
  fs.alloc_dict {[ "npy" := NpyFrameWise ]} store0.

(** Client code that works on the registry only. *)
Definition registry_code : fs.stmt :=
  fs.With {[ "npy" := NpyFrameWise ]}
    (fs.Seq (fs.RegisterHandler "spe" NpyHandler false)
       (fs.Seq (fs.GetSpecHandler 0%nat) (fs.RaiseStmt (UserError 0)))).

(** The module of [retrieve.py] with ['npy'] registered, an overlay
    that shadows it and adds ['spe'], and a body that registers a third
    key and returns. *)
Definition module1 : retrieve.state := retrieve.mkState registry0 0%nat.

Definition overlay1 : list (string * ctor) :=
  [("npy", NpyFrameWise); ("spe", NpyHandler)].

Definition returning_body (w : retrieve.state) : Result unit * retrieve.state :=
  retrieve.register_handler' "tiff" NpyHandler false w.

(** A TIFF handler over two frames, one frame per point. *)
Definition tiff1 : handlers.AreaDetectorTiffHandler.t :=
  handlers.AreaDetectorTiffHandler.mk "/data" 1 "%s%s*.tiff" "/data/img*.tiff" [frame0; frame0].

(** An HDF5 file with one MAPS dataset, and one without. *)
Definition h5_0 : handlers.H5 :=
  handlers.mkH5
    (λ name, if decide (name = "/data/maps.h5")
             then Ok {[ "MAPS/XRF_roi" := mk_ndarray [1%nat; 1%nat; 1%nat] [7] ]}
             else if decide (name = "/data/empty.h5") then Ok ∅ else Raise IOError)
    (λ d _, Ok d).

Definition maps0 : handlers._HdfMapsHandlerBase.t :=
  handlers._HdfMapsHandlerBase.mk "/data/maps.h5" "XRF_roi"
    (Some {[ "MAPS/XRF_roi" := mk_ndarray [1%nat; 1%nat; 1%nat] [7] ]})
    (Some (mk_ndarray [1%nat; 1%nat; 1%nat] [7])).

Definition maps_closed : handlers._HdfMapsHandlerBase.t :=
  handlers._HdfMapsHandlerBase.mk "/data/empty.h5" "XRF_roi" None None.

(** The classes in memory after the module of [NpyHandler] was loaded a
    second time: class 3 is the new class object, with the old name. *)
Definition NpyHandler' : ctor := 3%nat.

Definition Γ1 : Env :=
  mkEnv (λ c, match c with
              | 1%nat | 3%nat => "NpyHandler"
              | 2%nat => "NpyFrameWise"
              | _ => "object"
              end)
        (λ _ _ _, Ok ())
        (λ _ _ _ _, Ok (mk_ndarray [3%nat] [1; 2; 3]))
        (λ _, None).

(** [store1] as the body of [with fs.handler_context({'npy': NpyHandler'}):]
    finds it. *)
Definition store1_reloaded : fs.FileStoreRO :=
  fs.at_yield (fs.next_loc store1) (fs.alloc_dict {[ "npy" := NpyHandler' ]} store1).

(** [store0_datum] after [get_datum('d1')], which left the datum, the
    resource and the instance of [NpyHandler] in the caches, and that
    store as the body of [with fs.handler_context({}):] finds it. *)
Definition store0_retrieved : fs.FileStoreRO := (fs.get_datum Γ0 "d1" store0_datum).2.

Definition store0_retrieved_in_overlay : fs.FileStoreRO :=
  fs.at_yield (fs.next_loc store0_retrieved) (fs.alloc_dict ∅ store0_retrieved).

(** Two classes named [NpyHandler] that read the same file differently:
    the instances of class 3 return the array that was saved, the
    instances of class 1 return its elements in the opposite order. *)
Definition Γ2 : Env :=
  mkEnv (λ c, match c with
              | 1%nat | 3%nat => "NpyHandler"
              | 2%nat => "NpyFrameWise"
              | _ => "object"
              end)
        (λ _ _ _, Ok ())
        (λ c _ _ _, match c with
                    | 3%nat => Ok (mk_ndarray [3%nat] [1; 2; 3])
                    | _ => Ok (mk_ndarray [3%nat] [3; 2; 1])
                    end)
        (λ _, None).

(** With these classes: the resource and the datum inserted into
    [store0], the datum retrieved once, and then the store as the body
    of [with fs.handler_context({'npy': NpyHandler'}):] finds it. *)
Definition store2_datum : fs.FileStoreRO :=
  (fs.insert_datum Γ2 (inl resource0) "d1" None
     (fs.insert_resource Γ2 "npy" "/data/a.npy" ∅ store0).2).2.

Definition store2_reloaded : fs.FileStoreRO :=
  fs.at_yield (fs.next_loc (fs.get_datum Γ2 "d1" store2_datum).2)
              (fs.alloc_dict {[ "npy" := NpyHandler' ]}
                 (fs.get_datum Γ2 "d1" store2_datum).2).

(** A class whose instances return what the file of their path holds:
    [1, 2, 3] for [/data/a.npy] and [4, 5, 6] for any other file. *)
Definition Γ3 : Env :=
  mkEnv (λ c, match c with
              | 1%nat => "NpyHandler"
              | 2%nat => "NpyFrameWise"
              | _ => "object"
              end)
        (λ _ _ _, Ok ())
        (λ _ rp _ _, if decide (rp = "/data/a.npy")
                     then Ok (mk_ndarray [3%nat] [1; 2; 3])
                     else Ok (mk_ndarray [3%nat] [4; 5; 6]))
        (λ _, None).

(** [store0] after two resources, for [/data/a.npy] and [/data/b.npy],
    and a datum of each were inserted. *)
Definition store3 : fs.FileStoreRO :=
  (fs.exec Γ3
     (fs.Seq (fs.InsertResource "npy" "/data/a.npy" ∅)
        (fs.Seq (fs.InsertResource "npy" "/data/b.npy" ∅)
           (fs.Seq (fs.InsertDatum (inr 0%nat) "d1" None)
                   (fs.InsertDatum (inr 1%nat) "d2" None))))
     store0).2.

(** * Facts about the LRU cache *)

Section LRU_facts.
Context {K V : Type} `{EqDecision K}.
Implicit Types (k : K) (v : V) (l : list (K * V)) (c : LRU K V).

Lemma assoc_None k l : assoc k l = None ↔ k ∉ l.*1.
Proof.
  induction l as [|[k' v] l IH]; simpl.
  - split; [intros _; apply not_elem_of_nil | done].
  - destruct (decide (k' = k)) as [->|Hne].
    + split; [done | intros H; exfalso; apply H; left].
    + rewrite IH, not_elem_of_cons. simpl. split; [by intros ?; split; [congruence|] | by intros [_ ?]].
Qed.

Lemma assoc_Some_elem k v l : assoc k l = Some v → (k, v) ∈ l.
Proof.
  induction l as [|[k' v'] l IH]; simpl; [done|].
  destruct (decide (k' = k)) as [->|Hne].
  - intros [= ->]. left.
  - intros H. right. auto.
Qed.

Lemma assoc_without_ne k k' l : k ≠ k' → assoc k' (without k l) = assoc k' l.
Proof.
  intros Hne. unfold without.
  induction l as [|[k0 v0] l IH]; [done|].
  rewrite filter_cons. simpl.
  destruct (decide (k0 ≠ k)) as [Hk|Hk]; simpl.
  - destruct (decide (k0 = k')); [done | apply IH].
  - apply dec_stable in Hk. subst k0.
    destruct (decide (k = k')); [done | apply IH].
Qed.

Lemma assoc_without_eq k l : assoc k (without k l) = None.
Proof.
  apply assoc_None. unfold without. intros Hin.
  apply list_elem_of_fmap in Hin as ([k0 v0] & -> & Hin).
  apply list_elem_of_filter in Hin as [Hne _]. by apply Hne.
Qed.

Lemma without_length k l : (length (without k l) ≤ length l)%nat.
Proof. apply length_filter. Qed.

Lemma without_notin k l : k ∉ l.*1 → without k l = l.
Proof.
  unfold without. induction l as [|[k0 v0] l IH]; [done|].
  rewrite fmap_cons, not_elem_of_cons. intros [Hne Hnin].
  rewrite filter_cons. simpl.
  destruct (decide (k0 ≠ k)) as [?|Hn]; [by rewrite IH|].
  exfalso. apply Hn. simpl in Hne. congruence.
Qed.

Lemma without_length_in k l :
  k ∈ l.*1 → (S (length (without k l)) ≤ length l)%nat.
Proof.
  unfold without. induction l as [|[k0 v0] l IH].
  - intros H. by apply elem_of_nil in H.
  - rewrite fmap_cons, filter_cons. simpl.
    destruct (decide (k0 ≠ k)) as [Hne|Heq]; simpl.
    + intros Hin. apply elem_of_cons in Hin as [Heq|Hin]; [simpl in Heq; congruence|].
      specialize (IH Hin). lia.
    + intros _. pose proof (length_filter (λ kv : K * V, kv.1 ≠ k) l). lia.
Qed.

Lemma without_keys_NoDup k l : NoDup l.*1 → NoDup (without k l).*1.
Proof.
  unfold without. induction l as [|[k0 v0] l IH]; [done|].
  rewrite fmap_cons, NoDup_cons. intros [Hnin Hnd].
  rewrite filter_cons. simpl.
  destruct (decide (k0 ≠ k)); [|by apply IH].
  rewrite fmap_cons, NoDup_cons. split; [|by apply IH].
  intros Hin. apply Hnin.
  apply list_elem_of_fmap in Hin as ([k1 v1] & -> & Hin).
  apply list_elem_of_filter in Hin as [_ Hin].
  apply list_elem_of_fmap. by exists (k1, v1).
Qed.

Lemma without_keys_notin k l : k ∉ (without k l).*1.
Proof. apply assoc_None, assoc_without_eq. Qed.

Lemma removelast_sublist {A} (l : list A) : removelast l `sublist_of` l.
Proof. rewrite removelast_firstn_len. apply sublist_take. Qed.

Lemma removelast_keys_NoDup (l : list (K * V)) :
  NoDup l.*1 → NoDup (removelast l).*1.
Proof.
  intros Hnd. eapply sublist_NoDup; [exact Hnd|].
  apply fmap_sublist, removelast_sublist.
Qed.

Lemma removelast_length {A} (l : list A) :
  length (removelast l) = Nat.pred (length l).
Proof.
  rewrite removelast_firstn_len, length_take. lia.
Qed.

(** Every operation keeps the invariant. *)
Lemma lru_setitem_wf k v c : 0 < max_size c → lru_wf c → lru_wf (lru_setitem k v c).
Proof.
  intros Hpos [Hnd Hlen]. unfold lru_setitem, lru_wf, lru_keys in *.
  destruct (assoc k (items c)) as [v0|] eqn:Ha; simpl.
  - split.
    + apply NoDup_cons. split; [apply without_keys_notin | by apply without_keys_NoDup].
    + apply assoc_Some_elem in Ha.
      assert (k ∈ (items c).*1) as Hin
        by (apply list_elem_of_fmap; by exists (k, v0)).
      apply without_length_in in Hin. lia.
  - apply assoc_None in Ha. case_bool_decide as Hlt; simpl.
    + split; [by apply NoDup_cons | lia].
    + split.
      * apply NoDup_cons. split; [|by apply removelast_keys_NoDup].
        intros Hin. apply Ha. eapply elem_of_sublist; [exact Hin|].
        apply fmap_sublist, removelast_sublist.
      * rewrite removelast_length. lia.
Qed.

Lemma lru_setitem_max k v c : max_size (lru_setitem k v c) = max_size c.
Proof.
  unfold lru_setitem. destruct (assoc k (items c)); [done|].
  by case_bool_decide.
Qed.

Lemma lru_getitem_wf k v c c' :
  lru_getitem k c = Some (v, c') → lru_wf c → lru_wf c' ∧ max_size c' = max_size c.
Proof.
  unfold lru_getitem, lru_wf, lru_keys.
  destruct (assoc k (items c)) as [v0|] eqn:Ha; [|done].
  intros [= <- <-] [Hnd Hlen]. simpl. split; [|done]. split.
  - apply NoDup_cons. split; [apply without_keys_notin | by apply without_keys_NoDup].
  - apply assoc_Some_elem in Ha.
    assert (k ∈ (items c).*1) as Hin
      by (apply list_elem_of_fmap; by exists (k, v0)).
    apply without_length_in in Hin. lia.
Qed.

Lemma lru_delitem_wf k c : lru_wf c → lru_wf (lru_delitem k c).
Proof.
  intros [Hnd Hlen]. unfold lru_delitem, lru_wf, lru_keys. simpl. split.
  - by apply without_keys_NoDup.
  - pose proof (without_length k (items c)). lia.
Qed.

Lemma lru_puts_max ps c : max_size (lru_puts ps c) = max_size c.
Proof.
  revert c. induction ps as [|[k v] ps IH]; intros c; [done|].
  unfold lru_puts in *. simpl. by rewrite IH, lru_setitem_max.
Qed.

Lemma lru_puts_wf ps c : 0 < max_size c → lru_wf c → lru_wf (lru_puts ps c).
Proof.
  revert c. induction ps as [|[k v] ps IH]; intros c Hpos Hwf; [done|].
  unfold lru_puts in *. simpl. apply IH.
  - by rewrite lru_setitem_max.
  - by apply lru_setitem_wf.
Qed.

(** What a put does to the other keys: below capacity, or when the key
    is already there, nothing is lost; at capacity a new key costs
    exactly the entry at the back, the least recently used one. *)
Lemma lru_setitem_lookup_same k v c : assoc k (items (lru_setitem k v c)) = Some v.
Proof.
  unfold lru_setitem. destruct (assoc k (items c)); simpl.
  - by rewrite decide_True.
  - case_bool_decide; simpl; by rewrite decide_True.
Qed.

Lemma lru_setitem_room k v c k' :
  k' ≠ k →
  is_Some (assoc k (items c)) ∨ Z.of_nat (length (items c)) < max_size c →
  assoc k' (items (lru_setitem k v c)) = assoc k' (items c).
Proof.
  intros Hne Hroom. unfold lru_setitem.
  destruct (assoc k (items c)) as [v0|] eqn:Ha; simpl.
  - rewrite decide_False by done. by apply assoc_without_ne.
  - destruct Hroom as [[? ?]|Hlt]; [done|].
    rewrite bool_decide_true by done. simpl. by rewrite decide_False.
Qed.

Lemma lru_setitem_full k v c :
  assoc k (items c) = None →
  ¬ Z.of_nat (length (items c)) < max_size c →
  items (lru_setitem k v c) = (k, v) :: removelast (items c).
Proof.
  intros Ha Hfull. unfold lru_setitem. rewrite Ha.
  by rewrite bool_decide_false.
Qed.
End LRU_facts.

Section LRU_lookup.
Context {K V : Type} `{EqDecision K}.
Implicit Types (k : K) (v : V) (l : list (K * V)) (c : LRU K V).

(** A hit returns the stored value and changes the order of the entries
    only. *)
Lemma lru_getitem_hit k v c :
  assoc k (items c) = Some v →
  lru_getitem k c = Some (v, mkLRU (max_size c) ((k, v) :: without k (items c))).
Proof. intros Ha. unfold lru_getitem. by rewrite Ha. Qed.

Lemma lru_getitem_miss k c : assoc k (items c) = None → lru_getitem k c = None.
Proof. intros Ha. unfold lru_getitem. by rewrite Ha. Qed.

Lemma lru_getitem_Some k v c c' :
  lru_getitem k c = Some (v, c') →
  assoc k (items c) = Some v ∧ ∀ k', assoc k' (items c') = assoc k' (items c).
Proof.
  unfold lru_getitem. destruct (assoc k (items c)) as [v0|] eqn:Ha; [|done].
  intros [= <- <-]. split; [done|]. intros k'. simpl.
  destruct (decide (k = k')) as [<-|Hne]; [done|]. by apply assoc_without_ne.
Qed.

Lemma lru_getitem_None k c : lru_getitem k c = None → assoc k (items c) = None.
Proof. unfold lru_getitem. by destruct (assoc k (items c)). Qed.

Lemma assoc_elem_keys k v l : (k, v) ∈ l → k ∈ l.*1.
Proof. intros Hin. apply list_elem_of_fmap. by exists (k, v). Qed.

Lemma assoc_is_Some k l : k ∈ l.*1 → is_Some (assoc k l).
Proof.
  intros Hin. destruct (assoc k l) eqn:Ha; [eauto|].
  by apply assoc_None in Ha.
Qed.
End LRU_lookup.

(** * The order of the entries is the order of their last use *)

Section LRU_recency.
Context {K V : Type} `{EqDecision K}.
Implicit Types (k : K) (v : V) (l : list (K * V)) (c : LRU K V) (o : lru_op K V).

Lemma StronglySorted_sublist {A} (R : relation A) (l1 l2 : list A) :
  l1 `sublist_of` l2 → StronglySorted R l2 → StronglySorted R l1.
Proof.
  induction 1 as [|x l1 l2 Hsub IH|x l1 l2 Hsub IH]; [done| |].
  - rewrite !StronglySorted_cons. intros [Hall Hss]. split; [|by apply IH].
    rewrite Forall_forall in Hall |- *. intros y Hy. apply Hall.
    by eapply elem_of_sublist.
  - rewrite StronglySorted_cons. intros [_ Hss]. by apply IH.
Qed.

Lemma StronglySorted_impl_in {A} (R R' : relation A) (l : list A) :
  (∀ a b, a ∈ l → b ∈ l → R a b → R' a b) →
  StronglySorted R l → StronglySorted R' l.
Proof.
  induction l as [|x l IH]; intros Himp; [constructor|].
  rewrite !StronglySorted_cons. intros [Hall Hss]. split.
  - rewrite Forall_forall in Hall |- *. intros y Hy.
    apply Himp; [left | by right | by apply Hall].
  - apply IH; [|done]. intros a b Ha Hb. apply Himp; by right.
Qed.

Lemma without_sublist k l : without k l `sublist_of` l.
Proof. apply sublist_filter. Qed.

Lemma without_elem k l kv : kv ∈ without k l → kv ∈ l ∧ kv.1 ≠ k.
Proof. unfold without. rewrite list_elem_of_filter. tauto. Qed.

Lemma assoc_NoDup_elem k v l : NoDup l.*1 → (k, v) ∈ l → assoc k l = Some v.
Proof.
  induction l as [|[k0 v0] l IH]; simpl.
  - intros _ Hin. by apply elem_of_nil in Hin.
  - rewrite NoDup_cons. intros [Hnin Hnd] Hin.
    apply elem_of_cons in Hin as [Heq|Hin].
    + injection Heq as <- <-. by rewrite decide_True.
    + destruct (decide (k0 = k)) as [->|Hne]; [|by apply IH].
      exfalso. apply Hnin. apply list_elem_of_fmap. by exists (k, v).
Qed.

Lemma lru_age_snoc k (ops : list (lru_op K V)) o :
  lru_age k (ops ++ [o]) = if uses k o then 0%nat else S (lru_age k ops).
Proof. unfold lru_age. by rewrite rev_unit. Qed.

Lemma lru_run_snoc (ops : list (lru_op K V)) o c :
  lru_run (ops ++ [o]) c = lru_apply (lru_run ops c) o.
Proof. unfold lru_run. by rewrite foldl_app. Qed.

Lemma lru_apply_max c o : max_size (lru_apply c o) = max_size c.
Proof.
  destruct o as [k|k v|k]; simpl.
  - unfold lru_getitem. by destruct (assoc k (items c)).
  - apply lru_setitem_max.
  - done.
Qed.

Lemma lru_apply_wf c o : 0 < max_size c → lru_wf c → lru_wf (lru_apply c o).
Proof.
  intros Hpos Hwf. destruct o as [k|k v|k]; simpl.
  - destruct (lru_getitem k c) as [[v c']|] eqn:Hg; [|done].
    by apply (lru_getitem_wf _ _ _ _ Hg).
  - by apply lru_setitem_wf.
  - by apply lru_delitem_wf.
Qed.

Lemma lru_run_max (ops : list (lru_op K V)) c : max_size (lru_run ops c) = max_size c.
Proof.
  induction ops as [|o ops IH] using rev_ind; [done|].
  by rewrite lru_run_snoc, lru_apply_max.
Qed.

Lemma lru_run_wf (ops : list (lru_op K V)) c :
  0 < max_size c → lru_wf c → lru_wf (lru_run ops c).
Proof.
  intros Hpos Hwf. induction ops as [|o ops IH] using rev_ind; [done|].
  rewrite lru_run_snoc. apply lru_apply_wf; [by rewrite lru_run_max | done].
Qed.

(** After an operation, the keys it did not use have aged by one step
    and keep their order; the key it used, if any, is the youngest. *)
Lemma recency_aged (ops : list (lru_op K V)) o (ks ks' : list K) :
  ks' `sublist_of` ks →
  (∀ b, b ∈ ks' → uses b o = false) →
  StronglySorted (λ a b, (lru_age a ops < lru_age b ops)%nat) ks →
  StronglySorted (λ a b, (lru_age a (ops ++ [o]) < lru_age b (ops ++ [o]))%nat) ks'.
Proof.
  intros Hsub Hun Hss.
  apply (StronglySorted_impl_in (λ a b, (lru_age a ops < lru_age b ops)%nat)).
  - intros a b Ha Hb Hlt. rewrite !lru_age_snoc, !Hun by done. lia.
  - by eapply StronglySorted_sublist.
Qed.

Lemma recency_used (ops : list (lru_op K V)) o k (ks ks' : list K) :
  uses k o = true →
  ks' `sublist_of` ks →
  (∀ b, b ∈ ks' → uses b o = false) →
  StronglySorted (λ a b, (lru_age a ops < lru_age b ops)%nat) ks →
  StronglySorted (λ a b, (lru_age a (ops ++ [o]) < lru_age b (ops ++ [o]))%nat) (k :: ks').
Proof.
  intros Hk Hsub Hun Hss. apply StronglySorted_cons. split.
  - apply Forall_forall. intros b Hb. rewrite !lru_age_snoc, Hk, Hun by done. lia.
  - by eapply recency_aged.
Qed.

Lemma uses_other k o b :
  (match o with LGet k' | LPut k' _ | LDel k' => k' = k end) → b ≠ k → uses b o = false.
Proof.
  intros Ho Hne. destruct o as [k'|k' v|k']; simpl; [| |done];
    subst k'; by apply bool_decide_eq_false.
Qed.

(** In a cache that started empty, the entries are in the order of
    their last use, the latest first. *)
Lemma lru_run_recency (ops : list (lru_op K V)) mx :
  StronglySorted (λ a b, (lru_age a ops < lru_age b ops)%nat)
                 (lru_keys (lru_run ops (mkLRU mx []))).
Proof.
  induction ops as [|o ops IH] using rev_ind; [constructor|].
  rewrite lru_run_snoc. set (c := lru_run ops (mkLRU mx [])) in *.
  assert (∀ k, (without k (items c)).*1 `sublist_of` lru_keys c) as Hwsub
    by (intros k; apply fmap_sublist, without_sublist).
  assert (∀ k b, b ∈ (without k (items c)).*1 → b ≠ k) as Hwne.
  { intros k b Hb ->. by apply (without_keys_notin k (items c)). }
  destruct o as [k|k v|k]; simpl.
  - unfold lru_getitem. destruct (assoc k (items c)) as [v|] eqn:Ha; unfold lru_keys; simpl.
    + apply (recency_used _ _ _ (lru_keys c)); [by apply bool_decide_eq_true | done | | done].
      intros b Hb. apply (uses_other k); [done | by eapply Hwne].
    + apply (recency_aged _ _ (lru_keys c)); [done | | done].
      intros b Hb. apply (uses_other k); [done|]. intros ->.
      by apply assoc_None in Ha.
  - unfold lru_setitem. destruct (assoc k (items c)) as [v0|] eqn:Ha.
    + unfold lru_keys. simpl.
      apply (recency_used _ _ _ (lru_keys c)); [by apply bool_decide_eq_true | done | | done].
      intros b Hb. apply (uses_other k); [done | by eapply Hwne].
    + apply assoc_None in Ha. case_bool_decide; unfold lru_keys; simpl.
      * apply (recency_used _ _ _ (lru_keys c)); [by apply bool_decide_eq_true | done | | done].
        intros b Hb. apply (uses_other k); [done|]. by intros ->.
      * apply (recency_used _ _ _ (lru_keys c)); [by apply bool_decide_eq_true | | | done].
        -- apply fmap_sublist, removelast_sublist.
        -- intros b Hb. apply (uses_other k); [done|]. intros ->. apply Ha.
           eapply elem_of_sublist; [exact Hb|]. apply fmap_sublist, removelast_sublist.
  - unfold lru_keys. simpl. apply (recency_aged _ _ (lru_keys c)); [done | | done].
    intros b Hb. done.
Qed.

Lemma removelast_last {A} (l : list A) x : last l = Some x → l = removelast l ++ [x].
Proof.
  intros Hl. destruct (last_Some l x) as [[l' ->] _]; [done|].
  by rewrite removelast_last.
Qed.

(** A put of a new key into a full cache evicts the entry that was used
    least recently, and no other. *)
Lemma lru_run_evicts_oldest mx :
  0 < mx → evicts_least_recently_used (mkLRU (K:=K) (V:=V) mx []).
Proof.
  intros Hpos ops k v c Ha Hfull.
  assert (lru_wf c) as [Hnd Hlen].
  { apply lru_run_wf; [done|]. split; [constructor | simpl; lia]. }
  assert (max_size c = mx) as Hmx by apply lru_run_max.
  destruct (last (items c)) as [old|] eqn:Hlast.
  2:{ apply last_None in Hlast. rewrite Hlast in Hfull. simpl in Hfull. lia. }
  exists old. split; [done|].
  pose proof (removelast_last _ _ Hlast) as Hsplit.
  rewrite (lru_setitem_full _ _ _ Ha Hfull).
  unfold lru_keys in Hnd. rewrite Hsplit, fmap_app in Hnd.
  apply NoDup_app in Hnd as (Hnd1 & Hdis & _).
  assert (old.1 ≠ k) as Hok.
  { intros <-. apply assoc_None in Ha. apply Ha. rewrite Hsplit, fmap_app.
    apply elem_of_app. right. simpl. left. }
  split.
  - simpl. rewrite decide_False by done. apply assoc_None.
    intros Hin. by apply (Hdis _ Hin); simpl; left.
  - intros kv Hkv Hne. rewrite Hsplit in Hkv.
    apply elem_of_app in Hkv as [Hkv|Hkv].
    2:{ apply list_elem_of_singleton in Hkv. done. }
    split.
    + pose proof (lru_run_recency ops mx) as Hss. fold c in Hss.
      unfold lru_keys in Hss. rewrite Hsplit, fmap_app in Hss.
      eapply (StronglySorted_app_1_elem_of _ _ _ _ _ Hss).
      * apply list_elem_of_fmap. by exists kv.
      * simpl. left.
    + simpl. destruct kv as [k1 v1]. simpl.
      destruct (decide (k = k1)) as [->|Hk1].
      * exfalso. apply assoc_None in Ha. apply Ha. rewrite Hsplit, fmap_app.
        apply elem_of_app. left. apply list_elem_of_fmap. by exists (k1, v1).
      * by apply assoc_NoDup_elem.
Qed.

Lemma lru_run_bounded (ops : list (lru_op K V)) mx :
  0 < mx →
  lru_wf (lru_run ops (mkLRU mx [])) ∧
  Z.of_nat (length (items (lru_run ops (mkLRU mx [])))) ≤ mx.
Proof.
  intros Hpos.
  assert (lru_wf (lru_run ops (mkLRU mx []))) as Hwf.
  { apply lru_run_wf; [done|]. split; [constructor | simpl; lia]. }
  split; [done|]. destruct Hwf as [_ Hl]. by rewrite lru_run_max in Hl.
Qed.
End LRU_recency.

(** * The layered registry of [fs.py] *)

Section fs_registry_facts.
Import fs.
Context (Γ : Env).
Implicit Types (s : FileStoreRO) (m : _ChainMap) (h : DictStore) (k key : string).

Lemma set_dicts_id s : set_dicts (dicts s) s = s.
Proof. by destruct s. Qed.

Lemma dict_at_insert_eq h l d : dict_at (<[l := d]> h) l = d.
Proof. unfold dict_at. by rewrite lookup_insert_eq. Qed.

Lemma dict_at_insert_ne h l l' d : l ≠ l' → dict_at (<[l := d]> h) l' = dict_at h l'.
Proof. intros Hne. unfold dict_at. by rewrite lookup_insert_ne. Qed.

(** [k in m] holds exactly when [m[k]] does not raise. *)
Lemma contains_getitem h m k : contains h m k = is_ok (getitem h m k).
Proof.
  induction m as [d|p fb IH]; simpl.
  - by destruct (dict_at h d !! k).
  - destruct (dict_at h p !! k); [done|]. exact IH.
Qed.

(** A lookup only raises [KeyError]. *)
Lemma getitem_raise h m k e : getitem h m k = Raise e → e = KeyError.
Proof.
  induction m as [d|p fb IH]; simpl.
  - destruct (dict_at h d !! k); congruence.
  - destruct (dict_at h p !! k); [congruence | exact IH].
Qed.

Lemma getitem_primary h m k v :
  dict_at h (primary_of m) !! k = Some v → getitem h m k = Ok v.
Proof. destruct m; simpl; by intros ->. Qed.

Lemma getitem_setitem h m k v : getitem (setitem h m k v) m k = Ok v.
Proof.
  apply getitem_primary. unfold setitem.
  by rewrite dict_at_insert_eq, lookup_insert_eq.
Qed.

(** A lookup depends on the dicts of the chain only. *)
Lemma getitem_agree h h' m k :
  (∀ l, l ∈ layers m → dict_at h' l = dict_at h l) →
  getitem h' m k = getitem h m k.
Proof.
  induction m as [d|p fb IH]; simpl; intros Hag.
  - rewrite Hag; [done | apply list_elem_of_singleton; done].
  - rewrite Hag by left. rewrite IH; [done|].
    intros l Hl. apply Hag. by right.
Qed.

Lemma primary_in_layers m : primary_of m ∈ layers m.
Proof. destruct m; simpl; left. Qed.

Lemma filter_ext_in {A} (P Q : A → Prop) `{!∀ x, Decision (P x)} `{!∀ x, Decision (Q x)}
    (l : list A) :
  (∀ x, x ∈ l → (P x ↔ Q x)) → filter P l = filter Q l.
Proof.
  induction l as [|a l IH]; intros Hext; [done|].
  rewrite !filter_cons.
  assert (P a ↔ Q a) as Ha by (apply Hext; left).
  rewrite IH by (intros x Hx; apply Hext; by right).
  destruct (decide (P a)), (decide (Q a)); tauto || done.
Qed.

Lemma filter_all {A} (P : A → Prop) `{!∀ x, Decision (P x)} (l : list A) :
  (∀ x, x ∈ l → P x) → filter P l = l.
Proof.
  induction l as [|a l IH]; intros Hall; [done|].
  rewrite filter_cons, decide_True by (apply Hall; left).
  rewrite IH; [done|]. intros x Hx. apply Hall. by right.
Qed.

(** The eviction loop removes the entries whose key carries the name,
    and no other. *)
Lemma evict_name_go name (ks : list (string * string)) mx
    (l : list (string * string * Instance)) :
  foldl (λ c q, if decide (q.2 = name) then lru_delitem q c else c) (mkLRU mx l) ks
  = mkLRU mx (filter (λ kv, ¬ (kv.1.2 = name ∧ kv.1 ∈ ks)) l).
Proof.
  revert l. induction ks as [|q ks IH]; intros l; simpl.
  - f_equal. symmetry. apply filter_all. intros kv _ [_ Hin]. by apply elem_of_nil in Hin.
  - destruct (decide (q.2 = name)) as [Hk|Hk].
    + unfold lru_delitem. simpl. rewrite IH. f_equal. unfold without.
      rewrite list_filter_filter. apply list_filter_iff. intros kv.
      rewrite elem_of_cons. split.
      * intros [Hn Hne] [Hname [Heq|Hin]]; [by apply Hne | by apply Hn].
      * intros Hn. split; [intros [? ?]; apply Hn; auto | ].
        intros Heq. apply Hn. split; [by rewrite Heq | by left].
    + rewrite IH. f_equal. apply list_filter_iff. intros kv.
      rewrite elem_of_cons. split.
      * intros Hn [Hname [Heq|Hin]]; [by rewrite Heq in Hname | by apply Hn].
      * intros Hn [? ?]. apply Hn. auto.
Qed.

Lemma evict_name_items name c :
  items (evict_name name c) = filter (λ kv, kv.1.2 ≠ name) (items c).
Proof.
  unfold evict_name, lru_keys. destruct c as [mx l]. simpl.
  rewrite evict_name_go. simpl. apply filter_ext_in. intros kv Hkv. split.
  - intros Hn Hname. apply Hn. split; [done|].
    apply list_elem_of_fmap. by exists kv.
  - intros Hn [? _]. by apply Hn.
Qed.

Lemma evict_name_max name c : max_size (evict_name name c) = max_size c.
Proof.
  unfold evict_name, lru_keys. destruct c as [mx l]. simpl.
  by rewrite evict_name_go.
Qed.

Lemma evict_name_no_key name c (q : string * string) :
  q ∈ lru_keys (evict_name name c) → q.2 ≠ name.
Proof.
  unfold lru_keys. rewrite evict_name_items.
  intros ([k0 v0] & -> & Hin)%list_elem_of_fmap.
  by apply list_elem_of_filter in Hin as [Hne _].
Qed.

Lemma evict_name_keeps name c kv :
  kv ∈ items c → kv.1.2 ≠ name → kv ∈ items (evict_name name c).
Proof.
  intros Hin Hne. rewrite evict_name_items. by apply list_elem_of_filter.
Qed.
End fs_registry_facts.

(** * Registration and deregistration *)

Section registration.
Import fs.
Context (Γ : Env).
Implicit Types (s : FileStoreRO) (m : _ChainMap).

Lemma deregister_handler_unfold key s :
  deregister_handler Γ key s =
  match dict_at (dicts s) (primary_of (handler_reg s)) !! key with
  | Some h0 =>
      set_handler_cache (evict_name (cls_name Γ h0) (_handler_cache s))
        (set_dicts (<[primary_of (handler_reg s) :=
                       delete key (dict_at (dicts s) (primary_of (handler_reg s)))]>
                      (dicts s)) s)
  | None => s
  end.
Proof.
  unfold deregister_handler, pop.
  destruct (dict_at (dicts s) (primary_of (handler_reg s)) !! key); [done|].
  apply set_dicts_id.
Qed.

Lemma deregister_handler_reg key s :
  handler_reg (deregister_handler Γ key s) = handler_reg s.
Proof.
  rewrite deregister_handler_unfold.
  by destruct (dict_at (dicts s) (primary_of (handler_reg s)) !! key).
Qed.

Lemma deregister_handler_frame key s l :
  l ≠ primary_of (handler_reg s) →
  dicts (deregister_handler Γ key s) !! l = dicts s !! l.
Proof.
  intros Hne. rewrite deregister_handler_unfold.
  destruct (dict_at (dicts s) (primary_of (handler_reg s)) !! key); [|done].
  simpl. by rewrite lookup_insert_ne.
Qed.

Lemma deregister_handler_primary key s :
  dict_at (dicts (deregister_handler Γ key s)) (primary_of (handler_reg s)) !! key = None.
Proof.
  rewrite deregister_handler_unfold.
  destruct (dict_at (dicts s) (primary_of (handler_reg s)) !! key) eqn:E; [|done].
  simpl. by rewrite dict_at_insert_eq, lookup_delete_eq.
Qed.

Lemma deregister_handler_cache key s :
  _handler_cache (deregister_handler Γ key s) =
  match dict_at (dicts s) (primary_of (handler_reg s)) !! key with
  | Some h0 => evict_name (cls_name Γ h0) (_handler_cache s)
  | None => _handler_cache s
  end.
Proof.
  rewrite deregister_handler_unfold.
  by destruct (dict_at (dicts s) (primary_of (handler_reg s)) !! key).
Qed.

Lemma deregister_handler_counters key s :
  next_inst (deregister_handler Γ key s) = next_inst s ∧
  next_loc (deregister_handler Γ key s) = next_loc s ∧
  _resource_cache (deregister_handler Γ key s) = _resource_cache s ∧
  resource_col (deregister_handler Γ key s) = resource_col s.
Proof.
  rewrite deregister_handler_unfold.
  by destruct (dict_at (dicts s) (primary_of (handler_reg s)) !! key).
Qed.

(** With [overwrite=True] the guard is skipped. *)
Lemma register_handler_overwrite key H s :
  register_handler Γ key H true s =
  (Ok (), set_dicts (setitem (dicts (deregister_handler Γ key s))
                       (handler_reg (deregister_handler Γ key s)) key H)
            (deregister_handler Γ key s)).
Proof. done. Qed.

Lemma register_handler_unbound key H ov s :
  contains (dicts s) (handler_reg s) key = false →
  register_handler Γ key H ov s = register_handler Γ key H true s.
Proof. intros Hc. unfold register_handler. rewrite Hc. by destruct ov. Qed.

Lemma register_handler_bound key H h0 s :
  resolve key s = Ok h0 →
  register_handler Γ key H false s =
  if decide (h0 = H) then (Ok (), s)
  else (Raise (DuplicateHandler
          ("You are trying to register a second handler for spec " +:+ key)), s).
Proof.
  unfold resolve. intros Hres. unfold register_handler.
  rewrite contains_getitem, Hres. done.
Qed.

(** What a successful registration leaves behind, whichever way it
    went. *)
Lemma register_handler_ok key H ov s s' :
  register_handler Γ key H ov s = (Ok (), s') →
  resolve key s' = Ok H ∧ handler_reg s' = handler_reg s ∧
  ∀ l, l ≠ primary_of (handler_reg s) → dicts s' !! l = dicts s !! l.
Proof.
  unfold register_handler.
  destruct (negb ov && contains (dicts s) (handler_reg s) key) eqn:Hg.
  - destruct (getitem (dicts s) (handler_reg s) key) as [h0|e] eqn:Hres; [|done].
    destruct (decide (h0 = H)) as [->|]; [|done].
    by intros [= <-].
  - intros [= <-]. unfold resolve. simpl. split; [|split].
    + apply getitem_setitem.
    + apply deregister_handler_reg.
    + intros l Hne. unfold setitem. rewrite deregister_handler_reg.
      rewrite lookup_insert_ne by done. by apply deregister_handler_frame.
Qed.
End registration.

Section registration_claims.
Import fs.
Context (Γ : Env).
Implicit Types (s : FileStoreRO) (g : retrieve.HandlerRegistry).

Lemma retrieve_register_handler_ok key H ov g g1 :
  retrieve.register_handler key H ov g = (Ok (), g1) → g1 !! key = Some H.
Proof.
  unfold retrieve.register_handler.
  destruct (negb ov && bool_decide (is_Some (g !! key))) eqn:Hg.
  - destruct (g !! key) as [h0|] eqn:Hk; [|done].
    destruct (decide (h0 = H)) as [->|]; [|done]. by intros [= <-].
  - intros [= <-]. apply lookup_insert_eq.
Qed.

Lemma retrieve_register_handler_bound key H h0 g :
  g !! key = Some h0 →
  retrieve.register_handler key H false g =
  if decide (h0 = H) then (Ok (), g)
  else (Raise (RuntimeError
          ("You are trying to register a second handler for spec " +:+ key)), g).
Proof.
  intros Hk. unfold retrieve.register_handler. rewrite Hk. done.
Qed.

(** C6. Registering the same constructor for the same spec a second
    time does not raise and changes nothing: whenever a call
    [register(spec, H)] has returned, the same call made again returns
    and leaves the whole state as it was, in [FileStoreRO] and in
    [HandlerRegistry] alike; and the first call returns whenever the
    spec is unbound or bound to [H] itself. *)
Theorem register_same_ctor_twice (key : string) (H : ctor) :
  (∀ s s1, register_handler Γ key H false s = (Ok (), s1) →
           register_handler Γ key H false s1 = (Ok (), s1)) ∧
  (∀ g g1, retrieve.register_handler key H false g = (Ok (), g1) →
           retrieve.register_handler key H false g1 = (Ok (), g1)) ∧
  (∀ s, resolve key s = Ok H ∨ resolve key s = Raise KeyError →
        ∃ s1, register_handler Γ key H false s = (Ok (), s1)) ∧
  (∀ g, g !! key = Some H ∨ g !! key = None →
        ∃ g1, retrieve.register_handler key H false g = (Ok (), g1)).
Proof.
  repeat split.
  - intros s s1 Hfirst.
    apply register_handler_ok in Hfirst as (Hres & _ & _).
    rewrite (register_handler_bound _ _ _ H _ Hres). by rewrite decide_True.
  - intros g g1 Hfirst.
    apply retrieve_register_handler_ok in Hfirst.
    rewrite (retrieve_register_handler_bound _ _ H _ Hfirst). by rewrite decide_True.
  - intros s [Hres|Hres].
    + exists s. rewrite (register_handler_bound _ _ _ H _ Hres). by rewrite decide_True.
    + eexists. rewrite register_handler_unbound; [apply register_handler_overwrite|].
      rewrite contains_getitem. unfold resolve in Hres. by rewrite Hres.
  - intros g [Hk|Hk].
    + exists g. rewrite (retrieve_register_handler_bound _ _ H _ Hk). by rewrite decide_True.
    + eexists. unfold retrieve.register_handler. rewrite Hk. done.
Qed.

(** C3, as amended. With the spec resolving to [H1] and [H2] another
    constructor, [register(spec, H2)] without overwrite raises (a
    [DuplicateHandler] in [FileStoreRO], a [RuntimeError] in
    [HandlerRegistry]) and changes nothing. With overwrite it returns,
    the spec resolves to [H2], and only the innermost dict of the
    registry was written. The handler cache loses every entry named
    after [H1] when it is the innermost layer that binds the spec; when
    [H1] is bound in a parent layer only, it is shadowed and the cache
    is left as it was. *)
Theorem register_conflict (spec : string) (H1 H2 : ctor) s g :
  resolve spec s = Ok H1 →
  g !! spec = Some H1 →
  H2 ≠ H1 →
  (∃ msg, register_handler Γ spec H2 false s = (Raise (DuplicateHandler msg), s)) ∧
  (∃ msg, retrieve.register_handler spec H2 false g = (Raise (RuntimeError msg), g)) ∧
  retrieve.register_handler spec H2 true g = (Ok (), <[spec := H2]> g) ∧
  ∃ s', register_handler Γ spec H2 true s = (Ok (), s') ∧
        resolve spec s' = Ok H2 ∧
        handler_reg s' = handler_reg s ∧
        (∀ l, l ≠ primary_of (handler_reg s) → dicts s' !! l = dicts s !! l) ∧
        (is_Some (dict_at (dicts s) (primary_of (handler_reg s)) !! spec) →
         items (_handler_cache s') =
           filter (λ kv, kv.1.2 ≠ cls_name Γ H1) (items (_handler_cache s))) ∧
        (dict_at (dicts s) (primary_of (handler_reg s)) !! spec = None →
         _handler_cache s' = _handler_cache s).
Proof.
  intros Hres Hg Hne. split; [|split; [|split]].
  - eexists. rewrite (register_handler_bound _ _ _ _ _ Hres).
    by rewrite decide_False by congruence.
  - eexists. rewrite (retrieve_register_handler_bound _ _ _ _ Hg).
    by rewrite decide_False by congruence.
  - done.
  - eexists. split; [apply register_handler_overwrite|].
    pose proof (register_handler_ok Γ spec H2 true s _ (register_handler_overwrite Γ spec H2 s))
      as (Hr & Hreg & Hframe).
    split; [done|]. split; [done|]. split; [done|]. simpl.
    rewrite deregister_handler_cache. split.
    + intros [h0 Hp]. rewrite Hp.
      assert (h0 = H1) as ->.
      { apply getitem_primary in Hp. unfold resolve in Hres. congruence. }
      apply evict_name_items.
    + by intros ->.
Qed.

(** C10, as amended. With the spec resolving to [H], registering [H]
    again with [overwrite=True] returns and the spec still resolves to
    [H], but the call goes through deregistration: when the innermost
    layer binds the spec, every cache entry named after [H] is evicted;
    when [H] is bound in a parent layer only, the cache is left as it
    was (and the innermost layer now binds the spec as well). The call
    without overwrite returns with the whole state untouched. *)
Theorem register_same_ctor_overwrite (spec : string) (H : ctor) s :
  resolve spec s = Ok H →
  register_handler Γ spec H false s = (Ok (), s) ∧
  ∃ s', register_handler Γ spec H true s = (Ok (), s') ∧
        resolve spec s' = Ok H ∧
        dict_at (dicts s') (primary_of (handler_reg s')) !! spec = Some H ∧
        (is_Some (dict_at (dicts s) (primary_of (handler_reg s)) !! spec) →
         items (_handler_cache s') =
           filter (λ kv, kv.1.2 ≠ cls_name Γ H) (items (_handler_cache s))) ∧
        (dict_at (dicts s) (primary_of (handler_reg s)) !! spec = None →
         _handler_cache s' = _handler_cache s).
Proof.
  intros Hres. split.
  - rewrite (register_handler_bound _ _ _ _ _ Hres). by rewrite decide_True.
  - eexists. split; [apply register_handler_overwrite|].
    pose proof (register_handler_ok Γ spec H true s _ (register_handler_overwrite Γ spec H s))
      as (Hr & Hreg & Hframe).
    split; [done|]. simpl. split.
    { unfold setitem. by rewrite dict_at_insert_eq, lookup_insert_eq. }
    rewrite deregister_handler_cache. split.
    + intros [h0 Hp]. rewrite Hp.
      assert (h0 = H) as ->.
      { apply getitem_primary in Hp. unfold resolve in Hres. congruence. }
      apply evict_name_items.
    + by intros ->.
Qed.
End registration_claims.

(** * Dispatch: from a resource to its handler instance *)

Section dispatch.
Import fs.
Context (Γ : Env).
Implicit Types (s : FileStoreRO) (r : Resource).

(** Reading the resource cache touches the resource cache only. *)
Lemma resource_cache_getitem_frame rid s :
  let s1 := (resource_cache_getitem rid s).2 in
  dicts s1 = dicts s ∧ handler_reg s1 = handler_reg s ∧
  _handler_cache s1 = _handler_cache s ∧ next_inst s1 = next_inst s ∧
  next_loc s1 = next_loc s ∧ _datum_cache s1 = _datum_cache s ∧
  resource_col s1 = resource_col s ∧ datum_col s1 = datum_col s ∧
  next_oid s1 = next_oid s.
Proof.
  unfold resource_cache_getitem.
  destruct (lru_getitem rid (_resource_cache s)) as [[v c]|]; simpl; done.
Qed.

Lemma get_spec_handler_unfold rid s r s1 :
  resource_cache_getitem rid s = (Some r, s1) →
  get_spec_handler Γ rid s =
  match resolve (spec r) s with
  | Raise e => (Raise e, s1)
  | Ok handler =>
      let key := (str_oid (_id r), cls_name Γ handler) in
      match assoc key (items (_handler_cache s)) with
      | Some inst =>
          (Ok inst,
           set_handler_cache
             (mkLRU (max_size (_handler_cache s))
                    ((key, inst) :: without key (items (_handler_cache s)))) s1)
      | None =>
          match cls_init Γ handler (resource_path r) (resource_kwargs r) with
          | Raise e => (Raise e, s1)
          | Ok _ =>
              let ret := mkInstance (next_inst s) handler
                           (resource_path r) (resource_kwargs r) in
              (Ok ret,
               set_next_inst (S (next_inst s))
                 (set_handler_cache (lru_setitem key ret (_handler_cache s)) s1))
          end
      end
  end.
Proof.
  intros Hrc. unfold get_spec_handler, resolve. rewrite Hrc.
  pose proof (resource_cache_getitem_frame rid s) as Hfr.
  rewrite Hrc in Hfr. simpl in Hfr.
  destruct Hfr as (-> & -> & Hc & Hn & _).
  destruct (getitem (dicts s) (handler_reg s) (spec r)) as [handler|e]; [|done].
  rewrite Hc, Hn. unfold lru_getitem.
  destruct (assoc _ (items (_handler_cache s))); done.
Qed.

Lemma getitem_first_defining h m spec :
  getitem h m spec =
  match first_defining h (layers m) spec with Some H => Ok H | None => Raise KeyError end.
Proof.
  unfold first_defining. induction m as [d|p fb IH]; simpl.
  - by destruct (dict_at h d !! spec).
  - destruct (dict_at h p !! spec); [done | exact IH].
Qed.

Lemma first_defining_None h ls spec :
  (∀ l, l ∈ ls → dict_at h l !! spec = None) → first_defining h ls spec = None.
Proof.
  unfold first_defining. induction ls as [|l ls IH]; intros Hall; [done|].
  simpl. rewrite Hall by left. apply IH. intros l' Hl'. apply Hall. by right.
Qed.

(** The innermost dict is the head of the layers, the one a lookup
    reads first. *)
Lemma layers_primary (m : _ChainMap) : head (layers m) = Some (primary_of m).
Proof. by destruct m. Qed.

Lemma register_handler_primary key H ov s s' :
  register_handler Γ key H ov s = (Ok (), s') →
  ov = true ∨ resolve key s = Raise KeyError →
  dict_at (dicts s') (primary_of (handler_reg s)) !! key = Some H.
Proof.
  intros Hreg Hov.
  assert (negb ov && contains (dicts s) (handler_reg s) key = false) as Hg.
  { destruct Hov as [->|Hres]; [done|].
    rewrite contains_getitem. unfold resolve in Hres. rewrite Hres.
    by destruct ov. }
  unfold register_handler in Hreg. rewrite Hg in Hreg.
  injection Hreg as <-. simpl. unfold setitem.
  rewrite deregister_handler_reg.
  by rewrite dict_at_insert_eq, lookup_insert_eq.
Qed.

(** C7. [resolve(spec)] is the constructor in the first layer, from the
    innermost outwards, that defines the spec. The innermost layer, the
    one searched first, is the primary dict of the chain, and the dict
    of a temporary-handler block becomes that layer, in front of the
    layers there were. Registration and deregistration write that
    layer only and leave the chain as it is: after a registration that
    returns, the spec resolves to the registered constructor, which
    sits in the innermost layer unless the call found it bound already;
    after a deregistration the innermost layer does not define the
    spec. When no layer defines the spec, [resolve] raises [KeyError],
    and so does the retrieval of the handler for any resource of that
    spec. *)
Theorem layered_resolution (sp : string) s :
  resolve sp s =
    match first_defining (dicts s) (layers (handler_reg s)) sp with
    | Some H => Ok H
    | None => Raise KeyError
    end ∧
  head (layers (handler_reg s)) = Some (primary_of (handler_reg s)) ∧
  (∀ temp, layers (handler_reg (at_yield temp s)) = temp :: layers (handler_reg s) ∧
           primary_of (handler_reg (at_yield temp s)) = temp) ∧
  (∀ key H ov s', register_handler Γ key H ov s = (Ok (), s') →
     handler_reg s' = handler_reg s ∧
     (∀ l, l ≠ primary_of (handler_reg s) → dicts s' !! l = dicts s !! l) ∧
     (∀ l, l ∈ tail (layers (handler_reg s)) → l ≠ primary_of (handler_reg s) →
           dict_at (dicts s') l = dict_at (dicts s) l) ∧
     resolve key s' = Ok H ∧
     (ov = true ∨ resolve key s = Raise KeyError →
      dict_at (dicts s') (primary_of (handler_reg s)) !! key = Some H ∧
      first_defining (dicts s') (take 1 (layers (handler_reg s'))) key = Some H)) ∧
  (∀ key, handler_reg (deregister_handler Γ key s) = handler_reg s ∧
     (∀ l, l ≠ primary_of (handler_reg s) →
           dicts (deregister_handler Γ key s) !! l = dicts s !! l) ∧
     dict_at (dicts (deregister_handler Γ key s)) (primary_of (handler_reg s)) !! key = None ∧
     first_defining (dicts (deregister_handler Γ key s))
                    (take 1 (layers (handler_reg s))) key = None) ∧
  ((∀ l, l ∈ layers (handler_reg s) → dict_at (dicts s) l !! sp = None) →
   resolve sp s = Raise KeyError ∧
   ∀ rid r s1, resource_cache_getitem rid s = (Some r, s1) →
               spec r = sp →
               get_spec_handler Γ rid s = (Raise KeyError, s1)).
Proof.
  split; [apply getitem_first_defining|].
  split; [apply layers_primary|].
  split; [done|].
  split; [|split].
  - intros key H ov s' Hreg.
    pose proof (register_handler_ok Γ _ _ _ _ _ Hreg) as (Hres & Hhr & Hfr).
    split; [done|]. split; [done|].
    split; [intros l _ Hne; unfold dict_at; by rewrite Hfr|].
    split; [done|]. intros Hov.
    pose proof (register_handler_primary _ _ _ _ _ Hreg Hov) as Hp.
    split; [done|]. rewrite Hhr.
    destruct (handler_reg s) as [d|p fb]; unfold first_defining; simpl in *;
      by rewrite Hp.
  - intros key. split; [apply deregister_handler_reg|].
    split; [intros l Hl; by apply deregister_handler_frame|].
    pose proof (deregister_handler_primary Γ key s) as Hp.
    split; [done|].
    destruct (handler_reg s) as [d|p fb]; unfold first_defining; simpl in *;
      by rewrite Hp.
  - intros Hnone.
    assert (resolve sp s = Raise KeyError) as Hres.
    { unfold resolve. rewrite getitem_first_defining.
      by rewrite first_defining_None. }
    split; [done|]. intros rid r s1 Hrc <-.
    rewrite (get_spec_handler_unfold rid s r s1 Hrc). by rewrite Hres.
Qed.
End dispatch.

Section deregistration.
Import fs.
Context (Γ : Env).
Implicit Types (s : FileStoreRO) (r : Resource) (g : retrieve.HandlerRegistry).

Lemma dict_at_frame (h h' : DictStore) l : h' !! l = h !! l → dict_at h' l = dict_at h l.
Proof. unfold dict_at. by intros ->. Qed.

Lemma deregister_handler_absent key s :
  dict_at (dicts s) (primary_of (handler_reg s)) !! key = None →
  deregister_handler Γ key s = s.
Proof. intros Hp. rewrite deregister_handler_unfold. by rewrite Hp. Qed.

Lemma deregister_handler_twice key s :
  deregister_handler Γ key (deregister_handler Γ key s) = deregister_handler Γ key s.
Proof.
  apply deregister_handler_absent.
  rewrite deregister_handler_reg. apply deregister_handler_primary.
Qed.

Lemma evict_name_assoc name c (q : string * string) :
  q.2 = name → assoc q (items (evict_name name c)) = None.
Proof.
  intros Hq. apply assoc_None. intros Hin.
  by apply evict_name_no_key in Hin.
Qed.

(** C4, as amended. [deregister(spec)] removes the binding of the
    innermost layer and writes nothing else of the registry. Afterwards
    [resolve(spec)] is the lookup in the parent layers: it raises
    [KeyError] when no parent defines the spec, as is the case in
    [HandlerRegistry] and whenever no overlay is active. When the
    innermost layer has no binding for the spec the call changes
    nothing. When it has one, every cache entry named after the removed
    constructor is evicted and the others are kept; so once the spec is
    registered again with a constructor of that name, the retrieval for
    a resource of the spec finds no instance in the cache and builds a
    new one, whose identity no cached instance had. *)
Theorem deregister_layered (sp : string) s g :
  let s' := deregister_handler Γ sp s in
  let p := primary_of (handler_reg s) in
  handler_reg s' = handler_reg s ∧
  (∀ l, l ≠ p → dicts s' !! l = dicts s !! l) ∧
  dict_at (dicts s') p !! sp = None ∧
  (∀ p0 fb, handler_reg s = Chain p0 fb → resolve sp s' = getitem (dicts s') fb sp) ∧
  ((∀ l, l ∈ layers (handler_reg s) → l ≠ p → dict_at (dicts s) l !! sp = None) →
   resolve sp s' = Raise KeyError) ∧
  (dict_at (dicts s) p !! sp = None → s' = s) ∧
  (∀ H, dict_at (dicts s) p !! sp = Some H →
     items (_handler_cache s') =
       filter (λ kv, kv.1.2 ≠ cls_name Γ H) (items (_handler_cache s)) ∧
     ∀ H' rid r s3,
       cls_name Γ H' = cls_name Γ H →
       resource_cache_getitem rid (register_handler Γ sp H' true s').2 = (Some r, s3) →
       spec r = sp →
       cls_init Γ H' (resource_path r) (resource_kwargs r) = Ok () →
       let fresh := mkInstance (next_inst s) H' (resource_path r) (resource_kwargs r) in
       (∃ s4, get_spec_handler Γ rid (register_handler Γ sp H' true s').2 = (Ok fresh, s4) ∧
              next_inst s4 = S (next_inst s)) ∧
       ((∀ kv, kv ∈ items (_handler_cache s) → (inst_id kv.2 < next_inst s)%nat) →
        fresh ∉ (items (_handler_cache s)).*2)) ∧
  retrieve.deregister_handler sp g !! sp = None ∧
  retrieve.resolve sp (retrieve.mkState (retrieve.deregister_handler sp g) 0) = Raise KeyError ∧
  (g !! sp = None → retrieve.deregister_handler sp g = g).
Proof.
  intros s' p. subst s' p.
  split; [apply deregister_handler_reg|].
  split; [intros l Hl; by apply deregister_handler_frame|].
  split; [apply deregister_handler_primary|].
  split.
  { intros p0 fb Hreg. unfold resolve. rewrite deregister_handler_reg, Hreg. simpl.
    pose proof (deregister_handler_primary Γ sp s) as Hp. rewrite Hreg in Hp. simpl in Hp.
    by rewrite Hp. }
  split.
  { intros Hnone. unfold resolve. rewrite getitem_first_defining.
    rewrite first_defining_None; [done|].
    rewrite deregister_handler_reg. intros l Hl.
    destruct (decide (l = primary_of (handler_reg s))) as [->|Hne].
    - apply deregister_handler_primary.
    - rewrite (dict_at_frame (dicts s)); [by apply Hnone|].
      by apply deregister_handler_frame. }
  split; [apply deregister_handler_absent|].
  split.
  { intros H Hp. split.
    { rewrite deregister_handler_cache, Hp. apply evict_name_items. }
    intros H' rid r s3 Hname Hrc Hsp Hinit fresh.
    rewrite register_handler_overwrite in Hrc |- *.
    rewrite deregister_handler_twice in Hrc |- *. simpl in Hrc |- *.
    set (s1 := deregister_handler Γ sp s) in *.
    set (s2 := set_dicts _ s1) in *.
    assert (resolve sp s2 = Ok H') as Hres by apply getitem_setitem.
    assert (_handler_cache s2 = evict_name (cls_name Γ H) (_handler_cache s)) as Hc.
    { subst s2 s1. simpl. by rewrite deregister_handler_cache, Hp. }
    assert (next_inst s2 = next_inst s) as Hn.
    { subst s2 s1. simpl. apply deregister_handler_counters. }
    split.
    - pose proof (get_spec_handler_unfold Γ rid s2 r s3 Hrc) as Hu.
      rewrite Hsp, Hres in Hu. cbv zeta in Hu.
      rewrite Hc, evict_name_assoc in Hu by (simpl; congruence).
      rewrite Hinit, Hn in Hu. eexists. split; [exact Hu|done].
    - intros Hold Hin.
      apply list_elem_of_fmap in Hin as (kv & Heq & Hin).
      apply Hold in Hin. rewrite <- Heq in Hin. simpl in Hin. lia. }
  unfold retrieve.deregister_handler, retrieve.resolve. simpl.
  destruct (g !! sp) as [h0|] eqn:Hg.
  - rewrite bool_decide_true by eauto. rewrite lookup_delete_eq. done.
  - rewrite bool_decide_false by (by intros [? ?]). rewrite Hg. done.
Qed.
End deregistration.

(** * The three caches *)

Section caches.
Import fs.

(** C8, as amended. The three caches are the same bounded structure.
    The datum cache is built with a maximum of 1000000 entries; the
    resource cache and the handler cache are built without a maximum
    and get the default of the class, 128. Whatever is put into them,
    and whatever history of reads, puts and deletes they go through,
    none of the three ever holds more entries than its maximum or a key
    twice. In a cache of any key and value type, a put that finds its
    key, or finds room, loses no other entry; a put of a new key into a
    full cache drops exactly the entry at the back; a read that finds
    its key returns the value and moves the entry to the front. In each
    of the three caches the entry at the back, the one a put into the
    full cache evicts, is the one whose last read or write lies
    furthest back, and every other entry is kept. *)
Theorem caches_bounded (handler_reg : option (gmap string ctor))
    (pd : list (string * Datum))
    (pr : list (ObjectId * option Resource))
    (ph : list (string * string * Instance)) :
  let s := __init__ handler_reg in
  max_size (_datum_cache s) = 1000000 ∧
  max_size (_resource_cache s) = 128 ∧
  max_size (_handler_cache s) = 128 ∧
  lru_wf (lru_puts pd (_datum_cache s)) ∧
  lru_wf (lru_puts pr (_resource_cache s)) ∧
  lru_wf (lru_puts ph (_handler_cache s)) ∧
  Z.of_nat (length (items (lru_puts pd (_datum_cache s)))) ≤ 1000000 ∧
  Z.of_nat (length (items (lru_puts pr (_resource_cache s)))) ≤ 128 ∧
  Z.of_nat (length (items (lru_puts ph (_handler_cache s)))) ≤ 128 ∧
  (∀ ops, lru_wf (lru_run ops (_datum_cache s)) ∧
          Z.of_nat (length (items (lru_run ops (_datum_cache s)))) ≤ 1000000) ∧
  (∀ ops, lru_wf (lru_run ops (_resource_cache s)) ∧
          Z.of_nat (length (items (lru_run ops (_resource_cache s)))) ≤ 128) ∧
  (∀ ops, lru_wf (lru_run ops (_handler_cache s)) ∧
          Z.of_nat (length (items (lru_run ops (_handler_cache s)))) ≤ 128) ∧
  (∀ (K V : Type) (eq_dec : EqDecision K) (c : LRU K V) k v k',
     k' ≠ k →
     is_Some (assoc k (items c)) ∨ Z.of_nat (length (items c)) < max_size c →
     assoc k' (items (lru_setitem k v c)) = assoc k' (items c)) ∧
  (∀ (K V : Type) (eq_dec : EqDecision K) (c : LRU K V) k v,
     assoc k (items c) = None →
     ¬ Z.of_nat (length (items c)) < max_size c →
     items (lru_setitem k v c) = (k, v) :: removelast (items c)) ∧
  (∀ (K V : Type) (eq_dec : EqDecision K) (c : LRU K V) k v,
     assoc k (items c) = Some v →
     lru_getitem k c = Some (v, mkLRU (max_size c) ((k, v) :: without k (items c)))) ∧
  evicts_least_recently_used (_datum_cache s) ∧
  evicts_least_recently_used (_resource_cache s) ∧
  evicts_least_recently_used (_handler_cache s).
Proof.
  intros s.
  assert (∀ K V `{EqDecision K} (ps : list (K * V)) mx, 0 < mx →
            lru_wf (lru_puts ps (mkLRU mx []))) as Hwf.
  { intros K V ? ps mx Hpos. apply lru_puts_wf; [done|].
    split; [constructor | simpl; lia]. }
  assert (∀ K V `{EqDecision K} (ps : list (K * V)) mx, 0 < mx →
            Z.of_nat (length (items (lru_puts ps (mkLRU mx [])))) ≤ mx) as Hlen.
  { intros K V ? ps mx Hpos. destruct (Hwf K V _ ps mx Hpos) as [_ Hl].
    by rewrite lru_puts_max in Hl. }
  split; [done|]. split; [done|]. split; [done|].
  split; [by apply Hwf|]. split; [by apply Hwf|]. split; [by apply Hwf|].
  split; [by apply Hlen|]. split; [by apply Hlen|]. split; [by apply Hlen|].
  split; [intros ops; by apply lru_run_bounded|].
  split; [intros ops; by apply lru_run_bounded|].
  split; [intros ops; by apply lru_run_bounded|].
  split; [intros K V ? c k v k' Hne Hroom; by apply lru_setitem_room|].
  split; [intros K V ? c k v Ha Hfull; by apply lru_setitem_full|].
  split; [intros K V ? c k v Ha; by apply lru_getitem_hit|].
  split; [by apply lru_run_evicts_oldest|].
  split; by apply lru_run_evicts_oldest.
Qed.

(** A read counts as a use: in a cache of two entries, reading the
    older one before a third key is put makes the put evict the other
    one. *)
Example read_protects_from_eviction :
  let c := lru_run [LPut "a" 1; LPut "b" 2] (mkLRU 2 []) in
  lru_keys (lru_run [LPut "c" 3] c) = ["c"; "b"] ∧
  lru_keys (lru_run [LGet "a"; LPut "c" 3] c) = ["c"; "a"].
Proof. split; vm_compute; reflexivity. Qed.

(** C8 as stated fails for the two caches built by [LRU()]: the 129th
    put of a new key evicts the oldest entry, of the handler cache and
    of the resource cache alike. *)
Lemma default_caches_evict_at_capacity :
  let s := __init__ None in
  lru_contains ("0", "NpyHandler") (lru_puts (handler_puts 128) (_handler_cache s)) = true ∧
  lru_contains ("0", "NpyHandler") (lru_puts (handler_puts 129) (_handler_cache s)) = false ∧
  lru_contains 0%nat (lru_puts (resource_puts 128) (_resource_cache s)) = true ∧
  lru_contains 0%nat (lru_puts (resource_puts 129) (_resource_cache s)) = false.
Proof. repeat split; vm_compute; reflexivity. Qed.
End caches.

(** * The frame counts of the area-detector handlers *)

Section handlers_facts.
Import handlers.

Lemma prefix_append (a y : string) : String.prefix a (a +:+ y) = true.
Proof.
  induction a as [|c a IH]; simpl; [by destruct y|].
  destruct (Ascii.ascii_dec c c); [exact IH | done].
Qed.

Lemma occurs_prefix (a s : string) : String.prefix a s = true → occurs a s = true.
Proof. intros Hp. destruct s; unfold occurs; fold occurs; by rewrite Hp. Qed.

Lemma occurs_skip (a x s : string) : occurs a s = true → occurs a (x +:+ s) = true.
Proof.
  intros Ho. induction x as [|c x IH]; simpl; [done|].
  rewrite IH. apply orb_true_r.
Qed.

Lemma occurs_here (a x y : string) : occurs a (x +:+ a +:+ y) = true.
Proof. apply occurs_skip, occurs_prefix, prefix_append. Qed.

Lemma expected_found_reports (a b : Z) :
  occurs (pretty a) (expected_found a b) = true ∧
  occurs (pretty b) (expected_found a b) = true.
Proof.
  unfold expected_found. split.
  - apply occurs_here.
  - do 3 apply occurs_skip. apply occurs_prefix, prefix_append.
Qed.

Lemma seeking_frame_reports (a b : Z) :
  occurs (pretty a) (seeking_frame a b) = true ∧
  occurs (pretty b) (seeking_frame a b) = true.
Proof.
  unfold seeking_frame. split.
  - apply occurs_here.
  - do 3 apply occurs_skip. apply occurs_prefix, prefix_append.
Qed.

Lemma py_slice_length {A} (l : list A) (start stop : Z) :
  0 ≤ start → start ≤ stop →
  Z.of_nat (length (py_slice l start stop))
  = Z.min stop (Z.of_nat (length l)) - Z.min start (Z.of_nat (length l)).
Proof.
  intros H0 Hle. unfold py_slice, clamp_index.
  rewrite !bool_decide_false by lia.
  rewrite length_take, length_drop. lia.
Qed.

Lemma open_point_fpp F self pn data self' :
  AreaDetectorSPEHandler.open_point F self pn = Ok (data, self') →
  AreaDetectorSPEHandler._fpp self' = AreaDetectorSPEHandler._fpp self.
Proof.
  unfold AreaDetectorSPEHandler.open_point.
  destruct (AreaDetectorSPEHandler._f_cache self !! pn); [by intros [= _ <-]|].
  destruct (PrincetonSPEFile F _); [|done]. by intros [= _ <-].
Qed.

(** C9, as amended. When the SPE file of the point holds fewer frames
    than [frame_per_point], the SPE handler raises [IntegrityError],
    and the message carries the expected and the found count. When the
    files of the sequence, listed again, leave fewer than
    [frame_per_point] frames for the point, the TIFF handler raises
    [IntegrityError], and the message carries the index of the last
    frame sought, [(point_number + 1) * frame_per_point], and the number
    of frames of the whole sequence. *)
Theorem short_read_raises (F : Files) :
  (∀ self pn data self' (n : nat) sh,
     AreaDetectorSPEHandler.open_point F self pn = Ok (data, self') →
     shape data = n :: sh →
     Z.of_nat n < AreaDetectorSPEHandler._fpp self →
     let msg := expected_found (AreaDetectorSPEHandler._fpp self) (Z.of_nat n) in
     AreaDetectorSPEHandler.__call__ F self pn = (Raise (IntegrityError msg), self') ∧
     occurs (pretty (AreaDetectorSPEHandler._fpp self)) msg = true ∧
     occurs (pretty (Z.of_nat n)) msg = true) ∧
  (∀ self pn self',
     AreaDetectorTiffHandler.refresh F self pn = Ok self' →
     0 ≤ pn →
     0 < AreaDetectorTiffHandler._fpp self →
     let fpp := AreaDetectorTiffHandler._fpp self in
     let seq := AreaDetectorTiffHandler._image_sequence self' in
     Z.of_nat (length (py_slice seq (pn * fpp) ((pn + 1) * fpp))) < fpp →
     let msg := seeking_frame ((pn + 1) * fpp) (Z.of_nat (length seq)) in
     AreaDetectorTiffHandler.__call__ F self pn = (Raise (IntegrityError msg), self') ∧
     occurs (pretty ((pn + 1) * fpp)) msg = true ∧
     occurs (pretty (Z.of_nat (length seq))) msg = true).
Proof.
  split.
  - intros self pn data self' n sh Hopen Hshape Hlt msg.
    split; [|apply expected_found_reports].
    unfold AreaDetectorSPEHandler.__call__. rewrite Hopen, Hshape.
    rewrite (open_point_fpp _ _ _ _ _ Hopen).
    rewrite decide_True by lia. done.
  - intros self pn self' Href Hpn Hfpp fpp seq Hshort msg.
    split; [|apply seeking_frame_reports].
    unfold AreaDetectorTiffHandler.__call__. rewrite Href.
    fold fpp seq.
    rewrite py_slice_length in Hshort by nia.
    rewrite bool_decide_true by nia. done.
Qed.

(** C9 as stated fails for the TIFF handler: with three frames per
    point and two frames on disk, point 1 raises [IntegrityError], and
    its message names neither the three frames expected nor the zero
    frames found for the point. *)
Lemma tiff_message_omits_expected_count :
  (AreaDetectorTiffHandler.__call__ files0 tiff0 1).1
    = Raise (IntegrityError "Seeking Frame 6 out of 2 frames.") ∧
  AreaDetectorTiffHandler._fpp tiff0 = 3 ∧
  length (py_slice [frame0; frame0] (1 * 3) ((1 + 1) * 3)) = 0%nat ∧
  occurs (pretty 3) "Seeking Frame 6 out of 2 frames." = false ∧
  occurs (pretty 0) "Seeking Frame 6 out of 2 frames." = false.
Proof. repeat split; vm_compute; reflexivity. Qed.

Example spe_message :
  (AreaDetectorSPEHandler.__call__ files0 spe0 0).1
    = Raise (IntegrityError "expected 3 frames, found 2 frames").
Proof. vm_compute. reflexivity. Qed.
End handlers_facts.

(** * Temporary handlers *)

Section overlay.
Import fs.
Context (Γ : Env).
Implicit Types (s : FileStoreRO) (c : stmt).

Lemma frames_refl s : frames s s.
Proof. split; [done|]. split; [lia | done]. Qed.

Lemma frames_trans s s1 s2 : frames s s1 → frames s1 s2 → frames s s2.
Proof.
  intros (Hr1 & Hn1 & Hd1) (Hr2 & Hn2 & Hd2). split; [congruence|].
  split; [lia|]. intros l Hl Hp.
  rewrite Hd2; [by apply Hd1 | lia | by rewrite Hr1].
Qed.

(** An operation that leaves the registry alone. *)
Lemma frames_same_registry s s' :
  dicts s' = dicts s → handler_reg s' = handler_reg s → next_loc s' = next_loc s →
  frames s s'.
Proof. intros Hd Hr Hn. split; [done|]. split; [lia|]. intros l _ _. by rewrite Hd. Qed.

Lemma deregister_handler_frames key s : frames s (deregister_handler Γ key s).
Proof.
  split; [apply deregister_handler_reg|]. split.
  - pose proof (deregister_handler_counters Γ key s) as (_ & -> & _). lia.
  - intros l _ Hp. by apply deregister_handler_frame.
Qed.

Lemma register_handler_frames key H ov s : frames s (register_handler Γ key H ov s).2.
Proof.
  unfold register_handler.
  destruct (negb ov && contains (dicts s) (handler_reg s) key).
  - destruct (getitem (dicts s) (handler_reg s) key) as [h0|e]; simpl;
      [destruct (decide (h0 = H))|]; apply frames_refl.
  - simpl. eapply frames_trans; [apply (deregister_handler_frames key)|].
    split; [done|]. split; [simpl; lia|]. intros l _ Hp. simpl.
    unfold setitem. by rewrite lookup_insert_ne.
Qed.

Lemma get_spec_handler_registry rid s :
  let s' := (get_spec_handler Γ rid s).2 in
  dicts s' = dicts s ∧ handler_reg s' = handler_reg s ∧ next_loc s' = next_loc s ∧
  _datum_cache s' = _datum_cache s ∧ resource_col s' = resource_col s ∧
  datum_col s' = datum_col s ∧ next_oid s' = next_oid s.
Proof.
  unfold get_spec_handler.
  pose proof (resource_cache_getitem_frame rid s) as Hfr.
  destruct (resource_cache_getitem rid s) as [[r|] s1]; simpl in Hfr;
    destruct Hfr as (Hd & Hr & _ & _ & Hn & Hdc & Hrc & Hdl & Ho); [|done].
  destruct (getitem (dicts s1) (handler_reg s1) (spec r)) as [handler|e]; [|done].
  destruct (lru_getitem _ (_handler_cache s1)) as [[inst c]|]; [done|].
  destruct (cls_init Γ handler (resource_path r) (resource_kwargs r)); done.
Qed.

Lemma get_datum_registry eid s :
  let s' := (get_datum Γ eid s).2 in
  dicts s' = dicts s ∧ handler_reg s' = handler_reg s ∧ next_loc s' = next_loc s.
Proof.
  unfold get_datum, _get_datum.
  assert (∀ d s1, dicts s1 = dicts s → handler_reg s1 = handler_reg s →
                  next_loc s1 = next_loc s →
    let s' := (let '(r, s2) := get_spec_handler Γ (resource d) s1 in
               match r with
               | Ok inst => (call_instance Γ inst (datum_kwargs d), s2)
               | Raise e => (Raise e, s2)
               end).2 in
    dicts s' = dicts s ∧ handler_reg s' = handler_reg s ∧ next_loc s' = next_loc s) as Hk.
  { intros d s1 Hd Hr Hn.
    pose proof (get_spec_handler_registry (resource d) s1) as Hg.
    destruct (get_spec_handler Γ (resource d) s1) as [[inst|e] s2]; simpl in *;
      destruct Hg as (-> & -> & -> & _); done. }
  destruct (lru_getitem eid (_datum_cache s)) as [[d c]|].
  - by apply Hk.
  - destruct (List.find _ (datum_col s)) as [d|]; [by apply Hk | done].
Qed.

Lemma insert_resource_registry sp rp rk s :
  let s' := (insert_resource Γ sp rp rk s).2 in
  dicts s' = dicts s ∧ handler_reg s' = handler_reg s ∧ next_loc s' = next_loc s.
Proof.
  unfold insert_resource, _insert_resource.
  destruct (known_spec Γ sp) as [[vres vdat]|]; [destruct (vres rk)|]; done.
Qed.

Lemma insert_datum_registry ra did dk s :
  let s' := (insert_datum Γ ra did dk s).2 in
  dicts s' = dicts s ∧ handler_reg s' = handler_reg s ∧ next_loc s' = next_loc s.
Proof.
  unfold insert_datum, _insert_datum.
  destruct (match ra with inl r => Some r | inr i => _ end) as [r|]; [|done].
  destruct (match known_spec Γ (spec r) with Some _ => _ | None => true end); [|done].
  case_bool_decide; done.
Qed.

(** The exit of [handler_context], applied to whatever state the body
    left. *)
Lemma handler_context_unfold {A} temp (body : FileStoreRO → Result A * FileStoreRO) s :
  ∃ cache,
    handler_context Γ temp body s =
    ((body (at_yield temp s)).1,
     set_handler_cache cache (set_handler_reg (handler_reg s) (body (at_yield temp s)).2)).
Proof.
  unfold handler_context. destruct (body (at_yield temp s)) as [r s2]. simpl. eauto.
Qed.

(** Client code writes, of the dicts that exist when it starts, the
    primary of the registry only, and leaves the registry the chain it
    was. *)
Lemma exec_frames c s : wf_locs s → frames s (exec Γ c s).2.
Proof.
  revert s. induction c as [|a IHa b IHb|key H ov|key|rid|eid|sp rp rk|ra did dk|e
                            |a IHa b IHb|temp body IH]; intros s Hwf; simpl.
  - apply frames_refl.
  - specialize (IHa s Hwf).
    destruct (exec Γ a s) as [[[]|e] s1]; simpl in *; [|done].
    eapply frames_trans; [exact IHa|]. apply IHb.
    destruct IHa as (Hr & Hn & _). intros l Hl. rewrite Hr in Hl.
    apply Hwf in Hl. lia.
  - apply register_handler_frames.
  - apply deregister_handler_frames.
  - pose proof (get_spec_handler_registry rid s) as (? & ? & ? & _).
    by apply frames_same_registry.
  - pose proof (get_datum_registry eid s) as (? & ? & ?).
    by apply frames_same_registry.
  - pose proof (insert_resource_registry sp rp rk s) as (? & ? & ?).
    by apply frames_same_registry.
  - pose proof (insert_datum_registry ra did dk s) as (? & ? & ?).
    by apply frames_same_registry.
  - apply frames_refl.
  - specialize (IHa s Hwf).
    destruct (exec Γ a s) as [[[]|e] s1]; simpl in *; [done|].
    eapply frames_trans; [exact IHa|]. apply IHb.
    destruct IHa as (Hr & Hn & _). intros l Hl. rewrite Hr in Hl.
    apply Hwf in Hl. lia.
  - destruct (handler_context_unfold (next_loc s) (exec Γ body) (alloc_dict temp s))
      as (cache & ->). simpl.
    set (sy := at_yield (next_loc s) (alloc_dict temp s)).
    assert (wf_locs sy) as Hwfy.
    { intros l [->|Hl]%elem_of_cons; simpl; [lia|]. apply Hwf in Hl. lia. }
    destruct (IH sy Hwfy) as (Hr & Hn & Hd). simpl in Hn.
    split; [done|]. split; [simpl; lia|]. intros l Hl _. simpl.
    rewrite Hd; [|simpl; lia|simpl; lia].
    simpl. rewrite lookup_insert_ne; [done | lia].
Qed.

(** The registry after [FileStoreRO.handler_context]: the chain and
    its dicts are those from before entry. *)
Lemma handler_context_registry temp body s :
  wf_locs s → (temp < next_loc s)%nat → temp ∉ layers (handler_reg s) →
  let out := handler_context Γ temp (exec Γ body) s in
  out.1 = (exec Γ body (at_yield temp s)).1 ∧
  handler_reg out.2 = handler_reg s ∧
  (∀ l, l ∈ layers (handler_reg s) → dicts out.2 !! l = dicts s !! l) ∧
  ∀ sp, resolve sp out.2 = resolve sp s.
Proof.
  intros Hwf Htemp Hnew out. subst out.
  destruct (handler_context_unfold temp (exec Γ body) s) as (cache & ->). simpl.
  assert (wf_locs (at_yield temp s)) as Hwfy.
  { intros l [->|Hl]%elem_of_cons; simpl; [done|]. by apply Hwf. }
  destruct (exec_frames body _ Hwfy) as (Hr & Hn & Hd). simpl in *.
  assert (∀ l, l ∈ layers (handler_reg s) →
               dicts (exec Γ body (at_yield temp s)).2 !! l = dicts s !! l) as Hsame.
  { intros l Hl. apply Hd; [by apply Hwf|]. intros ->. by apply Hnew. }
  split; [done|]. split; [done|]. split; [done|].
  intros sp. unfold resolve. simpl. apply getitem_agree.
  intros l Hl. apply dict_at_frame. by apply Hsame.
Qed.

(** X7. [FileStoreRO.handler_context] gives the registry back to a body
    written in the statement language [stmt]: calls of the store's
    methods, [raise], [try]/[except], and nested blocks, each of them
    entered on a dict display, which is a new dict. Whether such a
    body returns or raises, on exit the registry is the chain it was
    before entry, the dicts of that chain hold what they held, and
    every spec resolves as before. The overlay has to be a dict of its
    own, not one of the layers already in the chain; a body that enters
    a block on a dict of the chain is not a [stmt] and is not covered
    (for such an overlay the registry is not given back, see
    [handler_context_aliased_overlay]). *)
Lemma handler_context_restores temp body s :
  wf_locs s → (temp < next_loc s)%nat → temp ∉ layers (handler_reg s) →
  let out := handler_context Γ temp (exec Γ body) s in
  out.1 = (exec Γ body (at_yield temp s)).1 ∧
  handler_reg out.2 = handler_reg s ∧
  (∀ l, l ∈ layers (handler_reg s) → dicts out.2 !! l = dicts s !! l) ∧
  ∀ sp, resolve sp out.2 = resolve sp s.
Proof. apply handler_context_registry. Qed.

(** X18. A [with fs.handler_context({...}):] block whose overlay is a
    dict display and whose body is written in the statement language
    [stmt] (so that every block nested in it is entered on a dict
    display as well) leaves the registry as it found it, whether its
    body returns or raises: the chain is the one from before the block
    and every spec resolves as before. This holds inside another such
    block as well, where the registry given back is the enclosing
    overlay, not the root. *)
Lemma with_restores temp body s :
  wf_locs s →
  handler_reg (exec Γ (With temp body) s).2 = handler_reg s ∧
  ∀ sp, resolve sp (exec Γ (With temp body) s).2 = resolve sp s.
Proof.
  intros Hwf. simpl.
  assert (wf_locs (alloc_dict temp s)) as Hwf1.
  { intros l Hl. simpl in *. apply Hwf in Hl. lia. }
  assert (next_loc s ∉ layers (handler_reg (alloc_dict temp s))) as Hnew.
  { simpl. intros Hl. apply Hwf in Hl. lia. }
  destruct (handler_context_registry (next_loc s) body (alloc_dict temp s) Hwf1)
    as (_ & Hr & _ & Hres); [simpl; lia | done |].
  split; [done|]. intros sp. rewrite Hres. unfold resolve. simpl.
  apply getitem_agree. intros l Hl. apply dict_at_insert_ne.
  intros <-. apply Hwf in Hl. lia.
Qed.
End overlay.

(** In [fs.py] the block that failed the legacy module gives the
    registry back: the body raises, the exception leaves the block, and
    ['npy'] resolves to [NpyHandler] as before. *)
Example with_restores_on_raise :
  fs.resolve "npy" store0 = Ok NpyHandler ∧
  (fs.exec Γ0 (fs.With {[ "npy" := NpyFrameWise ]} (fs.RaiseStmt (UserError 0))) store0).1
    = Raise (UserError 0) ∧
  fs.resolve "npy"
    (fs.exec Γ0 (fs.With {[ "npy" := NpyFrameWise ]} (fs.RaiseStmt (UserError 0))) store0).2
    = Ok NpyHandler.
Proof. repeat split; vm_compute; reflexivity. Qed.

Section overlay_legacy.
Import retrieve.
Implicit Types (g : HandlerRegistry) (temp rp : list (string * ctor)) (rm : list string).

Lemma register_handler_new k v g :
  g !! k = None → register_handler k v false g = (Ok (), <[k := v]> g).
Proof. intros Hk. unfold register_handler. by rewrite Hk. Qed.

Lemma deregister_handler_delete k g : deregister_handler k g = delete k g.
Proof.
  unfold deregister_handler. case_bool_decide as Hk; [done|].
  symmetry. apply delete_id. destruct (g !! k) eqn:E; [|done].
  exfalso. apply Hk. eauto.
Qed.

(** The loop before the [yield] sorts the keys of the overlay: the ones
    the registry did not have go to [remove_list], the others go to
    [replace_list] with the handler they had. *)
Lemma enter_sorts temp : ∀ rm rp g,
  NoDup temp.*1 →
  ∃ rm' rp' g',
    enter temp rm rp g = (Ok (rm ++ rm', rp ++ rp'), g') ∧
    (∀ k v, (k, v) ∈ rp' → k ∈ temp.*1 ∧ g !! k = Some v) ∧
    (∀ k, k ∈ temp.*1 → g !! k = None → k ∈ rm') ∧
    (∀ k v, k ∈ temp.*1 → g !! k = Some v → (k, v) ∈ rp').
Proof.
  induction temp as [|[k v] rest IH]; intros rm rp g Hnd.
  - exists [], [], g. simpl. rewrite !app_nil_r.
    split; [done|]. split; [by intros ? ? ?%elem_of_nil|].
    split; [by intros ? ?%elem_of_nil | by intros ? ? ?%elem_of_nil].
  - rewrite fmap_cons in Hnd. apply NoDup_cons in Hnd as [Hk Hnd]. simpl in Hk.
    assert (∀ g0 k', k' ∈ rest.*1 → <[k := v]> g0 !! k' = g0 !! k') as Hins.
    { intros g0 k' Hk'. rewrite lookup_insert_ne; [done|]. intros ->. by apply Hk. }
    assert (∀ k', k' ∈ rest.*1 → delete k g !! k' = g !! k') as Hdel.
    { intros k' Hk'. rewrite lookup_delete_ne; [done|]. intros ->. by apply Hk. }
    simpl. destruct (g !! k) as [old|] eqn:Hg.
    + rewrite register_handler_new by apply lookup_delete_eq.
      destruct (IH rm (rp ++ [(k, old)]) (<[k := v]> (delete k g)) Hnd)
        as (rm' & rp' & g' & He & Hrp & Hrm & Hrp2).
      exists rm', ((k, old) :: rp'), g'. rewrite He, <- app_assoc. simpl.
      split; [done|]. split; [|split].
      * intros k' v' Hin. apply elem_of_cons in Hin as [Heq|Hin].
        { injection Heq as -> ->. split; [left | done]. }
        destruct (Hrp _ _ Hin) as [Hk' Hl]. split; [right; exact Hk'|].
        by rewrite Hins, Hdel in Hl.
      * intros k' Hk' Hn.
        apply elem_of_cons in Hk' as [Heq|Hk']; [simpl in Heq; congruence|].
        apply Hrm; [done|]. by rewrite Hins, Hdel.
      * intros k' v' Hk' Hs.
        apply elem_of_cons in Hk' as [Heq|Hk'].
        { simpl in Heq. subst k'. assert (v' = old) as -> by congruence. left. }
        right. apply Hrp2; [done|]. by rewrite Hins, Hdel.
    + rewrite register_handler_new by done.
      destruct (IH (rm ++ [k]) rp (<[k := v]> g) Hnd)
        as (rm' & rp' & g' & He & Hrp & Hrm & Hrp2).
      exists (k :: rm'), rp', g'. rewrite He, <- app_assoc. simpl.
      split; [done|]. split; [|split].
      * intros k' v' Hin. destruct (Hrp _ _ Hin) as [Hk' Hl].
        split; [right; exact Hk'|]. by rewrite Hins in Hl.
      * intros k' Hk' Hn.
        apply elem_of_cons in Hk' as [Heq|Hk']; [simpl in Heq; subst k'; left|].
        right. apply Hrm; [done|]. by rewrite Hins.
      * intros k' v' Hk' Hs.
        apply elem_of_cons in Hk' as [Heq|Hk']; [simpl in Heq; congruence|].
        apply Hrp2; [done|]. by rewrite Hins.
Qed.

Lemma restore_inserts rp : ∀ g,
  restore rp g = (Ok (), foldl (λ g kv, <[kv.1 := kv.2]> g) g rp).
Proof. induction rp as [|[k v] rp IH]; intros g; simpl; [done | apply IH]. Qed.

Lemma inserts_lookup_other rp : ∀ g k,
  k ∉ rp.*1 → foldl (λ g kv, <[kv.1 := kv.2]> g) g rp !! k = g !! k.
Proof.
  induction rp as [|[k0 v0] rp IH]; intros g k Hk; simpl; [done|].
  rewrite fmap_cons, not_elem_of_cons in Hk. destruct Hk as [Hne Hk].
  rewrite IH by done. by rewrite lookup_insert_ne.
Qed.

Lemma inserts_lookup rp : ∀ g k v,
  (∀ v', (k, v') ∈ rp → v' = v) →
  (k, v) ∈ rp ∨ g !! k = Some v →
  foldl (λ g kv, <[kv.1 := kv.2]> g) g rp !! k = Some v.
Proof.
  induction rp as [|[k0 v0] rp IH]; intros g k v Hfun Hin; simpl.
  - destruct Hin as [Hin|Hg]; [by apply elem_of_nil in Hin | done].
  - apply IH.
    + intros v' Hv'. apply Hfun. by right.
    + destruct (decide (k0 = k)) as [->|Hne].
      * right. rewrite lookup_insert_eq. f_equal. apply Hfun. left.
      * destruct Hin as [Hin|Hg].
        -- apply elem_of_cons in Hin as [Heq|Hin]; [congruence | by left].
        -- right. by rewrite lookup_insert_ne.
Qed.

Lemma deregisters_lookup rm : ∀ g k,
  foldl (λ g k, deregister_handler k g) g rm !! k
  = if decide (k ∈ rm) then None else g !! k.
Proof.
  induction rm as [|k0 rm IH]; intros g k.
  - destruct (decide (k ∈ [])) as [Hin|]; [by apply elem_of_nil in Hin | done].
  - change (foldl _ g (k0 :: rm)) with
      (foldl (λ g k, deregister_handler k g) (deregister_handler k0 g) rm).
    rewrite IH, deregister_handler_delete.
    destruct (decide (k ∈ rm)) as [Hin|Hnin];
      destruct (decide (k ∈ k0 :: rm)) as [Hin'|Hnin']; try done.
    + exfalso. apply Hnin'. by right.
    + apply elem_of_cons in Hin' as [->|?]; [apply lookup_delete_eq | done].
    + apply lookup_delete_ne. intros ->. apply Hnin'. left.
Qed.

(** X8. When the body returns, the module-level [handler_context] restores
    the keys of the overlay, whatever the body did to the registry:
    each resolves, after the block, as it did before.  The bindings of
    other keys are the body's. *)
Lemma handler_context_restores_on_return {A} temp
    (body : state → Result A * state) w (a : A) w' :
  NoDup temp.*1 →
  handler_context temp body w = (Ok a, w') →
  ∀ k, k ∈ temp.*1 → resolve k w' = resolve k w.
Proof.
  intros Hnd Hrun k Hk. unfold handler_context in Hrun.
  destruct (enter_sorts temp [] [] (_h_registry w) Hnd)
    as (rm & rp & g1 & He & Hrp & Hrm & Hrp2).
  rewrite He in Hrun. simpl in Hrun.
  destruct (body (mkState g1 (next_inst w))) as [[a1|e] w1]; [|done].
  unfold leave in Hrun. rewrite restore_inserts in Hrun.
  injection Hrun as <- <-. unfold resolve. simpl.
  destruct (_h_registry w !! k) as [v|] eqn:Hg.
  - rewrite (inserts_lookup rp _ k v); [done| |left; by apply Hrp2].
    intros v' Hv'. apply Hrp in Hv' as [_ Hv']. congruence.
  - rewrite inserts_lookup_other.
    + rewrite deregisters_lookup. rewrite decide_True; [done | by apply Hrm].
    + intros Hin. apply list_elem_of_fmap in Hin as ([k0 v0] & -> & Hin).
      apply Hrp in Hin as [_ Hin]. simpl in *. congruence.
Qed.

(** C1 fails in [retrieve.py]: on an empty registry, a body that raises
    inside [with handler_context({'npy': NpyHandler})] leaves the block
    with ['npy'] still bound to [NpyHandler], where before entry
    [resolve('npy')] raised [KeyError]. *)
Theorem handler_context_keeps_overlay_on_raise :
  resolve "npy" module0 = Raise KeyError ∧
  (handler_context [("npy", NpyHandler)] raising_body module0).1
    = Raise (UserError 0) ∧
  resolve "npy" (handler_context [("npy", NpyHandler)] raising_body module0).2
    = Ok NpyHandler.
Proof. repeat split; vm_compute; reflexivity. Qed.

(** X9. The legacy retrieval keeps no instances: two calls for one resource
    build two instances, each from the resource's path and kwargs. *)
Lemma legacy_get_spec_handler_builds Γ (r : Resource) (h : ctor) w :
  _h_registry w !! spec r = Some h →
  cls_init Γ h (resource_path r) (resource_kwargs r) = Ok () →
  ∃ w1 w2 i1 i2,
    get_spec_handler Γ r None w = (Ok i1, w1) ∧
    get_spec_handler Γ r None w1 = (Ok i2, w2) ∧
    i1 = mkInstance (next_inst w) h (resource_path r) (resource_kwargs r) ∧
    i2 = mkInstance (S (next_inst w)) h (resource_path r) (resource_kwargs r).
Proof.
  intros Hh Hinit.
  assert (∀ w0, _h_registry w0 = _h_registry w →
            get_spec_handler Γ r None w0 =
            (Ok (mkInstance (next_inst w0) h (resource_path r) (resource_kwargs r)),
             mkState (_h_registry w0) (S (next_inst w0)))) as Hcall.
  { intros w0 Hw0. unfold get_spec_handler. simpl. by rewrite Hw0, Hh, Hinit. }
  do 4 eexists. split; [by apply Hcall|]. split; [by apply Hcall|]. done.
Qed.

(** The legacy [get_data] returns what the handler of the resource's
    spec returns for the datum's kwargs. *)
Lemma legacy_get_data_returns Γ (d : DatumDocument) (h : ctor) (v : ndarray) w :
  _h_registry w !! spec (resource d) = Some h →
  cls_init Γ h (resource_path (resource d)) (resource_kwargs (resource d)) = Ok () →
  cls_call Γ h (resource_path (resource d)) (resource_kwargs (resource d))
           (datum_kwargs d) = Ok v →
  (get_data Γ d None w).1 = Ok v.
Proof.
  intros Hh Hinit Hcall. unfold get_data, get_spec_handler. simpl.
  by rewrite Hh, Hinit.
Qed.
End overlay_legacy.

(** * Insertion followed by retrieval *)

Section roundtrip.
Import fs.
Context (Γ : Env).
Implicit Types (s : FileStoreRO).

Lemma find_snoc {A} (P : A → bool) (l : list A) (x : A) :
  (∀ y, y ∈ l → P y = false) → P x = true → List.find P (l ++ [x]) = Some x.
Proof.
  intros Hl Hx. induction l as [|a l IH]; simpl.
  - by rewrite Hx.
  - rewrite (Hl a) by left. apply IH. intros y Hy. apply Hl. by right.
Qed.

Lemma insert_resource_Ok sp rp rk s r s1 :
  insert_resource Γ sp rp rk s = (Ok r, s1) →
  r = mkResource (next_oid s) sp rp rk ∧
  s1 = set_next_oid (S (next_oid s)) (set_resource_col (resource_col s ++ [r]) s).
Proof.
  unfold insert_resource, _insert_resource.
  destruct (match known_spec Γ sp with Some _ => _ | None => true end); [|done].
  by intros [= <- <-].
Qed.

Lemma _insert_datum_Ok r did dk s d s2 :
  _insert_datum Γ r did dk s = (Ok d, s2) →
  (did ∉ datum_id <$> datum_col s) ∧
  d = mkDatum did (_id r) dk ∧
  s2 = set_datum_col (datum_col s ++ [d]) s.
Proof.
  unfold _insert_datum.
  destruct (match known_spec Γ (spec r) with Some _ => _ | None => true end); [|done].
  case_bool_decide as Hin; [done|]. by intros [= <- <-].
Qed.

End roundtrip.

(** * The claims on concrete stores *)

Section examples.
Import fs.

Example store1_cache :
  lru_keys (_handler_cache store1) = [("0", "NpyHandler")].
Proof. vm_compute. reflexivity. Qed.

(** C3 as stated fails inside an overlay: ['npy'] resolves to
    [NpyHandler] through the parent layer; registering [NpyFrameWise]
    with [overwrite=True] returns and binds it, and the instance cached
    under [NpyHandler]'s name is still in the cache. *)
Lemma register_overwrite_keeps_shadowed_instances :
  resolve "npy" store1_in_overlay = Ok NpyHandler ∧
  NpyFrameWise ≠ NpyHandler ∧
  (register_handler Γ0 "npy" NpyFrameWise true store1_in_overlay).1 = Ok () ∧
  resolve "npy" (register_handler Γ0 "npy" NpyFrameWise true store1_in_overlay).2
    = Ok NpyFrameWise ∧
  ("0", cls_name Γ0 NpyHandler)
    ∈ lru_keys (_handler_cache
                  (register_handler Γ0 "npy" NpyFrameWise true store1_in_overlay).2).
Proof.
  split; [vm_compute; reflexivity|]. split; [done|].
  split; [vm_compute; reflexivity|]. split; [vm_compute; reflexivity|].
  vm_compute. left.
Qed.

Lemma register_conflict_witness :
  resolve "npy" store1 = Ok NpyHandler ∧
  registry0 !! "npy" = Some NpyHandler ∧
  NpyFrameWise ≠ NpyHandler ∧
  (∃ msg, register_handler Γ0 "npy" NpyFrameWise false store1
          = (Raise (DuplicateHandler msg), store1)).
Proof.
  assert (resolve "npy" store1 = Ok NpyHandler) as H1 by (vm_compute; reflexivity).
  assert (registry0 !! "npy" = Some NpyHandler) as H2 by (vm_compute; reflexivity).
  assert (NpyFrameWise ≠ NpyHandler) as H3 by done.
  split; [exact H1|]. split; [exact H2|]. split; [exact H3|].
  exact (proj1 (register_conflict Γ0 "npy" NpyHandler NpyFrameWise store1 registry0 H1 H2 H3)).
Defined.

(** C4 as stated fails inside an overlay that shadows the spec:
    [deregister('npy')] removes the overlay's binding, and ['npy']
    resolves to the parent's [NpyHandler] instead of raising. *)
Lemma deregister_uncovers_parent_binding :
  resolve "npy" store1_shadowed = Ok NpyFrameWise ∧
  resolve "npy" (deregister_handler Γ0 "npy" store1_shadowed) = Ok NpyHandler.
Proof. split; vm_compute; reflexivity. Qed.

(** C10 as stated fails inside an overlay: ['npy'] resolves to
    [NpyHandler] through the parent layer; registering [NpyHandler]
    again with [overwrite=True] evicts nothing. *)
Lemma register_same_overwrite_keeps_shadowed_instances :
  resolve "npy" store1_in_overlay = Ok NpyHandler ∧
  (register_handler Γ0 "npy" NpyHandler true store1_in_overlay).1 = Ok () ∧
  ("0", cls_name Γ0 NpyHandler)
    ∈ lru_keys (_handler_cache
                  (register_handler Γ0 "npy" NpyHandler true store1_in_overlay).2).
Proof.
  split; [vm_compute; reflexivity|]. split; [vm_compute; reflexivity|].
  vm_compute. left.
Qed.

(** Deregistering ['npy'] in [store1] evicts the cached instance (the
    one with identity 0); after ['npy'] is registered again the
    retrieval for the resource builds a new instance. *)
Example deregister_then_retrieve_builds :
  (inst_id <$> (items (_handler_cache store1)).*2) = [0%nat] ∧
  lru_keys (_handler_cache (deregister_handler Γ0 "npy" store1)) = [] ∧
  (get_spec_handler Γ0 0%nat
     (register_handler Γ0 "npy" NpyHandler false
        (deregister_handler Γ0 "npy" store1)).2).1
    = Ok (mkInstance 1 NpyHandler "/data/a.npy" ∅).
Proof. repeat split; vm_compute; reflexivity. Qed.

(** The overlay has to be a dict of its own: when the dict handed to
    [handler_context] is the registry's own primary, what the body
    removes stays removed. *)
Example handler_context_aliased_overlay :
  resolve "npy" store0 = Ok NpyHandler ∧
  resolve "npy"
    (handler_context Γ0 (primary_of (handler_reg store0))
       (exec Γ0 (DeregisterHandler "npy")) store0).2
    = Raise KeyError.
Proof. split; vm_compute; reflexivity. Qed.

Lemma register_same_ctor_overwrite_witness :
  resolve "npy" store1 = Ok NpyHandler ∧
  register_handler Γ0 "npy" NpyHandler false store1 = (Ok (), store1).
Proof.
  assert (resolve "npy" store1 = Ok NpyHandler) as H1 by (vm_compute; reflexivity).
  split; [exact H1|].
  exact (proj1 (register_same_ctor_overwrite Γ0 "npy" NpyHandler store1 H1)).
Defined.
End examples.

(** * More on the store of [fs.py] *)

Section more_fs.
Import fs.
Context (Γ : Env).
Implicit Types (s : FileStoreRO).

Lemma handler_context_out {A} temp (body : FileStoreRO → Result A * FileStoreRO) s :
  handler_context Γ temp body s =
  ((body (at_yield temp s)).1,
   set_handler_cache
     (foldl (λ c handler, evict_name (cls_name Γ handler) c)
        (_handler_cache (body (at_yield temp s)).2)
        (map_to_list (dict_at (dicts (body (at_yield temp s)).2)
                        (primary_of (handler_reg (body (at_yield temp s)).2)))).*2)
     (set_handler_reg (handler_reg s) (body (at_yield temp s)).2)).
Proof. unfold handler_context. by destruct (body (at_yield temp s)). Qed.

Lemma evict_names_items (hs : list ctor) (cache : LRU (string * string) Instance) :
  items (foldl (λ c handler, evict_name (cls_name Γ handler) c) cache hs)
  = filter (λ kv, kv.1.2 ∉ cls_name Γ <$> hs) (items cache).
Proof.
  revert cache. induction hs as [|h hs IH]; intros cache; simpl.
  - symmetry. apply filter_all. intros kv _. apply not_elem_of_nil.
  - rewrite IH, evict_name_items, list_filter_filter.
    apply filter_ext_in. intros kv _. rewrite not_elem_of_cons. tauto.
Qed.

Lemma evict_names_max (hs : list ctor) (cache : LRU (string * string) Instance) :
  max_size (foldl (λ c handler, evict_name (cls_name Γ handler) c) cache hs)
  = max_size cache.
Proof.
  revert cache. induction hs as [|h hs IH]; intros cache; simpl; [done|].
  by rewrite IH, evict_name_max.
Qed.

(** X1. On exit of [FileStoreRO.handler_context] the handler cache is
    the cache the body left, without the entries named after a handler
    of the popped layer: for every binding that the innermost dict
    holds when the body ends, no entry with the name of its handler is
    left, and an entry with another name is kept.  Instances of the
    handlers the layer shadowed are evicted only when they carry such a
    name. *)
Theorem handler_context_exit_evicts {A} temp
    (body : FileStoreRO → Result A * FileStoreRO) s :
  let s2 := (body (at_yield temp s)).2 in
  let popped_reg := dict_at (dicts s2) (primary_of (handler_reg s2)) in
  let out := (handler_context Γ temp body s).2 in
  (∀ key handler q, popped_reg !! key = Some handler →
     q ∈ lru_keys (_handler_cache out) → q.2 ≠ cls_name Γ handler) ∧
  (∀ kv, kv ∈ items (_handler_cache s2) →
     (∀ key handler, popped_reg !! key = Some handler → kv.1.2 ≠ cls_name Γ handler) →
     kv ∈ items (_handler_cache out)) ∧
  (∀ kv, kv ∈ items (_handler_cache out) → kv ∈ items (_handler_cache s2)) ∧
  next_inst out = next_inst s2.
Proof.
  intros s2 popped_reg out. subst out. rewrite handler_context_out. simpl.
  fold s2. fold popped_reg. unfold lru_keys. rewrite !evict_names_items.
  assert (∀ name, name ∈ cls_name Γ <$> (map_to_list popped_reg).*2 ↔
                  ∃ key handler, popped_reg !! key = Some handler ∧
                                 name = cls_name Γ handler) as Hnames.
  { intros name. rewrite list_elem_of_fmap. split.
    - intros (handler & -> & Hin).
      apply list_elem_of_fmap in Hin as ([key h0] & -> & Hin).
      apply elem_of_map_to_list in Hin. eauto.
    - intros (key & handler & Hl & ->). exists handler. split; [done|].
      apply list_elem_of_fmap. exists (key, handler). split; [done|].
      by apply elem_of_map_to_list. }
  split; [|split; [|split]].
  - intros key handler q Hl Hq Hname.
    apply list_elem_of_fmap in Hq as (kv & -> & Hkv).
    apply list_elem_of_filter in Hkv as [Hnot _]. apply Hnot.
    apply Hnames. eauto.
  - intros kv Hkv Hother. apply list_elem_of_filter. split; [|done].
    intros (key & handler & Hl & Hname)%Hnames. by eapply Hother.
  - intros kv Hkv. by apply list_elem_of_filter in Hkv as [_ ?].
  - done.
Qed.

(** A lookup of [k] depends on the entries for [k] only. *)
Lemma getitem_agree_key (h h' : DictStore) m k :
  (∀ l, dict_at h' l !! k = dict_at h l !! k) → getitem h' m k = getitem h m k.
Proof.
  intros Hag. induction m as [d|p fb IH]; simpl; rewrite Hag; [done|].
  by rewrite IH.
Qed.

Lemma deregister_handler_other key s l (k : string) :
  k ≠ key →
  dict_at (dicts (deregister_handler Γ key s)) l !! k = dict_at (dicts s) l !! k.
Proof.
  intros Hne. rewrite deregister_handler_unfold.
  destruct (dict_at (dicts s) (primary_of (handler_reg s)) !! key); [|done].
  simpl. destruct (decide (l = primary_of (handler_reg s))) as [->|Hl].
  - by rewrite dict_at_insert_eq, lookup_delete_ne.
  - by rewrite dict_at_insert_ne.
Qed.

Lemma resolve_deregister_other (key k : string) s :
  k ≠ key → resolve k (deregister_handler Γ key s) = resolve k s.
Proof.
  intros Hne. unfold resolve. rewrite deregister_handler_reg.
  apply getitem_agree_key. intros l. by apply deregister_handler_other.
Qed.

Lemma resolve_register_other (key k : string) (H : ctor) (ov : bool) s :
  k ≠ key → resolve k (register_handler Γ key H ov s).2 = resolve k s.
Proof.
  intros Hne. unfold register_handler.
  destruct (negb ov && contains (dicts s) (handler_reg s) key).
  - destruct (getitem (dicts s) (handler_reg s) key) as [h0|e]; simpl;
      [destruct (decide (h0 = H))|]; done.
  - simpl. rewrite <- (resolve_deregister_other key k s Hne).
    unfold resolve. simpl. apply getitem_agree_key.
    intros l. unfold setitem.
    destruct (decide (l = primary_of (handler_reg (deregister_handler Γ key s))))
      as [->|Hl].
    + by rewrite dict_at_insert_eq, lookup_insert_ne.
    + by rewrite dict_at_insert_ne.
Qed.

(** X2. Registering or deregistering one spec never changes what
    another spec resolves to, whether the call returns or raises and
    whatever the layers of the registry are. *)
Theorem other_specs_untouched (key k : string) (H : ctor) (ov : bool) s :
  k ≠ key →
  resolve k (register_handler Γ key H ov s).2 = resolve k s ∧
  resolve k (deregister_handler Γ key s) = resolve k s.
Proof.
  intros Hne. split.
  - by apply resolve_register_other.
  - by apply resolve_deregister_other.
Qed.

Lemma getitem_KeyError_layers (h : DictStore) m (k : string) l :
  getitem h m k = Raise KeyError → l ∈ layers m → dict_at h l !! k = None.
Proof.
  induction m as [d|p fb IH]; simpl.
  - destruct (dict_at h d !! k) eqn:E; [done|].
    by intros _ ->%list_elem_of_singleton.
  - destruct (dict_at h p !! k) eqn:E; [done|].
    intros Hfb [->|Hl]%elem_of_cons; [done | by apply IH].
Qed.

(** X3. Registration and deregistration undo each other on the
    registry: when a spec is unbound, registering a handler for it and
    deregistering it again leaves every spec resolving as before and
    the registry the same chain.  The handler cache pays for it: the
    entries named after the handler are gone, the others are kept. *)
Theorem register_then_deregister (key : string) (H : ctor) (ov : bool) s :
  resolve key s = Raise KeyError →
  let s1 := (register_handler Γ key H ov s).2 in
  let s2 := deregister_handler Γ key s1 in
  (register_handler Γ key H ov s).1 = Ok () ∧
  resolve key s1 = Ok H ∧
  handler_reg s2 = handler_reg s ∧
  (∀ k, resolve k s2 = resolve k s) ∧
  items (_handler_cache s2)
    = filter (λ kv, kv.1.2 ≠ cls_name Γ H) (items (_handler_cache s)).
Proof.
  intros Hun s1 s2.
  assert (contains (dicts s) (handler_reg s) key = false) as Hc.
  { rewrite contains_getitem. unfold resolve in Hun. by rewrite Hun. }
  assert (register_handler Γ key H ov s
          = (Ok (), set_dicts (setitem (dicts s) (handler_reg s) key H) s)) as Hreg.
  { rewrite register_handler_unbound, register_handler_overwrite by done.
    rewrite deregister_handler_absent; [done|].
    eapply getitem_KeyError_layers; [exact Hun | apply primary_in_layers]. }
  assert (resolve key s1 = Ok H) as Hres1.
  { subst s1. rewrite Hreg. apply getitem_setitem. }
  assert (dict_at (dicts s1) (primary_of (handler_reg s1)) !! key = Some H) as Hp1.
  { subst s1. rewrite Hreg. simpl. unfold setitem.
    by rewrite dict_at_insert_eq, lookup_insert_eq. }
  assert (handler_reg s1 = handler_reg s) as Hr1 by (subst s1; by rewrite Hreg).
  split; [by rewrite Hreg|]. split; [done|].
  split; [subst s2; by rewrite deregister_handler_reg|]. split.
  - intros k. destruct (decide (k = key)) as [->|Hne].
    + rewrite Hun. subst s2. unfold resolve.
      rewrite getitem_first_defining, first_defining_None; [done|].
      rewrite deregister_handler_reg. intros l Hl.
      destruct (decide (l = primary_of (handler_reg s1))) as [->|Hne].
      * apply deregister_handler_primary.
      * rewrite (dict_at_frame (dicts s1)) by (by apply deregister_handler_frame).
        rewrite Hr1 in Hl, Hne. subst s1. rewrite Hreg. simpl.
        unfold setitem. rewrite dict_at_insert_ne by done.
        by eapply getitem_KeyError_layers.
    + subst s2. rewrite resolve_deregister_other by done.
      subst s1. by apply resolve_register_other.
  - subst s2. rewrite deregister_handler_cache, Hp1, evict_name_items.
    subst s1. by rewrite Hreg.
Qed.

(** X4. A resource id that the collection does not have is answered
    with [TypeError], and the miss is remembered: the resource cache
    now maps the id to [None], and as long as it does, every retrieval
    for that id raises [TypeError] without looking at the collection
    again, whatever has been inserted since. *)
Theorem missing_resource_is_cached (rid : ObjectId) s :
  assoc rid (items (_resource_cache s)) = None →
  _r_on_miss rid s = None →
  (∃ s1, get_spec_handler Γ rid s = (Raise TypeError, s1) ∧
         assoc rid (items (_resource_cache s1)) = Some None ∧
         _handler_cache s1 = _handler_cache s ∧
         next_inst s1 = next_inst s) ∧
  (∀ s', assoc rid (items (_resource_cache s')) = Some None →
         (get_spec_handler Γ rid s').1 = Raise TypeError).
Proof.
  intros Hmiss Hnone. split.
  - unfold get_spec_handler, resource_cache_getitem.
    rewrite (lru_getitem_miss _ _ Hmiss), Hnone. eexists. split; [done|].
    simpl. split; [apply lru_setitem_lookup_same | done].
  - intros s' Hc. unfold get_spec_handler, resource_cache_getitem.
    by rewrite (lru_getitem_hit _ _ _ Hc).
Qed.

Lemma deregister_handler_documents key s :
  let s' := deregister_handler Γ key s in
  resource_col s' = resource_col s ∧ datum_col s' = datum_col s ∧
  next_oid s' = next_oid s ∧ _datum_cache s' = _datum_cache s ∧
  _resource_cache s' = _resource_cache s ∧ next_inst s' = next_inst s.
Proof.
  simpl. rewrite deregister_handler_unfold.
  by destruct (dict_at (dicts s) (primary_of (handler_reg s)) !! key).
Qed.

Lemma register_handler_documents key H ov s :
  let s' := (register_handler Γ key H ov s).2 in
  resource_col s' = resource_col s ∧ datum_col s' = datum_col s ∧
  next_oid s' = next_oid s ∧ _datum_cache s' = _datum_cache s ∧
  _resource_cache s' = _resource_cache s ∧ next_inst s' = next_inst s.
Proof.
  simpl. unfold register_handler.
  destruct (negb ov && contains (dicts s) (handler_reg s) key).
  - destruct (getitem (dicts s) (handler_reg s) key) as [h0|e]; simpl;
      [destruct (decide (h0 = H))|]; done.
  - simpl. apply deregister_handler_documents.
Qed.

(** X5. Client code that only registers, deregisters, retrieves
    handlers and opens temporary-handler blocks never writes a
    document: both collections, the id counter and the datum cache are
    after it what they were before, however it ends. *)
Theorem registry_code_leaves_documents (c : stmt) s :
  registry_only c = true →
  resource_col (exec Γ c s).2 = resource_col s ∧
  datum_col (exec Γ c s).2 = datum_col s ∧
  next_oid (exec Γ c s).2 = next_oid s ∧
  _datum_cache (exec Γ c s).2 = _datum_cache s.
Proof.
  revert s. induction c as [|a IHa b IHb|key H ov|key|rid|eid|sp rp rk|ra did dk|e
                            |a IHa b IHb|temp body IH]; intros s Hro; simpl in *;
    try done.
  - apply andb_true_iff in Hro as [Ha Hb].
    specialize (IHa s Ha). destruct (exec Γ a s) as [[[]|e] s1]; simpl in *; [|done].
    destruct (IHb s1 Hb) as (-> & -> & -> & ->). done.
  - by destruct (register_handler_documents key H ov s) as (? & ? & ? & ? & _).
  - by destruct (deregister_handler_documents key s) as (? & ? & ? & ? & _).
  - by destruct (get_spec_handler_registry Γ rid s) as (_ & _ & _ & ? & ? & ? & ?).
  - apply andb_true_iff in Hro as [Ha Hb].
    specialize (IHa s Ha). destruct (exec Γ a s) as [[[]|e] s1]; simpl in *; [done|].
    destruct (IHb s1 Hb) as (-> & -> & -> & ->). done.
  - rewrite handler_context_out. simpl.
    by destruct (IH (at_yield (next_loc s) (alloc_dict temp s)) Hro) as (-> & -> & -> & ->).
Qed.
End more_fs.

(** * The invariant of the handler cache *)

Section cache_invariant.
Import fs.
Context (Γ : Env).
Implicit Types (s : FileStoreRO) (cache : LRU (string * string) Instance) (n : nat).

(** Moving an entry to the front permutes the entries. *)
Lemma without_perm {K V} `{EqDecision K} (k : K) (v : V) (l : list (K * V)) :
  NoDup l.*1 → assoc k l = Some v → (k, v) :: without k l ≡ₚ l.
Proof.
  induction l as [|[k0 v0] l IH]; [done|].
  rewrite fmap_cons, NoDup_cons. intros [Hnin Hnd]. simpl.
  unfold without. rewrite filter_cons. simpl.
  destruct (decide (k0 = k)) as [->|Hne].
  - intros [= ->]. rewrite decide_False by (intros Hc; by apply Hc).
    fold (without k l). by rewrite without_notin.
  - intros Ha. rewrite decide_True by done.
    rewrite perm_swap. f_equiv. by apply IH.
Qed.

Lemma cache_ok_sublist cache cache' n :
  items cache' `sublist_of` items cache → max_size cache' = max_size cache →
  cache_ok Γ cache n → cache_ok Γ cache' n.
Proof.
  intros Hsub Hmax ((Hnd & Hlen) & Hpos & Hent & Hids).
  split; [split|split; [|split]].
  - eapply sublist_NoDup; [exact Hnd|]. unfold lru_keys. by apply fmap_sublist.
  - apply sublist_length in Hsub. lia.
  - congruence.
  - intros k i Hin. apply Hent. by eapply elem_of_sublist.
  - eapply sublist_NoDup; [exact Hids|]. by do 2 apply fmap_sublist.
Qed.

Lemma cache_ok_perm cache cache' n :
  items cache' ≡ₚ items cache → max_size cache' = max_size cache →
  cache_ok Γ cache n → cache_ok Γ cache' n.
Proof.
  intros Hperm Hmax ((Hnd & Hlen) & Hpos & Hent & Hids).
  split; [split|split; [|split]].
  - unfold lru_keys. by rewrite Hperm.
  - rewrite Hperm. lia.
  - congruence.
  - intros k i Hin. apply Hent. by rewrite <- Hperm.
  - by rewrite Hperm.
Qed.

Lemma cache_ok_mono cache n n' : (n ≤ n')%nat → cache_ok Γ cache n → cache_ok Γ cache n'.
Proof.
  intros Hle (Hwf & Hpos & Hent & Hids). split; [done|]. split; [done|].
  split; [|done]. intros k i Hin. destruct (Hent k i Hin). split; [done | lia].
Qed.

Lemma cache_ok_evict name cache n : cache_ok Γ cache n → cache_ok Γ (evict_name name cache) n.
Proof.
  apply cache_ok_sublist; [|apply evict_name_max].
  rewrite evict_name_items. apply sublist_filter.
Qed.

Lemma cache_ok_evict_all (hs : list ctor) cache n :
  cache_ok Γ cache n →
  cache_ok Γ (foldl (λ c handler, evict_name (cls_name Γ handler) c) cache hs) n.
Proof.
  revert cache. induction hs as [|h hs IH]; intros cache Hok; [done|].
  simpl. apply IH. by apply cache_ok_evict.
Qed.

Lemma cache_ok_hit (k : string * string) i cache n :
  assoc k (items cache) = Some i → cache_ok Γ cache n →
  cache_ok Γ (mkLRU (max_size cache) ((k, i) :: without k (items cache))) n.
Proof.
  intros Ha Hok. apply (cache_ok_perm cache); [|done|done].
  simpl. apply without_perm; [|done]. apply Hok.
Qed.

(** A new instance, with the next identity, under a key that was not
    there. *)
Lemma cache_ok_put (k : string * string) i cache :
  assoc k (items cache) = None →
  k.2 = cls_name Γ (inst_cls i) →
  cache_ok Γ cache (inst_id i) →
  cache_ok Γ (lru_setitem k i cache) (S (inst_id i)).
Proof.
  intros Ha Hname Hok.
  assert (∃ rest, items (lru_setitem k i cache) = (k, i) :: rest ∧
                  rest `sublist_of` items cache) as (rest & Hitems & Hsub).
  { unfold lru_setitem. rewrite Ha. case_bool_decide; simpl.
    - by eexists.
    - eexists. split; [done | apply removelast_sublist]. }
  destruct Hok as (Hwf & Hpos & Hent & Hids).
  split; [|split; [|split]].
  - apply lru_setitem_wf; [|done]. rewrite Hpos. done.
  - by rewrite lru_setitem_max.
  - rewrite Hitems. intros k' i' [[= -> ->]|Hin]%elem_of_cons.
    + split; [done | lia].
    + destruct (Hent k' i') as [? ?]; [by eapply elem_of_sublist|].
      split; [done | lia].
  - rewrite Hitems, !fmap_cons. simpl. apply NoDup_cons. split.
    + intros Hin. apply list_elem_of_fmap in Hin as (i' & Hid & Hin).
      apply list_elem_of_fmap in Hin as ([k' i''] & -> & Hin).
      destruct (Hent k' i'') as [_ Hlt]; [by eapply elem_of_sublist|].
      simpl in Hid. lia.
    + eapply sublist_NoDup; [exact Hids|]. by do 2 apply fmap_sublist.
Qed.

Lemma deregister_handler_cache_inv key s :
  cache_inv Γ s → cache_inv Γ (deregister_handler Γ key s).
Proof.
  unfold cache_inv. intros Hok.
  destruct (deregister_handler_documents Γ key s) as (_ & _ & _ & _ & _ & ->).
  rewrite deregister_handler_cache.
  destruct (dict_at (dicts s) (primary_of (handler_reg s)) !! key); [|done].
  by apply cache_ok_evict.
Qed.

Lemma register_handler_cache_inv key H ov s :
  cache_inv Γ s → cache_inv Γ (register_handler Γ key H ov s).2.
Proof.
  intros Hok. unfold register_handler.
  destruct (negb ov && contains (dicts s) (handler_reg s) key).
  - destruct (getitem (dicts s) (handler_reg s) key) as [h0|e]; simpl;
      [destruct (decide (h0 = H))|]; done.
  - simpl. by apply (deregister_handler_cache_inv key) in Hok.
Qed.

Lemma get_spec_handler_cache_inv rid s :
  cache_inv Γ s → cache_inv Γ (get_spec_handler Γ rid s).2.
Proof.
  unfold cache_inv. intros Hok.
  pose proof (resource_cache_getitem_frame rid s) as Hfr.
  destruct (resource_cache_getitem rid s) as [[r|] s1] eqn:Hrc; simpl in Hfr;
    destruct Hfr as (_ & _ & Hc & Hn & _).
  - rewrite (get_spec_handler_unfold Γ rid s r s1 Hrc).
    destruct (resolve (spec r) s) as [handler|e]; simpl; [|by rewrite Hc, Hn].
    destruct (assoc _ (items (_handler_cache s))) as [inst|] eqn:Ha; simpl.
    + rewrite Hn. by apply cache_ok_hit.
    + destruct (cls_init Γ handler (resource_path r) (resource_kwargs r));
        simpl; [|by rewrite Hc, Hn].
      by apply (cache_ok_put _ (mkInstance (next_inst s) handler _ _)).
  - unfold get_spec_handler. rewrite Hrc. simpl. by rewrite Hc, Hn.
Qed.

Lemma get_datum_cache_inv eid s :
  cache_inv Γ s → cache_inv Γ (get_datum Γ eid s).2.
Proof.
  intros Hok. unfold get_datum, _get_datum.
  assert (∀ d s1, cache_inv Γ s1 →
            cache_inv Γ (let '(r, s2) := get_spec_handler Γ (resource d) s1 in
                         match r with
                         | Ok inst => (call_instance Γ inst (datum_kwargs d), s2)
                         | Raise e => (Raise e, s2)
                         end).2) as Hk.
  { intros d s1 Hok1. apply (get_spec_handler_cache_inv (resource d)) in Hok1.
    by destruct (get_spec_handler Γ (resource d) s1) as [[inst|e] s2]. }
  destruct (lru_getitem eid (_datum_cache s)) as [[d cd]|].
  - by apply Hk.
  - destruct (List.find _ (datum_col s)) as [d|]; [by apply Hk | done].
Qed.

Lemma exec_cache_inv (c : stmt) s : cache_inv Γ s → cache_inv Γ (exec Γ c s).2.
Proof.
  revert s. induction c as [|a IHa b IHb|key H ov|key|rid|eid|sp rp rk|ra did dk|e
                            |a IHa b IHb|temp body IH]; intros s Hok; simpl.
  - done.
  - specialize (IHa s Hok). destruct (exec Γ a s) as [[[]|e] s1]; [by apply IHb|done].
  - by apply register_handler_cache_inv.
  - by apply deregister_handler_cache_inv.
  - by apply get_spec_handler_cache_inv.
  - by apply get_datum_cache_inv.
  - unfold insert_resource, _insert_resource.
    by destruct (match known_spec Γ sp with Some _ => _ | None => true end).
  - unfold insert_datum, _insert_datum.
    destruct (match ra with inl r => Some r | inr i => _ end) as [r|]; [|done].
    destruct (match known_spec Γ (spec r) with Some _ => _ | None => true end); [|done].
    by case_bool_decide.
  - done.
  - specialize (IHa s Hok). destruct (exec Γ a s) as [[[]|e] s1]; [done | by apply IHb].
  - rewrite handler_context_out. unfold cache_inv. simpl.
    apply cache_ok_evict_all. by apply IH.
Qed.

(** X6. The handler cache keeps its shape through any client code,
    whether a statement returns or raises: starting from a new store,
    the cache never holds a key twice nor more than 128 entries, every
    cached instance sits under the name of the class that built it, and
    no two cached instances are the same object. *)
Theorem handler_cache_invariant (reg : option (gmap string ctor)) (c : stmt) :
  let s := (exec Γ c (__init__ reg)).2 in
  NoDup (lru_keys (_handler_cache s)) ∧
  Z.of_nat (length (items (_handler_cache s))) ≤ 128 ∧
  (∀ k i, (k, i) ∈ items (_handler_cache s) →
          k.2 = cls_name Γ (inst_cls i) ∧ (inst_id i < next_inst s)%nat) ∧
  NoDup (inst_id <$> (items (_handler_cache s)).*2).
Proof.
  intros s.
  assert (cache_inv Γ (__init__ reg)) as Hinit.
  { split; [split; [apply NoDup_nil_2 | by vm_compute]|]. split; [done|]. split.
    - intros k i Hin. by apply elem_of_nil in Hin.
    - apply NoDup_nil_2. }
  pose proof (exec_cache_inv c _ Hinit) as ((Hnd & Hlen) & Hmax & Hent & Hids).
  fold s in Hnd, Hlen, Hmax, Hent, Hids.
  rewrite Hmax in Hlen. done.
Qed.
End cache_invariant.

(** * The caches and the collections *)

Section lru_membership.
Context {K V : Type} `{EqDecision K}.
Implicit Types (c : LRU K V).

(** A put adds its entry and no other; a read adds none. *)
Lemma lru_setitem_elem (k : K) (v : V) c kv :
  kv ∈ items (lru_setitem k v c) → kv = (k, v) ∨ kv ∈ items c.
Proof.
  unfold lru_setitem. destruct (assoc k (items c)); simpl.
  - intros [->|Hin]%elem_of_cons; [by left|]. right.
    by apply without_elem in Hin as [? _].
  - case_bool_decide; simpl; intros [->|Hin]%elem_of_cons;
      [by left | by right | by left |].
    right. eapply elem_of_sublist; [exact Hin | apply removelast_sublist].
Qed.

Lemma lru_getitem_elem (k : K) (v : V) c c' :
  lru_getitem k c = Some (v, c') →
  (k, v) ∈ items c ∧ ∀ kv, kv ∈ items c' → kv ∈ items c.
Proof.
  unfold lru_getitem. destruct (assoc k (items c)) as [v0|] eqn:Ha; [|done].
  intros [= <- <-]. apply assoc_Some_elem in Ha. split; [done|]. simpl.
  intros kv [->|Hin]%elem_of_cons; [done|].
  by apply without_elem in Hin as [? _].
Qed.
End lru_membership.

Section store_invariant.
Import fs.
Context (Γ : Env).
Implicit Types (s : FileStoreRO).

(** Two ids print alike only when they are the same id. *)
Lemma str_oid_inj (i j : ObjectId) : str_oid i = str_oid j → i = j.
Proof. unfold str_oid. apply (inj pretty). Qed.

Lemma find_Some_elem {A} (P : A → bool) (l : list A) x :
  List.find P l = Some x → x ∈ l ∧ P x = true.
Proof.
  intros Hf. apply find_some in Hf as [Hin HP].
  split; [by apply list_elem_of_In | done].
Qed.

Lemma find_None_elem {A} (P : A → bool) (l : list A) x :
  List.find P l = None → x ∈ l → P x = false.
Proof. intros Hf Hin. apply (find_none _ _ Hf). by apply list_elem_of_In. Qed.

Lemma NoDup_fmap_elem_inj {A B} (f : A → B) (l : list A) x y :
  NoDup (f <$> l) → x ∈ l → y ∈ l → f x = f y → x = y.
Proof.
  induction l as [|a l IH]; [intros _ Hx; by apply elem_of_nil in Hx|].
  rewrite fmap_cons, NoDup_cons. intros [Hnin Hnd] Hx Hy Hf.
  apply elem_of_cons in Hx as [->|Hx]; apply elem_of_cons in Hy as [->|Hy].
  - done.
  - exfalso. apply Hnin. rewrite Hf. by apply list_elem_of_fmap_2.
  - exfalso. apply Hnin. rewrite <- Hf. by apply list_elem_of_fmap_2.
  - by apply IH.
Qed.

(** The document of an id, read from the collection. *)
Lemma find_resource (rs : list Resource) r :
  NoDup (_id <$> rs) → r ∈ rs →
  List.find (λ r', bool_decide (_id r' = _id r)) rs = Some r.
Proof.
  intros Hnd Hin.
  destruct (List.find _ rs) as [r'|] eqn:Hf.
  - apply find_Some_elem in Hf as [Hin' Hid]. apply bool_decide_eq_true in Hid.
    f_equal. by eapply NoDup_fmap_elem_inj.
  - apply (find_None_elem _ _ r) in Hf; [|done].
    by apply bool_decide_eq_false in Hf.
Qed.

Lemma find_datum (ds : list Datum) d :
  NoDup (datum_id <$> ds) → d ∈ ds →
  List.find (λ d', bool_decide (datum_id d' = datum_id d)) ds = Some d.
Proof.
  intros Hnd Hin.
  destruct (List.find _ ds) as [d'|] eqn:Hf.
  - apply find_Some_elem in Hf as [Hin' Hid]. apply bool_decide_eq_true in Hid.
    f_equal. by eapply NoDup_fmap_elem_inj.
  - apply (find_None_elem _ _ d) in Hf; [|done].
    by apply bool_decide_eq_false in Hf.
Qed.

Lemma dcache_ok_sub (c c' : LRU string Datum) ds :
  (∀ kv, kv ∈ items c' → kv ∈ items c) → dcache_ok c ds → dcache_ok c' ds.
Proof. intros Hsub Hok k d Hin. by apply Hok, Hsub. Qed.

Lemma rcache_ok_sub (c c' : LRU ObjectId (option Resource)) rs :
  (∀ kv, kv ∈ items c' → kv ∈ items c) → rcache_ok c rs → rcache_ok c' rs.
Proof. intros Hsub Hok k v Hin. by apply Hok, Hsub. Qed.

Lemma hcache_ok_sub (c c' : LRU (string * string) Instance) rs :
  (∀ kv, kv ∈ items c' → kv ∈ items c) → hcache_ok Γ c rs → hcache_ok Γ c' rs.
Proof. intros Hsub Hok a n inst Hin. by apply Hok, Hsub. Qed.

Lemma evict_name_elem name (c : LRU (string * string) Instance) kv :
  kv ∈ items (evict_name name c) → kv ∈ items c.
Proof. rewrite evict_name_items. by intros [_ ?]%list_elem_of_filter. Qed.

Lemma evict_names_elem (hs : list ctor) (c : LRU (string * string) Instance) kv :
  kv ∈ items (foldl (λ c handler, evict_name (cls_name Γ handler) c) c hs) →
  kv ∈ items c.
Proof. rewrite evict_names_items. by intros [_ ?]%list_elem_of_filter. Qed.

(** A step that leaves the documents, the datum cache and the resource
    cache alone and takes entries out of the handler cache, if it does
    anything to it. *)
Lemma store_inv_registry s s' :
  resource_col s' = resource_col s → datum_col s' = datum_col s →
  next_oid s' = next_oid s → _datum_cache s' = _datum_cache s →
  _resource_cache s' = _resource_cache s →
  (∀ kv, kv ∈ items (_handler_cache s') → kv ∈ items (_handler_cache s)) →
  store_inv Γ s → store_inv Γ s'.
Proof.
  intros Hr Hd Hn Hdc Hrc Hsub (Hdocs & Hdok & Hrok & Hhok).
  unfold store_inv. rewrite Hr, Hd, Hn, Hdc, Hrc.
  split; [done|]. split; [done|]. split; [done|].
  by apply (hcache_ok_sub (_handler_cache s)).
Qed.

Lemma deregister_handler_store_inv key s :
  store_inv Γ s → store_inv Γ (deregister_handler Γ key s).
Proof.
  destruct (deregister_handler_documents Γ key s) as (? & ? & ? & ? & ? & _).
  apply store_inv_registry; try done.
  intros kv. rewrite deregister_handler_cache.
  destruct (dict_at (dicts s) (primary_of (handler_reg s)) !! key); [|done].
  apply evict_name_elem.
Qed.

Lemma register_handler_store_inv key H ov s :
  store_inv Γ s → store_inv Γ (register_handler Γ key H ov s).2.
Proof.
  intros Hinv. unfold register_handler.
  destruct (negb ov && contains (dicts s) (handler_reg s) key).
  - destruct (getitem (dicts s) (handler_reg s) key) as [h0|e]; simpl;
      [destruct (decide (h0 = H))|]; done.
  - simpl. by apply (deregister_handler_store_inv key) in Hinv.
Qed.

Lemma leave_block_store_inv stash s :
  store_inv Γ s → store_inv Γ (leave_block Γ stash s).
Proof.
  apply store_inv_registry; try done.
  intros kv. unfold leave_block. simpl. apply evict_names_elem.
Qed.

(** A read of the resource cache gives the persisted document of the
    id, from the cache or from the collection. *)
Lemma resource_cache_getitem_store_inv rid s :
  store_inv Γ s → (rid < next_oid s)%nat →
  ∃ r s1, resource_cache_getitem rid s = (Some r, s1) ∧
          r ∈ resource_col s ∧ _id r = rid ∧
          rcache_ok (_resource_cache s1) (resource_col s).
Proof.
  intros (Hdocs & _ & Hrok & _) Hlt. unfold resource_cache_getitem.
  destruct (lru_getitem rid (_resource_cache s)) as [[v c]|] eqn:Hg.
  - apply lru_getitem_elem in Hg as [Hin Hsub].
    destruct (Hrok _ _ Hin) as (r & -> & Hr & Hid).
    exists r, (set_resource_cache c s). split; [done|]. split; [done|]. split; [done|].
    simpl. by apply (rcache_ok_sub (_resource_cache s)).
  - destruct Hdocs as (_ & Hnd & _ & Hall & _).
    destruct (Hall rid Hlt) as (r & Hr & Hid). subst rid.
    unfold _r_on_miss.
    rewrite (find_resource _ r) by done.
    eexists r, _. split; [done|]. split; [done|]. split; [done|].
    simpl. intros k v [[= -> ->]|Hin]%lru_setitem_elem; [by exists r|].
    by apply Hrok.
Qed.

(** What a cached instance under the key of a resource is. *)
Lemma handler_cache_hit_tied (c : LRU (string * string) Instance) rs r n inst :
  hcache_ok Γ c rs → NoDup (_id <$> rs) → r ∈ rs →
  assoc (str_oid (_id r), n) (items c) = Some inst →
  inst_path inst = resource_path r ∧ inst_kwargs inst = resource_kwargs r ∧
  n = cls_name Γ (inst_cls inst).
Proof.
  intros Hok Hnd Hr Ha. apply assoc_Some_elem in Ha.
  destruct (Hok _ _ _ Ha) as (r' & Hr' & Hid & Hp & Hk & Hn).
  apply str_oid_inj in Hid.
  assert (r = r') as <- by (by eapply NoDup_fmap_elem_inj).
  done.
Qed.

Lemma get_spec_handler_store_inv rid s :
  store_inv Γ s → (rid < next_oid s)%nat →
  store_inv Γ (get_spec_handler Γ rid s).2.
Proof.
  intros Hinv Hlt.
  destruct (resource_cache_getitem_store_inv rid s Hinv Hlt)
    as (r & s1 & Hrc & Hr & Hid & Hrok1).
  pose proof (resource_cache_getitem_frame rid s) as Hfr.
  rewrite Hrc in Hfr. simpl in Hfr.
  destruct Hfr as (_ & _ & Hc & _ & _ & Hdc & Hcol & Hdcol & Hoid).
  destruct Hinv as (Hdocs & Hdok & _ & Hhok).
  assert (store_inv Γ s1) as Hinv1.
  { unfold store_inv. by rewrite Hcol, Hdcol, Hoid, Hdc, Hc. }
  rewrite (get_spec_handler_unfold Γ rid s r s1 Hrc).
  destruct (resolve (spec r) s) as [handler|e]; [|done]. cbv zeta.
  destruct (assoc _ (items (_handler_cache s))) as [inst|] eqn:Ha; simpl.
  - unfold store_inv. simpl. rewrite Hcol, Hdcol, Hoid, Hdc.
    split; [done|]. split; [done|]. split; [done|].
    apply assoc_Some_elem in Ha.
    intros a n i [[= -> -> ->]|Hin]%elem_of_cons; [by apply Hhok|].
    apply without_elem in Hin as [Hin _]. by apply Hhok.
  - destruct (cls_init Γ handler (resource_path r) (resource_kwargs r)) as [[]|e];
      [|done].
    unfold store_inv. simpl. rewrite Hcol, Hdcol, Hoid, Hdc.
    split; [done|]. split; [done|]. split; [done|].
    intros a n i [[= -> -> ->]|Hin]%lru_setitem_elem; [by exists r|].
    by apply Hhok.
Qed.

Lemma get_datum_store_inv eid s :
  store_inv Γ s → store_inv Γ (get_datum Γ eid s).2.
Proof.
  intros Hinv. unfold get_datum, _get_datum.
  assert (∀ d c, d ∈ datum_col s → dcache_ok c (datum_col s) →
            store_inv Γ (let '(r, s2) := get_spec_handler Γ (resource d)
                                            (set_datum_cache c s) in
                         match r with
                         | Ok inst => (call_instance Γ inst (datum_kwargs d), s2)
                         | Raise e => (Raise e, s2)
                         end).2) as Hk.
  { intros d c Hd Hc.
    assert (store_inv Γ (set_datum_cache c s)) as Hinv1
      by (destruct Hinv as (? & _ & ? & ?); split; [done|split; [done|split; done]]).
    assert (resource d < next_oid (set_datum_cache c s))%nat as Hlt
      by (destruct Hinv as ((_ & _ & _ & _ & Hres) & _); by apply Hres).
    pose proof (get_spec_handler_store_inv _ _ Hinv1 Hlt) as Hinv2.
    by destruct (get_spec_handler Γ (resource d) (set_datum_cache c s)) as [[inst|e] s2]. }
  destruct Hinv as (Hdocs & Hdok & Hrest).
  destruct (lru_getitem eid (_datum_cache s)) as [[d cd]|] eqn:Hg.
  - apply lru_getitem_elem in Hg as [Hin Hsub].
    apply Hk; [by apply (Hdok _ _ Hin) | by apply (dcache_ok_sub (_datum_cache s))].
  - destruct (List.find _ (datum_col s)) as [d|] eqn:Hf;
      [|split; [done|split; [done|exact Hrest]]].
    apply find_Some_elem in Hf as [Hd Hid]. apply bool_decide_eq_true in Hid.
    apply Hk; [done|].
    intros k d' [[= -> ->]|Hin]%lru_setitem_elem; [done | by apply Hdok].
Qed.

Lemma insert_resource_store_inv sp rp rk s :
  store_inv Γ s → store_inv Γ (insert_resource Γ sp rp rk s).2.
Proof.
  intros Hinv. unfold insert_resource, _insert_resource.
  destruct (match known_spec Γ sp with Some _ => _ | None => true end); [|done].
  destruct Hinv as ((Hndd & Hndr & Hlt & Hall & Hres) & Hdok & Hrok & Hhok).
  unfold store_inv. simpl. split; [split; [|split; [|split; [|split]]]|split; [|split]].
  - done.
  - rewrite fmap_app. apply NoDup_app. split; [done|]. split; [|apply NoDup_singleton].
    intros i Hi [= ->]%list_elem_of_singleton.
    apply list_elem_of_fmap in Hi as (r & Hid & Hr). apply Hlt in Hr. simpl in Hid. lia.
  - intros r [Hr| ->%list_elem_of_singleton]%elem_of_app; [apply Hlt in Hr; lia | simpl; lia].
  - intros i Hi. destruct (decide (i = next_oid s)) as [->|Hne].
    + eexists. split; [apply elem_of_app; right; by apply list_elem_of_singleton | done].
    + destruct (Hall i) as (r & Hr & Hid); [lia|].
      exists r. split; [apply elem_of_app; by left | done].
  - intros d Hd. apply Hres in Hd. lia.
  - done.
  - intros k v Hin. destruct (Hrok k v Hin) as (r & ? & ? & ?).
    exists r. split; [done|]. split; [apply elem_of_app; by left | done].
  - intros a n i Hin. destruct (Hhok a n i Hin) as (r & ? & ?).
    exists r. split; [apply elem_of_app; by left | done].
Qed.

Lemma insert_datum_store_inv ra did dk s :
  (∀ r, ra = inl r → r ∈ resource_col s) →
  store_inv Γ s → store_inv Γ (insert_datum Γ ra did dk s).2.
Proof.
  intros Hra Hinv. unfold insert_datum.
  destruct (match ra with inl r => Some r | inr i => _ end) as [r|] eqn:Hfound; [|done].
  assert (r ∈ resource_col s) as Hr.
  { destruct ra as [r'|i]; [injection Hfound as ->; by apply Hra|].
    by apply find_Some_elem in Hfound as [? _]. }
  unfold _insert_datum.
  destruct (match known_spec Γ (spec r) with Some _ => _ | None => true end); [|done].
  case_bool_decide as Hin; [done|].
  destruct Hinv as ((Hndd & Hndr & Hlt & Hall & Hres) & Hdok & Hrok & Hhok).
  unfold store_inv. simpl. split; [split; [|split; [|split; [|split]]]|split; [|split]];
    try done.
  - rewrite fmap_app. apply NoDup_app. split; [done|]. split; [|apply NoDup_singleton].
    by intros i Hi [= ->]%list_elem_of_singleton.
  - intros d [Hd| ->%list_elem_of_singleton]%elem_of_app; [by apply Hres | by apply Hlt].
  - intros k d Hd. destruct (Hdok k d Hd) as [? ?].
    split; [apply elem_of_app; by left | done].
Qed.

Lemma init_store_inv reg : store_inv Γ (__init__ reg).
Proof.
  split; [split; [|split; [|split; [|split]]]|split; [|split]]; simpl.
  - apply NoDup_nil_2.
  - apply NoDup_nil_2.
  - intros r Hr. by apply elem_of_nil in Hr.
  - intros i Hi. lia.
  - intros d Hd. by apply elem_of_nil in Hd.
  - intros k d Hin. by apply elem_of_nil in Hin.
  - intros k v Hin. by apply elem_of_nil in Hin.
  - intros a n i Hin. by apply elem_of_nil in Hin.
Qed.

(** Every step keeps the caches in agreement with the collections, and
    so does any number of steps from a new store. *)
Lemma step_store_inv s s' : step Γ s s' → store_inv Γ s → store_inv Γ s'.
Proof.
  intros [key H ov|key|rid Hlt|eid|sp rp rk|ra did dk Hra|d|temp|stash] Hinv.
  - by apply register_handler_store_inv.
  - by apply deregister_handler_store_inv.
  - by apply get_spec_handler_store_inv.
  - by apply get_datum_store_inv.
  - by apply insert_resource_store_inv.
  - by apply insert_datum_store_inv.
  - done.
  - done.
  - by apply leave_block_store_inv.
Qed.

Lemma steps_store_inv s s' : steps Γ s s' → store_inv Γ s → store_inv Γ s'.
Proof.
  induction 1 as [|s s1 s' Hstep _ IH]; [done|].
  intros Hinv. apply IH. by eapply step_store_inv.
Qed.

Lemma reachable_store_inv reg s : steps Γ (__init__ reg) s → store_inv Γ s.
Proof. intros Hs. eapply steps_store_inv; [exact Hs | apply init_store_inv]. Qed.

(** The shape of the handler cache is kept as well. *)
Lemma step_cache_inv s s' : step Γ s s' → cache_inv Γ s → cache_inv Γ s'.
Proof.
  intros [key H ov|key|rid Hlt|eid|sp rp rk|ra did dk Hra|d|temp|stash] Hinv.
  - by apply register_handler_cache_inv.
  - by apply deregister_handler_cache_inv.
  - by apply get_spec_handler_cache_inv.
  - by apply get_datum_cache_inv.
  - unfold insert_resource, _insert_resource.
    by destruct (match known_spec Γ sp with Some _ => _ | None => true end).
  - unfold insert_datum, _insert_datum.
    destruct (match ra with inl r => Some r | inr i => _ end) as [r|]; [|done].
    destruct (match known_spec Γ (spec r) with Some _ => _ | None => true end); [|done].
    by case_bool_decide.
  - done.
  - done.
  - unfold cache_inv, leave_block. simpl. by apply cache_ok_evict_all.
Qed.

Lemma reachable_cache_inv reg s : steps Γ (__init__ reg) s → cache_inv Γ s.
Proof.
  assert (cache_inv Γ (__init__ reg)) as Hinit.
  { split; [split; [apply NoDup_nil_2 | by vm_compute]|]. split; [done|]. split.
    - intros k i Hin. by apply elem_of_nil in Hin.
    - apply NoDup_nil_2. }
  revert Hinit. generalize (__init__ reg). intros s0 Hinit Hs.
  induction Hs as [|s0 s1 s' Hstep _ IH]; [done|].
  apply IH. by eapply step_cache_inv.
Qed.

(** No step takes a document away. *)
Lemma get_datum_documents eid s :
  let s' := (get_datum Γ eid s).2 in
  dicts s' = dicts s ∧ handler_reg s' = handler_reg s ∧ next_loc s' = next_loc s ∧
  resource_col s' = resource_col s ∧ datum_col s' = datum_col s ∧
  next_oid s' = next_oid s.
Proof.
  simpl. unfold get_datum, _get_datum.
  assert (∀ d c,
            let s' := (let '(r, s2) := get_spec_handler Γ (resource d)
                                          (set_datum_cache c s) in
                       match r with
                       | Ok inst => (call_instance Γ inst (datum_kwargs d), s2)
                       | Raise e => (Raise e, s2)
                       end).2 in
            dicts s' = dicts s ∧ handler_reg s' = handler_reg s ∧
            next_loc s' = next_loc s ∧ resource_col s' = resource_col s ∧
            datum_col s' = datum_col s ∧ next_oid s' = next_oid s) as Hk.
  { intros d c.
    pose proof (get_spec_handler_registry Γ (resource d) (set_datum_cache c s)) as Hfr.
    destruct (get_spec_handler Γ (resource d) (set_datum_cache c s)) as [[inst|e] s2];
      simpl in *; by destruct Hfr as (? & ? & ? & _ & ? & ? & ?). }
  destruct (lru_getitem eid (_datum_cache s)) as [[d cd]|]; [apply Hk|].
  destruct (List.find _ (datum_col s)) as [d|]; [apply Hk | done].
Qed.

Lemma step_documents s s' :
  step Γ s s' →
  (∀ r, r ∈ resource_col s → r ∈ resource_col s') ∧
  (∀ d, d ∈ datum_col s → d ∈ datum_col s').
Proof.
  intros [key H ov|key|rid Hlt|eid|sp rp rk|ra did dk Hra|d|temp|stash].
  - by destruct (register_handler_documents Γ key H ov s) as (-> & -> & _).
  - by destruct (deregister_handler_documents Γ key s) as (-> & -> & _).
  - by destruct (get_spec_handler_registry Γ rid s) as (_ & _ & _ & _ & -> & -> & _).
  - by destruct (get_datum_documents eid s) as (_ & _ & _ & -> & -> & _).
  - unfold insert_resource, _insert_resource.
    destruct (match known_spec Γ sp with Some _ => _ | None => true end); [|done].
    simpl. split; [|done]. intros r Hr. apply elem_of_app. by left.
  - unfold insert_datum, _insert_datum.
    destruct (match ra with inl r => Some r | inr i => _ end) as [r|]; [|done].
    destruct (match known_spec Γ (spec r) with Some _ => _ | None => true end); [|done].
    case_bool_decide; [done|]. simpl. split; [done|].
    intros d Hd. apply elem_of_app. by left.
  - done.
  - done.
  - done.
Qed.

Lemma steps_documents s s' :
  steps Γ s s' →
  (∀ r, r ∈ resource_col s → r ∈ resource_col s') ∧
  (∀ d, d ∈ datum_col s → d ∈ datum_col s').
Proof.
  induction 1 as [|s s1 s' Hstep _ [IHr IHd]]; [done|].
  apply step_documents in Hstep as [Hr Hd]. split; eauto.
Qed.

(** A document that the resource cache returns is the persisted one. *)
Lemma resource_cache_getitem_Some rid s r s1 :
  store_inv Γ s → resource_cache_getitem rid s = (Some r, s1) →
  r ∈ resource_col s ∧ _id r = rid.
Proof.
  intros (_ & _ & Hrok & _). unfold resource_cache_getitem.
  destruct (lru_getitem rid (_resource_cache s)) as [[v c]|] eqn:Hg.
  - intros [= -> <-]. apply lru_getitem_elem in Hg as [Hin _].
    destruct (Hrok _ _ Hin) as (r' & [= <-] & ? & ?). done.
  - intros [= Hf _]. unfold _r_on_miss in Hf.
    apply find_Some_elem in Hf as [? Hid]. by apply bool_decide_eq_true in Hid.
Qed.

(** The retrieval of the handler of a persisted resource whose spec
    resolves: when the instance cached under the key, if there is one,
    is of the resolved class, and the class accepts the resource's path
    and kwargs, the retrieval returns an instance of that class for
    that path and those kwargs, and the instance is in the cache
    afterwards. *)
Lemma get_spec_handler_returns s r H :
  store_inv Γ s → r ∈ resource_col s →
  resolve (spec r) s = Ok H →
  (∀ inst, assoc (str_oid (_id r), cls_name Γ H) (items (_handler_cache s)) = Some inst →
           inst_cls inst = H) →
  cls_init Γ H (resource_path r) (resource_kwargs r) = Ok () →
  ∃ inst s', get_spec_handler Γ (_id r) s = (Ok inst, s') ∧
             inst_cls inst = H ∧ inst_path inst = resource_path r ∧
             inst_kwargs inst = resource_kwargs r ∧
             assoc (str_oid (_id r), cls_name Γ H) (items (_handler_cache s')) = Some inst.
Proof.
  intros Hinv Hr Hres Hcls Hinit.
  assert (_id r < next_oid s)%nat as Hlt by (by apply Hinv).
  destruct (resource_cache_getitem_store_inv _ _ Hinv Hlt) as (r0 & s1 & Hrc & Hr0 & Hid & _).
  assert (r0 = r) as ->.
  { destruct Hinv as ((_ & Hnd & _) & _). by eapply NoDup_fmap_elem_inj. }
  rewrite (get_spec_handler_unfold Γ _ s r s1 Hrc), Hres. cbv zeta.
  destruct (assoc _ (items (_handler_cache s))) as [inst|] eqn:Ha.
  - destruct Hinv as ((_ & Hnd & _) & _ & _ & Hhok).
    destruct (handler_cache_hit_tied _ _ _ _ _ Hhok Hnd Hr Ha) as (Hp & Hk & _).
    eexists inst, _. split; [done|]. split; [by apply Hcls|].
    split; [done|]. split; [done|]. simpl. by rewrite decide_True.
  - rewrite Hinit. eexists _, _. split; [done|]. simpl.
    split; [done|]. split; [done|]. split; [done|]. apply lru_setitem_lookup_same.
Qed.

(** The retrieval of a persisted datum, under the same conditions on
    the handler of its resource. *)
Lemma get_datum_returns s d r H v :
  store_inv Γ s → d ∈ datum_col s → r ∈ resource_col s → resource d = _id r →
  resolve (spec r) s = Ok H →
  (∀ inst, assoc (str_oid (_id r), cls_name Γ H) (items (_handler_cache s)) = Some inst →
           inst_cls inst = H) →
  cls_init Γ H (resource_path r) (resource_kwargs r) = Ok () →
  cls_call Γ H (resource_path r) (resource_kwargs r) (datum_kwargs d) = Ok v →
  ∃ inst s', get_datum Γ (datum_id d) s = (Ok v, s') ∧ inst_cls inst = H ∧
             assoc (str_oid (_id r), cls_name Γ H) (items (_handler_cache s')) = Some inst.
Proof.
  intros Hinv Hd Hr Hdr Hres Hcls Hinit Hcall.
  assert (∃ c, dcache_ok c (datum_col s) ∧
               match lru_getitem (datum_id d) (_datum_cache s) with
               | Some (d0, c0) => Some (d0, set_datum_cache c0 s)
               | None =>
                   match List.find (λ d0, bool_decide (datum_id d0 = datum_id d))
                                   (datum_col s) with
                   | Some d0 => Some (d0, set_datum_cache
                                            (lru_setitem (datum_id d) d0 (_datum_cache s)) s)
                   | None => None
                   end
               end = Some (d, set_datum_cache c s)) as (c & Hc & Hfetch).
  { destruct Hinv as ((Hndd & _) & Hdok & _).
    destruct (lru_getitem (datum_id d) (_datum_cache s)) as [[d0 c0]|] eqn:Hg.
    - apply lru_getitem_elem in Hg as [Hin Hsub].
      destruct (Hdok _ _ Hin) as [Hd0 Hid0].
      assert (d0 = d) as -> by (by eapply NoDup_fmap_elem_inj).
      exists c0. split; [by apply (dcache_ok_sub (_datum_cache s)) | done].
    - rewrite (find_datum _ d) by done. eexists. split; [|done].
      intros k d' [[= -> ->]|Hin]%lru_setitem_elem; [done | by apply Hdok]. }
  unfold get_datum, _get_datum. rewrite Hfetch.
  assert (store_inv Γ (set_datum_cache c s)) as Hinv1
    by (destruct Hinv as (? & _ & ? & ?); split; [done|split; [done|split; done]]).
  destruct (get_spec_handler_returns (set_datum_cache c s) r H Hinv1 Hr Hres Hcls Hinit)
    as (inst & s' & Hgsh & Hic & Hip & Hik & Ha).
  rewrite Hdr, Hgsh. exists inst, s'. split; [|done].
  unfold call_instance. by rewrite Hic, Hip, Hik, Hcall.
Qed.

Lemma insert_datum_Ok ra did odk s r d s2 :
  store_inv Γ s → r ∈ resource_col s →
  ra = inl r ∨ ra = inr (_id r) →
  insert_datum Γ ra did odk s = (Ok d, s2) →
  d = mkDatum did (_id r) (default ∅ odk) ∧
  s2 = set_datum_col (datum_col s ++ [d]) s.
Proof.
  intros Hinv Hr Hra Hid.
  assert (insert_datum Γ ra did odk s = _insert_datum Γ r did (default ∅ odk) s) as Heq.
  { unfold insert_datum. destruct Hra as [->| ->]; [done|].
    destruct Hinv as ((_ & Hnd & _) & _). by rewrite (find_resource _ r). }
  rewrite Heq in Hid. by apply _insert_datum_Ok in Hid as (_ & ? & ?).
Qed.

(** C2, as amended. In a store reached from a new one by any steps, a
    resource is inserted and then a datum for it, the resource handed
    over as the document or as its id. Whatever steps follow
    (registrations, deregistrations, retrievals, further insertions,
    entries into temporary-handler blocks and exits from them, on ids
    and resource documents that the store gave out), in the store they
    lead to: when the spec of the resource resolves to a
    class [H] that accepts the resource's path and kwargs and whose
    instance returns [v] for the datum's kwargs, and the instance
    cached for the resource under the name of [H], if there is one, is
    an instance of [H], then [get_datum] on the id of the datum returns
    [v], and it returns [v] again when it is called a second time and
    finds the datum, the resource and the instance in the caches. *)
Theorem insert_then_retrieve (reg : option (gmap string ctor))
    (sp rp : string) (rk : Kwargs) (did : string)
    (odk : option Kwargs) (ra : Resource + ObjectId) (v : ndarray) (H : ctor)
    s r s1 d s2 s3 :
  steps Γ (__init__ reg) s →
  insert_resource Γ sp rp rk s = (Ok r, s1) →
  ra = inl r ∨ ra = inr (_id r) →
  insert_datum Γ ra did odk s1 = (Ok d, s2) →
  steps Γ s2 s3 →
  resolve sp s3 = Ok H →
  (∀ inst, assoc (str_oid (_id r), cls_name Γ H) (items (_handler_cache s3)) = Some inst →
           inst_cls inst = H) →
  cls_init Γ H rp rk = Ok () →
  cls_call Γ H rp rk (default ∅ odk) = Ok v →
  datum_id d = did ∧
  (get_datum Γ did s3).1 = Ok v ∧
  (get_datum Γ did (get_datum Γ did s3).2).1 = Ok v.
Proof.
  intros Hreach Hir Hra Hid Hsteps Hres Hcls Hinit Hcall.
  pose proof (reachable_store_inv _ _ Hreach) as Hinv.
  pose proof (insert_resource_store_inv sp rp rk s Hinv) as Hinv1.
  rewrite Hir in Hinv1. simpl in Hinv1.
  apply insert_resource_Ok in Hir as [Hr Hs1].
  assert (r ∈ resource_col s1) as Hr1.
  { rewrite Hs1. simpl. apply elem_of_app. right. by apply list_elem_of_singleton. }
  assert (store_inv Γ s2) as Hinv2.
  { pose proof (insert_datum_store_inv ra did odk s1) as Hk.
    rewrite Hid in Hk. apply Hk; [|done].
    intros r' ->. destruct Hra as [[= ->]|[=]]. done. }
  destruct (insert_datum_Ok _ _ _ _ _ _ _ Hinv1 Hr1 Hra Hid) as [Hd Hs2].
  assert (d ∈ datum_col s2) as Hd2.
  { rewrite Hs2. simpl. apply elem_of_app. right. by apply list_elem_of_singleton. }
  assert (r ∈ resource_col s2) as Hr2 by (by rewrite Hs2).
  destruct (steps_documents _ _ Hsteps) as [Hrs Hds].
  pose proof (steps_store_inv _ _ Hsteps Hinv2) as Hinv3.
  assert (datum_id d = did) as Hdid by (by rewrite Hd).
  assert (resource d = _id r) as Hdr by (by rewrite Hd).
  assert (spec r = sp ∧ resource_path r = rp ∧ resource_kwargs r = rk) as (Hsp & Hrp & Hrk)
    by (by rewrite Hr).
  assert (datum_kwargs d = default ∅ odk) as Hdk by (by rewrite Hd).
  rewrite <- Hsp in Hres. rewrite <- Hrp, <- Hrk in Hinit.
  rewrite <- Hrp, <- Hrk, <- Hdk in Hcall.
  split; [done|]. rewrite <- Hdid.
  destruct (get_datum_returns s3 d r H v Hinv3 (Hds _ Hd2) (Hrs _ Hr2) Hdr Hres Hcls
              Hinit Hcall) as (inst & s4 & Hget & Hic & Ha).
  rewrite Hget. simpl. split; [done|].
  pose proof (get_datum_store_inv (datum_id d) s3 Hinv3) as Hinv4.
  destruct (get_datum_documents (datum_id d) s3) as (Hdi & Hhr & _ & Hrc & Hdc & _).
  rewrite Hget in Hinv4, Hdi, Hhr, Hrc, Hdc. simpl in Hinv4, Hdi, Hhr, Hrc, Hdc.
  destruct (get_datum_returns s4 d r H v Hinv4) as (inst' & s5 & Hget' & _);
    try done.
  - rewrite Hdc. by apply Hds.
  - rewrite Hrc. by apply Hrs.
  - unfold resolve. by rewrite Hdi, Hhr.
  - intros inst0 Ha0. rewrite Ha in Ha0. by injection Ha0 as <-.
  - by rewrite Hget'.
Qed.

(** C5. The handler cache is keyed by the pair of the resource's id and
    the constructor's name, and the key tells resources apart: the keys
    of two resources are the same only when their ids are. When the key
    is in the cache, a retrieval returns the cached instance and builds
    nothing: no instance identity is drawn and every key still maps to
    what it mapped to. Only when the key is absent is the constructor
    called, with the resource's path and kwargs, and the new instance
    stored under the key. The cache never holds a key twice. In a
    store reached from a new one, the resource is the one document of
    its id in the collection; the instance found under the key was
    built from this resource's path and kwargs by a class of the
    resolved name; and after the retrieval every entry of the cache
    sits under the id of a persisted resource and the name of the
    instance's class, was built from that resource's path and kwargs,
    and is the only entry under its key: there is at most one instance
    per resource and handler name. *)
Theorem handler_instance_cached rid s r s1 handler :
  resource_cache_getitem rid s = (Some r, s1) →
  resolve (spec r) s = Ok handler →
  let key := (str_oid (_id r), cls_name Γ handler) in
  (∀ inst, assoc key (items (_handler_cache s)) = Some inst →
     ∃ s', get_spec_handler Γ rid s = (Ok inst, s') ∧
           next_inst s' = next_inst s ∧
           ∀ q, assoc q (items (_handler_cache s')) = assoc q (items (_handler_cache s))) ∧
  (assoc key (items (_handler_cache s)) = None →
     match cls_init Γ handler (resource_path r) (resource_kwargs r) with
     | Ok _ =>
         let inst := mkInstance (next_inst s) handler (resource_path r) (resource_kwargs r) in
         ∃ s', get_spec_handler Γ rid s = (Ok inst, s') ∧
               next_inst s' = S (next_inst s) ∧
               _handler_cache s' = lru_setitem key inst (_handler_cache s) ∧
               assoc key (items (_handler_cache s')) = Some inst
     | Raise e => get_spec_handler Γ rid s = (Raise e, s1)
     end) ∧
  (0 < max_size (_handler_cache s) → lru_wf (_handler_cache s) →
   lru_wf (_handler_cache (get_spec_handler Γ rid s).2)) ∧
  (∀ r' handler',
     (str_oid (_id r'), cls_name Γ handler') = key ↔
     _id r' = _id r ∧ cls_name Γ handler' = cls_name Γ handler) ∧
  (∀ reg, steps Γ (__init__ reg) s →
     r ∈ resource_col s ∧ _id r = rid ∧
     (∀ r', r' ∈ resource_col s → _id r' = rid → r' = r) ∧
     (∀ inst, assoc key (items (_handler_cache s)) = Some inst →
        inst_path inst = resource_path r ∧ inst_kwargs inst = resource_kwargs r ∧
        cls_name Γ (inst_cls inst) = cls_name Γ handler) ∧
     (∀ a n inst, ((a, n), inst) ∈ items (_handler_cache (get_spec_handler Γ rid s).2) →
        (∃ r', r' ∈ resource_col s ∧ a = str_oid (_id r') ∧
               inst_path inst = resource_path r' ∧
               inst_kwargs inst = resource_kwargs r' ∧
               n = cls_name Γ (inst_cls inst)) ∧
        ∀ inst', ((a, n), inst') ∈ items (_handler_cache (get_spec_handler Γ rid s).2) →
                 inst' = inst)).
Proof.
  intros Hrc Hres key.
  pose proof (get_spec_handler_unfold Γ rid s r s1 Hrc) as Hu.
  rewrite Hres in Hu. cbv zeta in Hu. subst key.
  set (key := (str_oid (_id r), cls_name Γ handler)) in *.
  pose proof (resource_cache_getitem_frame rid s) as Hfr.
  rewrite Hrc in Hfr. simpl in Hfr. destruct Hfr as (_ & _ & Hc1 & Hn1 & _).
  split; [|split; [|split; [|split]]].
  - intros inst Ha. rewrite Ha in Hu. eexists. split; [exact Hu|].
    split; [done|]. intros q. simpl.
    destruct (decide (key = q)) as [<-|Hne]; [done|]. by apply assoc_without_ne.
  - intros Ha. rewrite Ha in Hu.
    destruct (cls_init Γ handler (resource_path r) (resource_kwargs r)) as [[]|e]; [|done].
    eexists. split; [exact Hu|]. simpl. split; [done|]. split; [done|].
    apply lru_setitem_lookup_same.
  - intros Hpos Hwf. rewrite Hu.
    destruct (assoc key (items (_handler_cache s))) as [inst|] eqn:Ha; simpl.
    + eapply lru_getitem_wf; [|exact Hwf]. by apply lru_getitem_hit.
    + destruct (cls_init Γ handler (resource_path r) (resource_kwargs r)) as [[]|e]; simpl.
      * by apply lru_setitem_wf.
      * by rewrite Hc1.
  - intros r' handler'. unfold key. split.
    + intros [= Hid Hn]. by apply str_oid_inj in Hid.
    + by intros [-> ->].
  - intros reg Hreach.
    pose proof (reachable_store_inv _ _ Hreach) as Hinv.
    pose proof (reachable_cache_inv _ _ Hreach) as Hcinv.
    destruct (resource_cache_getitem_Some _ _ _ _ Hinv Hrc) as [Hr Hid].
    split; [done|]. split; [done|].
    assert (NoDup (_id <$> resource_col s)) as Hnd by apply Hinv.
    split; [intros r' Hr' Hid'; eapply NoDup_fmap_elem_inj; [exact Hnd|done|done|congruence]|].
    split.
    + intros inst Ha.
      destruct (handler_cache_hit_tied _ _ _ _ _ ltac:(apply Hinv) Hnd Hr Ha) as (? & ? & ?).
      done.
    + assert (rid < next_oid s)%nat as Hlt by (rewrite <- Hid; by apply Hinv).
      pose proof (get_spec_handler_store_inv rid s Hinv Hlt) as (_ & _ & _ & Hhok).
      pose proof (get_spec_handler_cache_inv Γ rid s Hcinv) as ((Hndk & _) & _).
      destruct (get_spec_handler_registry Γ rid s) as (_ & _ & _ & _ & Hcol & _).
      rewrite Hcol in Hhok.
      intros a n inst Hin. split; [by apply Hhok|].
      intros inst' Hin'.
      apply (assoc_NoDup_elem _ _ _ Hndk) in Hin, Hin'. congruence.
Qed.
End store_invariant.

(** C2 as stated fails when two classes bear the same name. The
    resource and the datum are inserted while ['npy'] is bound to class
    1 and the datum is retrieved once, which caches an instance of
    class 1 under [('0', 'NpyHandler')]. Inside
    [with fs.handler_context({'npy': NpyHandler'})] the spec resolves
    to class 3, which accepts the resource and returns the array
    [1, 2, 3]; the retrieval finds the instance of class 1 under the
    same key and returns what that one reads, [3, 2, 1]. *)
Lemma stale_instance_of_same_name_is_used :
  fs.insert_resource Γ2 "npy" "/data/a.npy" ∅ store0
    = (Ok resource0, (fs.insert_resource Γ2 "npy" "/data/a.npy" ∅ store0).2) ∧
  fs.insert_datum Γ2 (inl resource0) "d1" None
      (fs.insert_resource Γ2 "npy" "/data/a.npy" ∅ store0).2
    = (Ok datum1, store2_datum) ∧
  fs.steps Γ2 store2_datum store2_reloaded ∧
  fs.resolve "npy" store2_reloaded = Ok NpyHandler' ∧
  cls_init Γ2 NpyHandler' "/data/a.npy" ∅ = Ok () ∧
  cls_call Γ2 NpyHandler' "/data/a.npy" ∅ ∅ = Ok (mk_ndarray [3%nat] [1; 2; 3]) ∧
  (fs.get_datum Γ2 "d1" store2_reloaded).1 = Ok (mk_ndarray [3%nat] [3; 2; 1]) ∧
  (fs.get_datum Γ2 "d1" store2_reloaded).1 ≠ Ok (mk_ndarray [3%nat] [1; 2; 3]).
Proof.
  split; [vm_compute; reflexivity|]. split; [vm_compute; reflexivity|].
  split.
  { eapply rtc_l; [apply (fs.step_get_datum Γ2 _ "d1")|].
    eapply rtc_l; [apply (fs.step_alloc Γ2 _ {[ "npy" := NpyHandler' ]})|].
    eapply rtc_l; [apply fs.step_enter|]. apply rtc_refl. }
  split; [vm_compute; reflexivity|]. split; [reflexivity|]. split; [reflexivity|].
  assert ((fs.get_datum Γ2 "d1" store2_reloaded).1 = Ok (mk_ndarray [3%nat] [3; 2; 1]))
    as Hget by (vm_compute; reflexivity).
  split; [exact Hget|]. rewrite Hget. discriminate.
Qed.

(** Two resources of one spec and one handler class have an instance
    each: the datum of either comes back with the array of its own
    file, in any order of retrieval. *)
Example two_resources_two_instances :
  (fs.get_datum Γ3 "d1" store3).1 = Ok (mk_ndarray [3%nat] [1; 2; 3]) ∧
  (fs.get_datum Γ3 "d2" (fs.get_datum Γ3 "d1" store3).2).1
    = Ok (mk_ndarray [3%nat] [4; 5; 6]) ∧
  (fs.get_datum Γ3 "d1"
     (fs.get_datum Γ3 "d2" (fs.get_datum Γ3 "d1" store3).2).2).1
    = Ok (mk_ndarray [3%nat] [1; 2; 3]) ∧
  lru_keys (fs._handler_cache
              (fs.get_datum Γ3 "d2" (fs.get_datum Γ3 "d1" store3).2).2)
    = [("1", "NpyHandler"); ("0", "NpyHandler")].
Proof. repeat split; vm_compute; reflexivity. Qed.

Lemma insert_then_retrieve_witness :
  fs.steps Γ0 (fs.__init__ (Some {[ "npy" := NpyHandler ]})) store0 ∧
  fs.insert_resource Γ0 "npy" "/data/a.npy" ∅ store0 = (Ok resource0, store0_resource) ∧
  fs.insert_datum Γ0 (inl resource0) "d1" None store0_resource = (Ok datum1, store0_datum) ∧
  fs.steps Γ0 store0_datum store0_retrieved_in_overlay ∧
  fs.resolve "npy" store0_retrieved_in_overlay = Ok NpyHandler ∧
  (∀ inst, assoc (str_oid (_id resource0), cls_name Γ0 NpyHandler)
                 (items (fs._handler_cache store0_retrieved_in_overlay)) = Some inst →
           inst_cls inst = NpyHandler) ∧
  (fs.get_datum Γ0 "d1" store0_retrieved_in_overlay).1 = Ok (mk_ndarray [3%nat] [1; 2; 3]) ∧
  (fs.get_datum Γ0 "d1" (fs.get_datum Γ0 "d1" store0_retrieved_in_overlay).2).1
    = Ok (mk_ndarray [3%nat] [1; 2; 3]).
Proof.
  assert (fs.steps Γ0 (fs.__init__ (Some {[ "npy" := NpyHandler ]})) store0) as H0
    by apply rtc_refl.
  assert (fs.insert_resource Γ0 "npy" "/data/a.npy" ∅ store0
          = (Ok resource0, store0_resource)) as H1 by (vm_compute; reflexivity).
  assert (fs.insert_datum Γ0 (inl resource0) "d1" None store0_resource
          = (Ok datum1, store0_datum)) as H2 by (vm_compute; reflexivity).
  assert (fs.steps Γ0 store0_datum store0_retrieved_in_overlay) as H3.
  { eapply rtc_l; [apply (fs.step_get_datum Γ0 _ "d1")|].
    eapply rtc_l; [apply (fs.step_alloc Γ0 _ ∅)|].
    eapply rtc_l; [apply fs.step_enter|]. apply rtc_refl. }
  assert (fs.resolve "npy" store0_retrieved_in_overlay = Ok NpyHandler) as H4
    by (vm_compute; reflexivity).
  assert (∀ inst, assoc (str_oid (_id resource0), cls_name Γ0 NpyHandler)
                        (items (fs._handler_cache store0_retrieved_in_overlay)) = Some inst →
                  inst_cls inst = NpyHandler) as H5.
  { intros inst Ha. vm_compute in Ha. by injection Ha as <-. }
  split; [exact H0|]. split; [exact H1|]. split; [exact H2|]. split; [exact H3|].
  split; [exact H4|]. split; [exact H5|].
  exact (proj2 (insert_then_retrieve Γ0 (Some {[ "npy" := NpyHandler ]})
                  "npy" "/data/a.npy" ∅ "d1" None (inl resource0)
                  (mk_ndarray [3%nat] [1; 2; 3]) NpyHandler
                  store0 resource0 store0_resource datum1 store0_datum
                  store0_retrieved_in_overlay
                  H0 H1 (or_introl eq_refl) H2 H3 H4 H5 eq_refl eq_refl)).
Defined.

Lemma handler_instance_cached_witness :
  fs.resource_cache_getitem 0%nat store1
    = (Some resource0, (fs.resource_cache_getitem 0%nat store1).2) ∧
  fs.resolve (spec resource0) store1 = Ok NpyHandler ∧
  (0 < max_size (fs._handler_cache store1) → lru_wf (fs._handler_cache store1) →
   lru_wf (fs._handler_cache (fs.get_spec_handler Γ0 0%nat store1).2)).
Proof.
  assert (fs.resource_cache_getitem 0%nat store1
          = (Some resource0, (fs.resource_cache_getitem 0%nat store1).2)) as H1
    by (vm_compute; reflexivity).
  assert (fs.resolve (spec resource0) store1 = Ok NpyHandler) as H2
    by (vm_compute; reflexivity).
  split; [exact H1|]. split; [exact H2|].
  exact (proj1 (proj2 (proj2
           (handler_instance_cached Γ0 0%nat store1 resource0 _ NpyHandler H1 H2)))).
Defined.

(** * More on the module-level registry of [retrieve.py] *)

Section more_retrieve.
Import retrieve.
Implicit Types (g : HandlerRegistry) (temp rp : list (string * ctor)) (rm : list string).

(** The loop before the [yield] never raises, binds every key of the
    overlay to the overlay's handler, and touches no other key. *)
Lemma enter_binds temp : ∀ rm rp g,
  NoDup temp.*1 →
  ∃ lists g',
    enter temp rm rp g = (Ok lists, g') ∧
    (∀ k v, (k, v) ∈ temp → g' !! k = Some v) ∧
    (∀ k, k ∉ temp.*1 → g' !! k = g !! k).
Proof.
  induction temp as [|[k v] rest IH]; intros rm rp g Hnd.
  - exists (rm, rp), g. split; [done|]. split; [|done].
    intros k v Hin. by apply elem_of_nil in Hin.
  - rewrite fmap_cons in Hnd. apply NoDup_cons in Hnd as [Hk Hnd]. simpl in Hk.
    assert (∀ rm1 rp1 g1,
              g1 !! k = None → (∀ k', k' ≠ k → g1 !! k' = g !! k') →
              ∃ lists g',
                (match register_handler k v false g1 with
                 | (Ok _, g2) => enter rest rm1 rp1 g2
                 | (Raise e, g2) => (Raise e, g2)
                 end) = (Ok lists, g') ∧
                (∀ k0 v0, (k0, v0) ∈ (k, v) :: rest → g' !! k0 = Some v0) ∧
                (∀ k0, k0 ∉ k :: rest.*1 → g' !! k0 = g !! k0)) as Hstep.
    { intros rm1 rp1 g1 Hnone Hsame. rewrite register_handler_new by done.
      destruct (IH rm1 rp1 (<[k := v]> g1) Hnd) as (lists & g' & He & Hb & Ho).
      exists lists, g'. split; [done|]. split.
      - intros k0 v0 Hin. apply elem_of_cons in Hin as [Heq|Hin]; [|by apply Hb].
        injection Heq as -> ->. rewrite Ho by done. apply lookup_insert_eq.
      - intros k0 Hk0. apply not_elem_of_cons in Hk0 as [Hne Hk0].
        rewrite Ho by done. rewrite lookup_insert_ne by done. by apply Hsame. }
    simpl. destruct (g !! k) as [old|] eqn:Hg.
    + apply Hstep; [apply lookup_delete_eq|].
      intros k' Hne. by rewrite lookup_delete_ne.
    + by apply Hstep.
Qed.

(** X10. Inside the block of the module-level [handler_context] the
    overlay is in force: entering never raises, every key of the
    overlay is bound to the overlay's handler, whether it was bound
    before or not, and every other key is bound as it was. *)
Theorem overlay_in_force (temp : list (string * ctor)) g :
  NoDup temp.*1 →
  ∃ lists g',
    enter temp [] [] g = (Ok lists, g') ∧
    (∀ k v, (k, v) ∈ temp → g' !! k = Some v) ∧
    (∀ k, k ∉ temp.*1 → g' !! k = g !! k).
Proof. apply enter_binds. Qed.

(** X11. When the body of the module-level [handler_context] raises,
    nothing is cleaned up: the exception leaves the block and the
    registry is the one the body left.  If the body did not write the
    registry, every key of the overlay stays bound to the overlay's
    handler for good. *)
Theorem raise_skips_cleanup {A} (temp : list (string * ctor))
    (body : state → Result A * state) w (e : PyErr) w1 :
  NoDup temp.*1 →
  body (mkState (enter temp [] [] (_h_registry w)).2 (next_inst w)) = (Raise e, w1) →
  handler_context temp body w = (Raise e, w1) ∧
  (_h_registry w1 = (enter temp [] [] (_h_registry w)).2 →
   ∀ k v, (k, v) ∈ temp → resolve k w1 = Ok v).
Proof.
  intros Hnd Hbody.
  destruct (enter_binds temp [] [] (_h_registry w) Hnd) as ([rm rp] & g' & He & Hb & _).
  rewrite He in Hbody. simpl in Hbody. split.
  - unfold handler_context. rewrite He, Hbody. done.
  - intros Hsame k v Hin. unfold resolve. rewrite Hsame, He. simpl.
    by rewrite (Hb k v Hin).
Qed.

(** X12. In [HandlerRegistry], registering a handler for an unbound key
    and deregistering the key again gives back the very registry, and
    deregistering is idempotent. *)
Theorem legacy_register_then_deregister (key : string) (H : ctor) (ov : bool) g :
  g !! key = None →
  register_handler key H ov g = (Ok (), <[key := H]> g) ∧
  deregister_handler key (register_handler key H ov g).2 = g ∧
  ∀ g', deregister_handler key (deregister_handler key g')
         = deregister_handler key g'.
Proof.
  intros Hk.
  assert (register_handler key H ov g = (Ok (), <[key := H]> g)) as Hreg.
  { unfold register_handler. rewrite Hk. by destruct ov. }
  split; [done|]. rewrite Hreg. simpl. rewrite !deregister_handler_delete.
  split; [by apply delete_insert_id|].
  intros g'. rewrite !deregister_handler_delete. apply delete_id, lookup_delete_eq.
Qed.
End more_retrieve.

Section more_dispatch.
Import fs.
Context (Γ : Env).
Implicit Types (s : FileStoreRO).

(** X19. The handler cache goes by the name of the class, not by the
    class: inside a temporary-handler block whose overlay binds the
    spec of a resource to a handler, a retrieval for the resource
    returns whatever instance the cache holds under the resource's id
    and the handler's name, and builds nothing, even when that instance
    was built by another class of the same name before the block was
    entered. *)
Theorem same_name_reuses_instance (temp : loc) (rid : ObjectId) (r : Resource)
    (handler : ctor) (inst : Instance) s s1 :
  resource_cache_getitem rid (at_yield temp s) = (Some r, s1) →
  dict_at (dicts s) temp !! spec r = Some handler →
  assoc (str_oid (_id r), cls_name Γ handler) (items (_handler_cache s)) = Some inst →
  resolve (spec r) (at_yield temp s) = Ok handler ∧
  (get_spec_handler Γ rid (at_yield temp s)).1 = Ok inst ∧
  next_inst (get_spec_handler Γ rid (at_yield temp s)).2 = next_inst s.
Proof.
  intros Hrc Hbind Hcached.
  assert (resolve (spec r) (at_yield temp s) = Ok handler) as Hres.
  { unfold resolve. simpl. by rewrite Hbind. }
  split; [done|].
  rewrite (get_spec_handler_unfold Γ rid _ r s1 Hrc), Hres. cbv zeta.
  change (_handler_cache (at_yield temp s)) with (_handler_cache s).
  rewrite Hcached. simpl. split; [done|].
  pose proof (resource_cache_getitem_frame rid (at_yield temp s)) as Hfr.
  rewrite Hrc in Hfr. simpl in Hfr. by destruct Hfr as (_ & _ & _ & -> & _).
Qed.
End more_dispatch.

Lemma same_name_reuses_instance_witness :
  fs.resource_cache_getitem 0%nat (fs.at_yield 2%nat (fs.alloc_dict {[ "npy" := NpyHandler' ]} store1))
    = (Some resource0,
       (fs.resource_cache_getitem 0%nat
          (fs.at_yield 2%nat (fs.alloc_dict {[ "npy" := NpyHandler' ]} store1))).2) ∧
  fs.resolve "npy" store1_reloaded = Ok NpyHandler' ∧
  (fs.get_spec_handler Γ1 0%nat store1_reloaded).1
    = Ok (mkInstance 0 NpyHandler "/data/a.npy" ∅).
Proof.
  assert (fs.resource_cache_getitem 0%nat
            (fs.at_yield 2%nat (fs.alloc_dict {[ "npy" := NpyHandler' ]} store1))
          = (Some resource0,
             (fs.resource_cache_getitem 0%nat
                (fs.at_yield 2%nat (fs.alloc_dict {[ "npy" := NpyHandler' ]} store1))).2))
    as H1 by (vm_compute; reflexivity).
  assert (fs.dict_at (fs.dicts (fs.alloc_dict {[ "npy" := NpyHandler' ]} store1)) 2%nat
            !! spec resource0 = Some NpyHandler') as H2 by (vm_compute; reflexivity).
  assert (assoc (str_oid (_id resource0), cls_name Γ1 NpyHandler')
            (items (fs._handler_cache (fs.alloc_dict {[ "npy" := NpyHandler' ]} store1)))
          = Some (mkInstance 0 NpyHandler "/data/a.npy" ∅)) as H3
    by (vm_compute; reflexivity).
  split; [exact H1|].
  destruct (same_name_reuses_instance Γ1 2%nat 0%nat resource0 NpyHandler' _ _ _ H1 H2 H3)
    as (Hres & Hget & _).
  split; [exact Hres | exact Hget].
Defined.

Lemma with_restores_witness :
  fs.wf_locs store1_shadowed ∧
  fs.resolve "npy" store1_shadowed = Ok NpyFrameWise ∧
  fs.resolve "npy"
    (fs.exec Γ0 (fs.With {[ "npy" := NpyHandler ]} (fs.DeregisterHandler "npy"))
       store1_shadowed).2
    = fs.resolve "npy" store1_shadowed.
Proof.
  assert (fs.wf_locs store1_shadowed) as H1.
  { assert (fs.layers (fs.handler_reg store1_shadowed) = [2; 0; 1]%nat) as Hl
      by (vm_compute; reflexivity).
    assert (fs.next_loc store1_shadowed = 3%nat) as Hn by (vm_compute; reflexivity).
    unfold fs.wf_locs. rewrite Hl, Hn. intros l Hin.
    apply elem_of_cons in Hin as [->|Hin]; [lia|].
    apply elem_of_cons in Hin as [->|Hin]; [lia|].
    apply list_elem_of_singleton in Hin as ->. lia. }
  split; [exact H1|]. split; [vm_compute; reflexivity|].
  exact (proj2 (with_restores Γ0 {[ "npy" := NpyHandler ]} (fs.DeregisterHandler "npy")
                  store1_shadowed H1) "npy").
Defined.

(** * More on the handlers *)

Section more_handlers.
Import handlers.

(** X13. The SPE handler opens the file of a point once.  After a call
    that opened it, the file object sits in [_f_cache], and no later
    call for the point builds a [PrincetonSPEFile] again: it gives the
    result of the first call, whatever could be opened by then; this
    holds for the [IntegrityError] of a wrong frame count as well.  A
    file that could not be opened is not remembered: the exception is
    passed on and the handler is as it was. *)
Theorem spe_file_opened_once (F : Files) (self : AreaDetectorSPEHandler.t) (pn : Z) :
  (∀ data self',
     AreaDetectorSPEHandler.open_point F self pn = Ok (data, self') →
     AreaDetectorSPEHandler._f_cache self' !! pn = Some data ∧
     (AreaDetectorSPEHandler.__call__ F self pn).2 = self' ∧
     ∀ F', AreaDetectorSPEHandler.__call__ F' self' pn
           = AreaDetectorSPEHandler.__call__ F self pn) ∧
  (∀ e, AreaDetectorSPEHandler.open_point F self pn = Raise e →
        AreaDetectorSPEHandler.__call__ F self pn = (Raise e, self)).
Proof.
  split.
  - intros data self' Hopen.
    assert (AreaDetectorSPEHandler._f_cache self' !! pn = Some data) as Hc.
    { unfold AreaDetectorSPEHandler.open_point in Hopen.
      destruct (AreaDetectorSPEHandler._f_cache self !! pn) as [spe|] eqn:Hs.
      - by injection Hopen as -> ->.
      - destruct (PrincetonSPEFile F _) as [spe|e]; [|done].
        injection Hopen as -> <-. simpl. apply lookup_insert_eq. }
    assert (∀ F', AreaDetectorSPEHandler.open_point F' self' pn = Ok (data, self'))
      as Hagain.
    { intros F'. unfold AreaDetectorSPEHandler.open_point. by rewrite Hc. }
    split; [done|]. split.
    + unfold AreaDetectorSPEHandler.__call__. rewrite Hopen.
      destruct (shape data) as [|n sh]; [done|].
      by destruct (decide (Z.of_nat n ≠ AreaDetectorSPEHandler._fpp self')).
    + intros F'. unfold AreaDetectorSPEHandler.__call__. by rewrite Hagain, Hopen.
  - intros e Hopen. unfold AreaDetectorSPEHandler.__call__. by rewrite Hopen.
Qed.

Lemma py_slice_inside {A} (l : list A) (start stop : Z) :
  0 ≤ start → start ≤ stop → stop ≤ Z.of_nat (length l) →
  py_slice l start stop = take (Z.to_nat (stop - start)) (drop (Z.to_nat start) l).
Proof.
  intros H0 Hle Hlen. unfold py_slice, clamp_index.
  rewrite !bool_decide_false by lia.
  by rewrite !Z.min_l by lia.
Qed.

Lemma py_slice_stop_0 {A} (l : list A) (start : Z) : py_slice l start 0 = [].
Proof.
  unfold py_slice, clamp_index.
  rewrite (bool_decide_false (0 < 0)) by lia.
  replace (Z.to_nat _) with 0%nat; [done|].
  case_bool_decide; lia.
Qed.

Lemma py_slice_from_end {A} (l : list A) (start stop : Z) :
  start ≤ stop → stop < 0 → - start ≤ Z.of_nat (length l) →
  py_slice l start stop
  = take (Z.to_nat (stop - start)) (drop (Z.to_nat (Z.of_nat (length l) + start)) l).
Proof.
  intros Hle Hneg Hlen. unfold py_slice, clamp_index.
  rewrite !bool_decide_true by lia. f_equal; [|f_equal]; lia.
Qed.

(** X14. When the sequence at hand holds the frames of the point, the
    TIFF handler returns them without listing the files again: for a
    point number that is not negative and a positive [frame_per_point],
    the result is the stack of exactly [frame_per_point] frames that
    starts at frame [point_number * frame_per_point], whatever is on
    disk, and the handler is unchanged. *)
Theorem tiff_returns_point (F : Files) (self : AreaDetectorTiffHandler.t) (pn : Z) :
  0 ≤ pn →
  0 < AreaDetectorTiffHandler._fpp self →
  (pn + 1) * AreaDetectorTiffHandler._fpp self
    ≤ Z.of_nat (length (AreaDetectorTiffHandler._image_sequence self)) →
  let fpp := AreaDetectorTiffHandler._fpp self in
  let frames := take (Z.to_nat fpp)
                  (drop (Z.to_nat (pn * fpp))
                     (AreaDetectorTiffHandler._image_sequence self)) in
  AreaDetectorTiffHandler.__call__ F self pn = (Ok (squeeze (asarray frames)), self) ∧
  Z.of_nat (length frames) = fpp.
Proof.
  intros Hpn Hfpp Hlen fpp frames. subst frames. fold fpp in Hlen, Hfpp. split.
  - unfold AreaDetectorTiffHandler.__call__, AreaDetectorTiffHandler.refresh.
    fold fpp. rewrite !bool_decide_false by lia.
    rewrite py_slice_inside by nia.
    by replace ((pn + 1) * fpp - pn * fpp) with fpp by lia.
  - rewrite length_take, length_drop. nia.
Qed.

(** X15. Negative point numbers are not refused by the TIFF handler;
    they are read as Python reads negative slice bounds.  Point [-1]
    gives an empty array, since its slice ends at frame 0; a point
    [pn <= -2] gives the [frame_per_point] frames that start
    [-pn * frame_per_point] frames before the end of the sequence, when
    the sequence is that long.  No file is listed and no
    [IntegrityError] is raised. *)
Theorem tiff_negative_point (F : Files) (self : AreaDetectorTiffHandler.t) (pn : Z) :
  0 < AreaDetectorTiffHandler._fpp self →
  let fpp := AreaDetectorTiffHandler._fpp self in
  let seq := AreaDetectorTiffHandler._image_sequence self in
  (pn = -1 →
   AreaDetectorTiffHandler.__call__ F self pn = (Ok (mk_ndarray [0%nat] []), self)) ∧
  (pn ≤ -2 → - pn * fpp ≤ Z.of_nat (length seq) →
   AreaDetectorTiffHandler.__call__ F self pn
   = (Ok (squeeze (asarray
            (take (Z.to_nat fpp)
               (drop (Z.to_nat (Z.of_nat (length seq) + pn * fpp)) seq)))), self)).
Proof.
  intros Hfpp fpp seq. fold fpp in Hfpp. subst seq.
  set (seq := AreaDetectorTiffHandler._image_sequence self). split.
  - intros ->. unfold AreaDetectorTiffHandler.__call__, AreaDetectorTiffHandler.refresh.
    fold fpp seq. rewrite !bool_decide_false by lia.
    replace ((-1 + 1) * fpp) with 0 by lia. by rewrite py_slice_stop_0.
  - intros Hpn Hlen. unfold AreaDetectorTiffHandler.__call__, AreaDetectorTiffHandler.refresh.
    fold fpp seq. rewrite !bool_decide_false by nia.
    rewrite (py_slice_from_end seq) by (fold seq; nia).
    by replace ((pn + 1) * fpp - pn * fpp) with fpp by lia.
Qed.

(** X16. A MAPS handler is open or closed.  Closing the handler that
    the constructor returned succeeds; on the closed handler every
    call, for a spectrum or for an energy plane, raises [RuntimeError]
    before any data is read, and closing again fails; [open] brings it
    back to the state the constructor left, as long as the file is the
    same; and [open] on an open handler does nothing, without looking
    at the file. *)
Theorem maps_open_close (H : H5) (filename dset_path : string)
    (self : _HdfMapsHandlerBase.t) :
  _HdfMapsHandlerBase.__init__ H filename dset_path = Ok self →
  (∀ H', _HdfMapsHandlerBase.open H' self = (Ok (), self)) ∧
  ∃ closed,
    _HdfMapsHandlerBase.close self = Some closed ∧
    _HdfMapsHandlerBase.close closed = None ∧
    (∀ H' x y, _HdfMapsHandlerBase.spectrum H' closed x y
               = Raise (RuntimeError "File is not open")) ∧
    (∀ H' e_index, _HdfMapsHandlerBase.energy H' closed e_index
                   = Raise (RuntimeError "File is not open")) ∧
    _HdfMapsHandlerBase.open H closed = (Ok (), self).
Proof.
  unfold _HdfMapsHandlerBase.__init__, _HdfMapsHandlerBase.open. simpl.
  destruct (h5_File H filename) as [f|e] eqn:Hf; [|done].
  destruct (f !! ("MAPS/" +:+ dset_path)) as [d|] eqn:Hd; [|done].
  intros [= <-]. simpl. split; [done|].
  eexists. split; [done|]. split; [done|]. split; [done|]. split; [done|].
  simpl. by rewrite Hf, Hd.
Qed.

(** X17. When the dataset is not in the file, [open] raises [KeyError]
    after it has stored the file: the handler counts as open from then
    on, a later [open] returns at once without trying again, and the
    dataset it holds is still the one from before. *)
Theorem maps_open_failure_sticks (H : H5) (self : _HdfMapsHandlerBase.t)
    (f : gmap string ndarray) :
  _HdfMapsHandlerBase._file self = None →
  h5_File H (_HdfMapsHandlerBase._filename self) = Ok f →
  f !! ("MAPS/" +:+ _HdfMapsHandlerBase._dset_path self) = None →
  ∃ self',
    _HdfMapsHandlerBase.open H self = (Raise KeyError, self') ∧
    _HdfMapsHandlerBase._file self' = Some f ∧
    _HdfMapsHandlerBase._dset self' = _HdfMapsHandlerBase._dset self ∧
    _HdfMapsHandlerBase.__call__ self' = Ok () ∧
    ∀ H', _HdfMapsHandlerBase.open H' self' = (Ok (), self').
Proof.
  intros Hclosed Hf Hd. unfold _HdfMapsHandlerBase.open.
  rewrite Hclosed, Hf. simpl. rewrite Hd. eexists. split; [done|]. done.
Qed.
End more_handlers.

(** * The further properties on concrete stores *)

Lemma other_specs_untouched_witness :
  "spe" ≠ "npy" ∧
  fs.resolve "spe" (fs.register_handler Γ0 "npy" NpyFrameWise true store1).2
    = fs.resolve "spe" store1.
Proof.
  assert ("spe" ≠ "npy") as H1 by done.
  split; [exact H1|].
  exact (proj1 (other_specs_untouched Γ0 "npy" "spe" NpyFrameWise true store1 H1)).
Defined.

Lemma register_then_deregister_witness :
  fs.resolve "spe" store1 = Raise KeyError ∧
  (fs.register_handler Γ0 "spe" NpyHandler false store1).1 = Ok ().
Proof.
  assert (fs.resolve "spe" store1 = Raise KeyError) as H1 by (vm_compute; reflexivity).
  split; [exact H1|].
  exact (proj1 (register_then_deregister Γ0 "spe" NpyHandler false store1 H1)).
Defined.

Lemma missing_resource_is_cached_witness :
  assoc 7%nat (items (fs._resource_cache store1)) = None ∧
  fs._r_on_miss 7%nat store1 = None ∧
  (∀ s', assoc 7%nat (items (fs._resource_cache s')) = Some None →
         (fs.get_spec_handler Γ0 7%nat s').1 = Raise TypeError).
Proof.
  assert (assoc 7%nat (items (fs._resource_cache store1)) = None) as H1
    by (vm_compute; reflexivity).
  assert (fs._r_on_miss 7%nat store1 = None) as H2 by (vm_compute; reflexivity).
  split; [exact H1|]. split; [exact H2|].
  exact (proj2 (missing_resource_is_cached Γ0 7%nat store1 H1 H2)).
Defined.

Lemma registry_code_leaves_documents_witness :
  fs.registry_only registry_code = true ∧
  fs.resource_col (fs.exec Γ0 registry_code store1).2 = fs.resource_col store1.
Proof.
  assert (fs.registry_only registry_code = true) as H1 by reflexivity.
  split; [exact H1|].
  exact (proj1 (registry_code_leaves_documents Γ0 registry_code store1 H1)).
Defined.

Lemma handler_context_restores_witness :
  fs.wf_locs store0_with_dict ∧
  (2 < fs.next_loc store0_with_dict)%nat ∧
  (2%nat ∉ fs.layers (fs.handler_reg store0_with_dict)) ∧
  ∀ sp, fs.resolve sp
          (fs.handler_context Γ0 2%nat
             (fs.exec Γ0 (fs.Seq (fs.DeregisterHandler "npy") (fs.RaiseStmt (UserError 0))))
             store0_with_dict).2
        = fs.resolve sp store0_with_dict.
Proof.
  assert (fs.wf_locs store0_with_dict) as H1.
  { intros l Hl. simpl in *.
    apply elem_of_cons in Hl as [->|Hl]; [lia|].
    apply list_elem_of_singleton in Hl as ->. lia. }
  assert (2 < fs.next_loc store0_with_dict)%nat as H2 by (simpl; lia).
  assert (2%nat ∉ fs.layers (fs.handler_reg store0_with_dict)) as H3.
  { simpl. intros Hl. apply elem_of_cons in Hl as [Hl|Hl]; [lia|].
    apply list_elem_of_singleton in Hl. lia. }
  split; [exact H1|]. split; [exact H2|]. split; [exact H3|].
  exact (proj2 (proj2 (proj2
    (handler_context_restores Γ0 2%nat
       (fs.Seq (fs.DeregisterHandler "npy") (fs.RaiseStmt (UserError 0)))
       store0_with_dict H1 H2 H3)))).
Defined.

Lemma handler_context_restores_on_return_witness :
  NoDup overlay1.*1 ∧
  retrieve.handler_context overlay1 returning_body module1
    = (Ok (), (retrieve.handler_context overlay1 returning_body module1).2) ∧
  retrieve.resolve "npy" (retrieve.handler_context overlay1 returning_body module1).2
    = retrieve.resolve "npy" module1.
Proof.
  assert (NoDup overlay1.*1) as H1.
  { simpl. apply NoDup_cons. split; [|apply NoDup_singleton].
    intros Hin. apply list_elem_of_singleton in Hin. discriminate Hin. }
  assert (retrieve.handler_context overlay1 returning_body module1
          = (Ok (), (retrieve.handler_context overlay1 returning_body module1).2)) as H2
    by (vm_compute; reflexivity).
  split; [exact H1|]. split; [exact H2|].
  apply (handler_context_restores_on_return overlay1 returning_body module1 () _ H1 H2).
  simpl. left.
Defined.

Lemma legacy_get_spec_handler_builds_witness :
  retrieve._h_registry module1 !! spec resource0 = Some NpyHandler ∧
  cls_init Γ0 NpyHandler (resource_path resource0) (resource_kwargs resource0) = Ok () ∧
  ∃ w1 w2 i1 i2,
    retrieve.get_spec_handler Γ0 resource0 None module1 = (Ok i1, w1) ∧
    retrieve.get_spec_handler Γ0 resource0 None w1 = (Ok i2, w2) ∧
    i1 = mkInstance 0 NpyHandler "/data/a.npy" ∅ ∧
    i2 = mkInstance 1 NpyHandler "/data/a.npy" ∅.
Proof.
  assert (retrieve._h_registry module1 !! spec resource0 = Some NpyHandler) as H1
    by (vm_compute; reflexivity).
  assert (cls_init Γ0 NpyHandler (resource_path resource0) (resource_kwargs resource0)
          = Ok ()) as H2 by reflexivity.
  split; [exact H1|]. split; [exact H2|].
  exact (legacy_get_spec_handler_builds Γ0 resource0 NpyHandler module1 H1 H2).
Defined.

Lemma overlay_in_force_witness :
  NoDup overlay1.*1 ∧
  ∃ lists g',
    retrieve.enter overlay1 [] [] registry0 = (Ok lists, g') ∧
    (∀ k v, (k, v) ∈ overlay1 → g' !! k = Some v) ∧
    (∀ k, k ∉ overlay1.*1 → g' !! k = registry0 !! k).
Proof.
  assert (NoDup overlay1.*1) as H1.
  { simpl. apply NoDup_cons. split; [|apply NoDup_singleton].
    intros Hin. apply list_elem_of_singleton in Hin. discriminate Hin. }
  split; [exact H1|].
  exact (overlay_in_force overlay1 registry0 H1).
Defined.

Lemma raise_skips_cleanup_witness :
  NoDup overlay1.*1 ∧
  raising_body (retrieve.mkState (retrieve.enter overlay1 [] [] registry0).2 0)
    = (Raise (UserError 0),
       retrieve.mkState (retrieve.enter overlay1 [] [] registry0).2 0) ∧
  retrieve.handler_context overlay1 raising_body module1
    = (Raise (UserError 0),
       retrieve.mkState (retrieve.enter overlay1 [] [] registry0).2 0).
Proof.
  assert (NoDup overlay1.*1) as H1.
  { simpl. apply NoDup_cons. split; [|apply NoDup_singleton].
    intros Hin. apply list_elem_of_singleton in Hin. discriminate Hin. }
  assert (raising_body (retrieve.mkState (retrieve.enter overlay1 [] [] registry0).2 0)
          = (Raise (UserError 0),
             retrieve.mkState (retrieve.enter overlay1 [] [] registry0).2 0)) as H2
    by reflexivity.
  split; [exact H1|]. split; [exact H2|].
  exact (proj1 (raise_skips_cleanup overlay1 raising_body module1 (UserError 0) _ H1 H2)).
Defined.

Lemma legacy_register_then_deregister_witness :
  registry0 !! "spe" = None ∧
  retrieve.deregister_handler "spe"
    (retrieve.register_handler "spe" NpyHandler false registry0).2 = registry0.
Proof.
  assert (registry0 !! "spe" = None) as H1 by (vm_compute; reflexivity).
  split; [exact H1|].
  exact (proj1 (proj2 (legacy_register_then_deregister "spe" NpyHandler false registry0 H1))).
Defined.

Lemma tiff_returns_point_witness :
  0 ≤ 1 ∧
  0 < handlers.AreaDetectorTiffHandler._fpp tiff1 ∧
  (1 + 1) * handlers.AreaDetectorTiffHandler._fpp tiff1
    ≤ Z.of_nat (length (handlers.AreaDetectorTiffHandler._image_sequence tiff1)) ∧
  handlers.AreaDetectorTiffHandler.__call__ files0 tiff1 1
    = (Ok (squeeze (handlers.asarray [frame0])), tiff1).
Proof.
  assert (0 ≤ 1) as H1 by lia.
  assert (0 < handlers.AreaDetectorTiffHandler._fpp tiff1) as H2 by (simpl; lia).
  assert ((1 + 1) * handlers.AreaDetectorTiffHandler._fpp tiff1
          ≤ Z.of_nat (length (handlers.AreaDetectorTiffHandler._image_sequence tiff1)))
    as H3 by (simpl; lia).
  split; [exact H1|]. split; [exact H2|]. split; [exact H3|].
  exact (proj1 (tiff_returns_point files0 tiff1 1 H1 H2 H3)).
Defined.

Lemma tiff_negative_point_witness :
  0 < handlers.AreaDetectorTiffHandler._fpp tiff1 ∧
  handlers.AreaDetectorTiffHandler.__call__ files0 tiff1 (-1)
    = (Ok (mk_ndarray [0%nat] []), tiff1).
Proof.
  assert (0 < handlers.AreaDetectorTiffHandler._fpp tiff1) as H1 by (simpl; lia).
  split; [exact H1|].
  exact (proj1 (tiff_negative_point files0 tiff1 (-1) H1) eq_refl).
Defined.

Lemma maps_open_close_witness :
  handlers._HdfMapsHandlerBase.__init__ h5_0 "/data/maps.h5" "XRF_roi" = Ok maps0 ∧
  ∀ H', handlers._HdfMapsHandlerBase.open H' maps0 = (Ok (), maps0).
Proof.
  assert (handlers._HdfMapsHandlerBase.__init__ h5_0 "/data/maps.h5" "XRF_roi" = Ok maps0)
    as H1 by (vm_compute; reflexivity).
  split; [exact H1|].
  exact (proj1 (maps_open_close h5_0 "/data/maps.h5" "XRF_roi" maps0 H1)).
Defined.

Lemma maps_open_failure_sticks_witness :
  handlers._HdfMapsHandlerBase._file maps_closed = None ∧
  handlers.h5_File h5_0 (handlers._HdfMapsHandlerBase._filename maps_closed) = Ok ∅ ∧
  (∅ : gmap string ndarray)
    !! ("MAPS/" +:+ handlers._HdfMapsHandlerBase._dset_path maps_closed) = None ∧
  ∃ self',
    handlers._HdfMapsHandlerBase.open h5_0 maps_closed = (Raise KeyError, self') ∧
    handlers._HdfMapsHandlerBase._file self' = Some ∅ ∧
    handlers._HdfMapsHandlerBase._dset self'
      = handlers._HdfMapsHandlerBase._dset maps_closed ∧
    handlers._HdfMapsHandlerBase.__call__ self' = Ok () ∧
    ∀ H', handlers._HdfMapsHandlerBase.open H' self' = (Ok (), self').
Proof.
  assert (handlers._HdfMapsHandlerBase._file maps_closed = None) as H1 by reflexivity.
  assert (handlers.h5_File h5_0 (handlers._HdfMapsHandlerBase._filename maps_closed) = Ok ∅)
    as H2 by (vm_compute; reflexivity).
  assert ((∅ : gmap string ndarray)
            !! ("MAPS/" +:+ handlers._HdfMapsHandlerBase._dset_path maps_closed) = None)
    as H3 by apply lookup_empty.
  split; [exact H1|]. split; [exact H2|]. split; [exact H3|].
  exact (maps_open_failure_sticks h5_0 maps_closed ∅ H1 H2 H3).
Defined.
